(** * Resource property marshaling of the Node.js SDK runtime

    A shallow embedding of [sdk/nodejs/runtime/rpc.ts]: the versioned
    registry ([register], [getRegistration]), the reverse marshaler
    ([deserializeProperty], [deserializeProperties]), property transfer
    ([transferProperties], [resolveProperties]) and the forward marshaler
    ([serializeProperty]), followed by the properties established for them.

    Conventions of the embedding.
    - A JavaScript value that travels over the wire is a [Wire]; a value the
      user program sees is a [Value].  A number is a binary64 float.  An
      object is the association list of its own properties in [Object.keys]
      order, with pairwise distinct keys; inherited properties are not
      modelled.
    - A computation that may throw returns an [Outcome]; the asynchronous
      marshaler may in addition wait for a promise that never settles
      ([Never]), and its embedding counts the depth of its calls
      ([OutOfFuel] when the bound is reached).
    - A mutated object is passed in and returned: the registry table, the
      target of a transfer, the set [dependentResources].
    - Collaborators that live outside [rpc.ts] (the settings, the monitor's
      feature flags, the resource objects, the error classifier) are the
      fields of an [Env]; the package [semver] is modelled in [semver]. *)

From Stdlib Require Import ZArith NArith List String Ascii Bool Lia PrimFloat.
From stdpp Require Import base option list gmap strings pretty.

Set Warnings "-register-all".

Local Open Scope string_scope.
Local Open Scope list_scope.

(** ** JavaScript values *)

(** Values of the protocol's structured-value type, as
    [Struct.toJavaScript] yields them, plus [undefined]. *)
Inductive Wire : Type :=
| WUndefined
| WNull
| WBool (b : bool)
| WNum (n : float)
| WStr (s : string)
| WArr (elems : list Wire)
| WObj (props : list (string * Wire)).

(** The errors raised by [rpc.ts], by the JavaScript runtime ([TypeError])
    and by collaborators ([ExternalError]). *)
Inductive Error : Type :=
| UnexpectedUndefined
| InvalidAsset
| InvalidArchive
| ArchiveMemberNotAsset
| UnrecognizedSignature (sig : Wire)
| PropertyAlreadyInitialized (k label : string)
| UnableToSetProperty (k name t : string) (cause : Error)
| TypeError (msg : string)
| ExternalError (msg : string).

(** How a call ends: it returns, it throws, it waits for ever, or its
    embedding runs out of fuel. *)
Inductive Outcome (A : Type) : Type :=
| Ret (a : A)
| Throw (e : Error)
| Never
| OutOfFuel.
Arguments Ret {A} a.
Arguments Throw {A} e.
Arguments Never {A}.
Arguments OutOfFuel {A}.

Definition bind {A B} (m : Outcome A) (k : A -> Outcome B) : Outcome B :=
  match m with
  | Ret a => k a
  | Throw e => Throw e
  | Never => Never
  | OutOfFuel => OutOfFuel
  end.

Notation "'let*' x ':=' m 'in' k" := (bind m (fun x => k))
  (at level 10, x pattern, m at level 200, k at level 200).

(** A promise, by the state it ends in. *)
Inductive PromiseState (A : Type) : Type :=
| Pending
| Fulfilled (a : A)
| Rejected (e : Error).
Arguments Pending {A}.
Arguments Fulfilled {A} a.
Arguments Rejected {A} e.

(** [await p]. *)
Definition await {A} (p : PromiseState A) : Outcome A :=
  match p with
  | Pending => Never
  | Fulfilled a => Ret a
  | Rejected e => Throw e
  end.

(** A resource object of the program, named by its handle: [Set<Resource>]
    compares resources by identity. *)
Definition Resource := positive.

Inductive AssetKind := FileAsset | StringAsset | RemoteAsset.
Inductive ArchiveKind := AssetArchive | FileArchive | RemoteArchive.

(** Values of the user program. [VOutput] lists what the marshaler reads of
    an [Output]: [getAllResources(o)], [o.promise()], [o.isKnown] and
    [o.isSecret]. *)
Inductive Value : Type :=
| VUndefined
| VNull
| VBool (b : bool)
| VNum (n : float)
| VStr (s : string)
| VArr (elems : list Value)
| VObj (props : list (string * Value))
| VUnknown
| VAsset (kind : AssetKind) (field : Value)
| VArchive (kind : ArchiveKind) (field : Value)
| VPromise (p : PromiseState Value)
| VOutput (resources : PromiseState (list Resource))
          (promise : PromiseState Value)
          (isKnown : PromiseState bool)
          (isSecret : PromiseState Value)
| VResource (r : Resource).

(** ToBoolean. *)
Definition number_truthy (n : float) : bool :=
  negb (PrimFloat.is_zero n || PrimFloat.is_nan n).

Definition string_truthy (s : string) : bool :=
  match s with EmptyString => false | _ => true end.

Definition truthyW (w : Wire) : bool :=
  match w with
  | WUndefined | WNull => false
  | WBool b => b
  | WNum n => number_truthy n
  | WStr s => string_truthy s
  | WArr _ | WObj _ => true
  end.

Definition truthy (v : Value) : bool :=
  match v with
  | VUndefined | VNull => false
  | VBool b => b
  | VNum n => number_truthy n
  | VStr s => string_truthy s
  | _ => true
  end.

(** ToBoolean of an optional boolean parameter such as [keepUnknowns?]. *)
Definition truthy_opt (b : option bool) : bool :=
  match b with Some true => true | _ => false end.

(** ToBoolean of a function object: always true. *)
Definition truthy_fn {A B} (f : A -> B) : bool := true.

(** [obj[k]] on an object given by its properties. *)
Fixpoint getW (k : string) (props : list (string * Wire)) : Wire :=
  match props with
  | [] => WUndefined
  | (k', v) :: rest => if String.eqb k k' then v else getW k rest
  end.

Fixpoint getV (k : string) (props : list (string * Value)) : Value :=
  match props with
  | [] => VUndefined
  | (k', v) :: rest => if String.eqb k k' then v else getV k rest
  end.

(** [obj.hasOwnProperty(k)]. *)
Definition hasOwnProperty {A} (k : string) (props : list (string * A)) : bool :=
  existsb (fun kv => String.eqb k (fst kv)) props.

(** [obj[k] = v]. *)
Fixpoint setProp {A} (k : string) (v : A) (props : list (string * A))
  : list (string * A) :=
  match props with
  | [] => [(k, v)]
  | (k', v') :: rest =>
      if String.eqb k k' then (k', v) :: rest else (k', v') :: setProp k v rest
  end.

(** ** Strings *)

(** [s.split(c)] for a one-character separator. [acc] is the segment read so
    far. *)
Fixpoint split_char_from (c : ascii) (acc : string) (s : string) : list string :=
  match s with
  | EmptyString => [acc]
  | String a rest =>
      if Ascii.eqb a c then acc :: split_char_from c EmptyString rest
      else split_char_from c (acc ++ String a EmptyString) rest
  end.

Definition split_char (c : ascii) (s : string) : list string :=
  split_char_from c EmptyString s.

(** [s.split("::")]. *)
Fixpoint split_dcolon_from (acc : string) (s : string) : list string :=
  match s with
  | EmptyString => [acc]
  | String ":" (String ":" rest) => acc :: split_dcolon_from EmptyString rest
  | String a rest => split_dcolon_from (acc ++ String a EmptyString) rest
  end.

Definition split_dcolon (s : string) : list string :=
  split_dcolon_from EmptyString s.

(** [arr[i]] on an array of strings: [None] stands for [undefined]. *)
Definition at_index (l : list string) (i : nat) : option string := nth_error l i.

(** [arr.pop()]. *)
Definition pop (l : list string) : option string := last l.

(** ** The [semver] package

    [rpc.ts] imports the npm package [semver] and uses its [SemVer]
    constructor, [eq] and [gt].  The package is modelled by its strict
    grammar [v?MAJOR.MINOR.PATCH(-PRERELEASE)?(+BUILD)?] and its precedence
    order; version strings are taken without surrounding white space. *)
Module semver.

Inductive Identifier : Type :=
| Numeric (n : N)
| Alphanumeric (s : string).

Record SemVer : Type := mkSemVer {
  major : N;
  minor : N;
  patch : N;
  prerelease : list Identifier
}.

Definition MAX_LENGTH : nat := 256.
Definition MAX_SAFE_INTEGER : N := 9007199254740991.

Definition is_digit (c : ascii) : bool :=
  let n := N_of_ascii c in ((48 <=? n) && (n <=? 57))%N.

Definition is_letter (c : ascii) : bool :=
  let n := N_of_ascii c in
  (((65 <=? n) && (n <=? 90)) || ((97 <=? n) && (n <=? 122)))%N.

Definition is_idchar (c : ascii) : bool :=
  is_digit c || is_letter c || Ascii.eqb c "-".

Fixpoint all_chars (p : ascii -> bool) (s : string) : bool :=
  match s with
  | EmptyString => true
  | String c rest => p c && all_chars p rest
  end.

Fixpoint digits_value (acc : N) (s : string) : N :=
  match s with
  | EmptyString => acc
  | String c rest => digits_value (10 * acc + (N_of_ascii c - 48))%N rest
  end.

(** [0|[1-9]\d*] *)
Definition numeric_identifier (s : string) : option N :=
  match s with
  | EmptyString => None
  | String "0" EmptyString => Some 0%N
  | String "0" _ => None
  | _ => if all_chars is_digit s then Some (digits_value 0 s) else None
  end.

(** [0|[1-9]\d*|\d*[a-zA-Z-][a-zA-Z0-9-]*] *)
Definition prerelease_identifier (s : string) : option Identifier :=
  match s with
  | EmptyString => None
  | _ =>
      if all_chars is_digit s then option_map Numeric (numeric_identifier s)
      else if all_chars is_idchar s then Some (Alphanumeric s)
      else None
  end.

(** [[a-zA-Z0-9-]+] *)
Definition build_identifier (s : string) : bool :=
  string_truthy s && all_chars is_idchar s.

(** The text before the first [c], and the text after it if [c] occurs. *)
Fixpoint cut_at (c : ascii) (acc : string) (s : string) : string * option string :=
  match s with
  | EmptyString => (acc, None)
  | String a rest =>
      if Ascii.eqb a c then (acc, Some rest)
      else cut_at c (acc ++ String a EmptyString) rest
  end.

Fixpoint all_some {A} (l : list (option A)) : option (list A) :=
  match l with
  | [] => Some []
  | Some a :: rest => option_map (cons a) (all_some rest)
  | None :: _ => None
  end.

(** The fields of [new SemVer(version)], or [None] when the constructor
    raises [TypeError]. *)
Definition parse (version : string) : option SemVer :=
  if (MAX_LENGTH <? String.length version)%nat then None
  else
    let s := match version with String "v" rest => rest | _ => version end in
    let '(front, build) := cut_at "+" EmptyString s in
    let build_ok :=
      match build with
      | None => true
      | Some b => forallb build_identifier (split_char "." b)
      end in
    let '(main, pre) := cut_at "-" EmptyString front in
    match map numeric_identifier (split_char "." main) with
    | [Some ma; Some mi; Some pa] =>
        if build_ok && (ma <=? MAX_SAFE_INTEGER)%N
           && (mi <=? MAX_SAFE_INTEGER)%N && (pa <=? MAX_SAFE_INTEGER)%N
        then
          match pre with
          | None => Some (mkSemVer ma mi pa [])
          | Some p =>
              option_map (mkSemVer ma mi pa)
                (all_some (map prerelease_identifier (split_char "." p)))
          end
        else None
    | _ => None
    end.

(** [new semver.SemVer(version)] *)
Definition new (version : string) : Outcome SemVer :=
  match parse version with
  | Some v => Ret v
  | None => Throw (TypeError "Invalid Version")
  end.

Definition compareIdentifiers (a b : Identifier) : comparison :=
  match a, b with
  | Numeric x, Numeric y => N.compare x y
  | Numeric _, Alphanumeric _ => Lt
  | Alphanumeric _, Numeric _ => Gt
  | Alphanumeric x, Alphanumeric y => String.compare x y
  end.

Definition lexico (c1 c2 : comparison) : comparison :=
  match c1 with Eq => c2 | _ => c1 end.

Definition compareMain (a b : SemVer) : comparison :=
  lexico (N.compare (major a) (major b))
    (lexico (N.compare (minor a) (minor b)) (N.compare (patch a) (patch b))).

Fixpoint compareIdentifierLists (a b : list Identifier) : comparison :=
  match a, b with
  | [], [] => Eq
  | [], _ :: _ => Lt
  | _ :: _, [] => Gt
  | x :: a', y :: b' => lexico (compareIdentifiers x y) (compareIdentifierLists a' b')
  end.

(** A version without prerelease identifiers outranks one with. *)
Definition comparePre (a b : SemVer) : comparison :=
  match prerelease a, prerelease b with
  | [], [] => Eq
  | _ :: _, [] => Lt
  | [], _ :: _ => Gt
  | pa, pb => compareIdentifierLists pa pb
  end.

Definition compare (a b : SemVer) : comparison :=
  lexico (compareMain a b) (comparePre a b).

(** [semver.gt(a, b)] on parsed versions. *)
Definition gt (a b : SemVer) : bool :=
  match compare a b with Gt => true | _ => false end.

(** [semver.eq(a, b)] on version strings: both are parsed first. *)
Definition eq (a b : string) : Outcome bool :=
  let* va := new a in
  let* vb := new b in
  Ret (match compare va vb with Eq => true | _ => false end).

End semver.

(** ** The versioned registry *)

(** [T extends { readonly version?: string }] *)
Class Versioned (T : Type) := version : T -> option string.

Definition sameVersion (a b : option string) : Outcome bool :=
  match a, b with
  | None, _ => Ret true
  | _, None => Ret true
  | Some a, Some b => semver.eq a b
  end.

Definition checkVersion (want have : option semver.SemVer) : bool :=
  match want, have with
  | None, _ => true
  | _, None => true
  | Some want, Some have =>
      (semver.major have =? semver.major want)%N
      && (semver.minor want <=? semver.minor have)%N
      && (semver.patch want <=? semver.patch have)%N
  end.

Section Registry.
Context {T : Type} `{Versioned T}.

(** The loop of [register]: [Ret true] when it reaches [return false]. *)
Fixpoint alreadyRegistered (items : list T) (item : T) : Outcome bool :=
  match items with
  | [] => Ret false
  | existing :: rest =>
      let* same := sameVersion (version existing) (version item) in
      if same then Ret true else alreadyRegistered rest item
  end.

(** [register(source, registrationType, key, item)]: the result and the
    table afterwards.  The table is not touched before an exception. *)
Definition register (source : gmap string (list T))
    (registrationType key : string) (item : T)
  : Outcome (bool * gmap string (list T)) :=
  match source !! key with
  | Some items =>
      let* skip := alreadyRegistered items item in
      if skip then Ret (false, source)
      else Ret (true, <[key := items ++ [item]]> source)
  | None => Ret (true, <[key := [] ++ [item]]> source)
  end.

Definition parseVersion (v : option string) : Outcome (option semver.SemVer) :=
  match v with
  | Some s => let* sv := semver.new s in Ret (Some sv)
  | None => Ret None
  end.

(** The loop of [getRegistration]. *)
Fixpoint bestRegistration (ver : option semver.SemVer) (items : list T)
    (bestMatch : option T) (bestMatchVersion : option semver.SemVer)
  : Outcome (option T) :=
  match items with
  | [] => Ret bestMatch
  | existing :: rest =>
      let* existingVersion := parseVersion (version existing) in
      if negb (checkVersion ver existingVersion)
      then bestRegistration ver rest bestMatch bestMatchVersion
      else if negb (bool_decide (is_Some bestMatch))
              || match existingVersion, bestMatchVersion with
                 | Some e, Some b => semver.gt e b
                 | _, _ => false
                 end
      then bestRegistration ver rest (Some existing) existingVersion
      else bestRegistration ver rest bestMatch bestMatchVersion
  end.

Definition getRegistration (source : gmap string (list T)) (key : string)
    (version : option string) : Outcome (option T) :=
  let* ver :=
    match version with
    | Some v => if string_truthy v then parseVersion (Some v) else Ret None
    | None => Ret None
    end in
  bestRegistration ver (default [] (source !! key)) None None.

End Registry.

Record ResourcePackage : Type := {
  package_version : option string;
  constructProvider : option string -> string -> string -> Outcome Resource
}.

Record ResourceModule : Type := {
  module_version : option string;
  construct : option string -> string -> string -> Outcome Resource
}.

#[global] Instance ResourcePackage_versioned : Versioned ResourcePackage := package_version.
#[global] Instance ResourceModule_versioned : Versioned ResourceModule := module_version.

Definition moduleKey (pkg mod_ : string) : string := pkg ++ ":" ++ mod_.

(** ** Collaborators *)

(** The feature flags of [getStore()]. *)
Record Store : Type := {
  supportsSecrets : bool;
  supportsResourceReferences : bool;
  supportsOutputValues : bool
}.

Inductive ResourceKind := CustomResource | ComponentResource.

(** What a resource object exposes: its class, its [urn] and [id] outputs
    ([id] is [undefined] on a component) and its other properties, which
    may refer back to the resource itself. *)
Record ResourceObject : Type := {
  kind : ResourceKind;
  urn : Value;
  id : Value;
  properties : list (string * Value)
}.

Record Env : Type := {
  isDryRun : unit -> bool;
  isGrpcError : Error -> bool;
  getStore : unit -> Store;
  getResourcePackages : gmap string (list ResourcePackage);
  getResourceModules : gmap string (list ResourceModule);
  resourceObject : Resource -> ResourceObject;
  newDependencyResource : Wire -> Resource;
  getAllTransitivelyReferencedResourceURNs : list Resource -> PromiseState (list string)
}.

Definition getResourcePackage (env : Env) (pkg : string) (version : option string)
  : Outcome (option ResourcePackage) :=
  getRegistration (getResourcePackages env) pkg version.

Definition getResourceModule (env : Env) (pkg mod_ : string) (version : option string)
  : Outcome (option ResourceModule) :=
  getRegistration (getResourceModules env) (moduleKey pkg mod_) version.

(** [registerResourcePackage] and [registerResourceModule]: the table
    afterwards. *)
Definition registerResourcePackage (resourcePackages : gmap string (list ResourcePackage))
    (pkg : string) (resourcePackage : ResourcePackage)
  : Outcome (gmap string (list ResourcePackage)) :=
  let* r := register resourcePackages "package" pkg resourcePackage in
  Ret (snd r).

Definition registerResourceModule (resourceModules : gmap string (list ResourceModule))
    (pkg mod_ : string) (module : ResourceModule)
  : Outcome (gmap string (list ResourceModule)) :=
  let* r := register resourceModules "module" (moduleKey pkg mod_) module in
  Ret (snd r).

(** ** Wire vocabulary *)

Definition unknownValue : string := "04da6b54-80e4-46f7-96ec-b56ff0331ba9".
Definition specialSigKey : string := "4dabf18193072939515e22adb298388d".
Definition specialAssetSig : string := "c44067f5952c0a294b673a41bacd8c17".
Definition specialArchiveSig : string := "0def7320c3a5731c473e5ecbe6d01bc7".
Definition specialSecretSig : string := "1b47061264138c4ac30d75fd1eb44270".
Definition specialResourceSig : string := "5cf8f73096256a8f31e491e813e4eb8e".
Definition specialOutputValueSig : string := "d0e6a833031e9bbcd3f4e8bde6ca49a4".

(** [obj && obj[specialSigKey] === specialSecretSig]: the operand itself
    when it is falsy, a boolean otherwise. *)
Definition isRpcSecret (obj : Value) : Value :=
  if truthy obj then
    match obj with
    | VObj props =>
        match getV specialSigKey props with
        | VStr s => VBool (String.eqb s specialSecretSig)
        | _ => VBool false
        end
    | _ => VBool false
    end
  else obj.

Definition unwrapRpcSecret (obj : Value) : Value :=
  if negb (truthy (isRpcSecret obj)) then obj
  else match obj with
       | VObj props => getV "value" props
       | _ => VUndefined
       end.

(** The secret envelope built by [deserializeProperty]. *)
Definition secretEnvelope (value : Value) : Value :=
  VObj [(specialSigKey, VStr specialSecretSig); ("value", value)].

(** ** The reverse marshaler *)

(** A wire value seen as a program value. *)
Fixpoint ofWire (w : Wire) : Value :=
  match w with
  | WUndefined => VUndefined
  | WNull => VNull
  | WBool b => VBool b
  | WNum n => VNum n
  | WStr s => VStr s
  | WArr elems => VArr (map ofWire elems)
  | WObj props => VObj (map (fun kv => (fst kv, ofWire (snd kv))) props)
  end.

Definition isAssetOrArchive (a : Value) : bool :=
  match a with
  | VAsset _ _ | VArchive _ _ => true
  | _ => false
  end.

(** The argument [version] of [getRegistration] as [deserializeProperty]
    passes it: a falsy value selects no version, a string is parsed, and the
    [SemVer] constructor raises [TypeError] on anything else. *)
Definition versionArgument (version : Wire) : Outcome (option string) :=
  if truthyW version then
    match version with
    | WStr s => Ret (Some s)
    | _ => Throw (TypeError "Invalid Version")
    end
  else Ret None.

Section Loops.
Context (f : Wire -> Outcome Value).

(** [f(props[k])], or [absent] when [props] has no property [k]. *)
Fixpoint withProp (k : string) (absent : Outcome Value) (props : list (string * Wire))
  : Outcome Value :=
  match props with
  | [] => absent
  | (k', v) :: rest => if String.eqb k k' then f v else withProp k absent rest
  end.

(** The loop over the elements of a wire array. *)
Fixpoint arrayLoop (prop : list Wire) (hadSecret : bool) (elems : list Value)
  : Outcome (bool * list Value) :=
  match prop with
  | [] => Ret (hadSecret, elems)
  | e :: rest =>
      let* d := f e in
      arrayLoop rest (hadSecret || truthy (isRpcSecret d)) (elems ++ [unwrapRpcSecret d])
  end.

(** The loop over the entries of a wire object without signature. *)
Fixpoint objectLoop (prop : list (string * Wire)) (hadSecrets : bool)
    (obj : list (string * Value)) : Outcome (bool * list (string * Value)) :=
  match prop with
  | [] => Ret (hadSecrets, obj)
  | (k, v) :: rest =>
      let* o := f v in
      objectLoop rest (hadSecrets || truthy (isRpcSecret o)) (setProp k (unwrapRpcSecret o) obj)
  end.

(** The loop over [Object.keys(prop["assets"])] when [prop["assets"]] is an
    object. *)
Fixpoint assetsLoop (entries : list (string * Wire)) (assets : list (string * Value))
  : Outcome (list (string * Value)) :=
  match entries with
  | [] => Ret assets
  | (name, v) :: rest =>
      let* a := f v in
      if negb (isAssetOrArchive a) then Throw ArchiveMemberNotAsset
      else assetsLoop rest (setProp name a assets)
  end.

(** The same loop when [prop["assets"]] is an array: the keys are the
    indices. *)
Fixpoint assetsLoopArray (i : nat) (entries : list Wire) (assets : list (string * Value))
  : Outcome (list (string * Value)) :=
  match entries with
  | [] => Ret assets
  | v :: rest =>
      let* a := f v in
      if negb (isAssetOrArchive a) then Throw ArchiveMemberNotAsset
      else assetsLoopArray (S i) rest (setProp (pretty i) a assets)
  end.

End Loops.

Definition isUndefinedW (w : Wire) : bool :=
  match w with WUndefined => true | _ => false end.

Section Deserialize.
Context (env : Env).

(** The branches of [deserializeProperty] for a string. *)
Definition deserializeString (prop : string) (keepUnknowns : option bool) : Value :=
  if String.eqb prop unknownValue
  then (if isDryRun env tt || truthy_opt keepUnknowns then VUnknown else VUndefined)
  else VStr prop.

(** The parts of the URN of a resource reference. *)
Record UrnParts : Type := {
  urnName : option string;
  type : string;
  pkgName : string;
  modName : string;
  typName : string
}.

Definition parseUrn (urn : string) : Outcome UrnParts :=
  let urnParts := split_dcolon urn in
  match at_index urnParts 2 with
  | None => Throw (TypeError "Cannot read properties of undefined (reading 'split')")
  | Some qualifiedType =>
      let type := default EmptyString (pop (split_char "$" qualifiedType)) in
      let typeParts := split_char ":" type in
      Ret {| urnName := at_index urnParts 3;
             type := type;
             pkgName := default EmptyString (at_index typeParts 0);
             modName := if (1 <? length typeParts)%nat
                        then default EmptyString (at_index typeParts 1) else EmptyString;
             typName := if (2 <? length typeParts)%nat
                        then default EmptyString (at_index typeParts 2) else EmptyString |}
  end.

(** The registry lookup of the resource-reference branch: the constructed
    resource, or [None] when no constructor is registered. *)
Definition constructReference (urn : string) (version : Wire) : Outcome (option Value) :=
  let* parts := parseUrn urn in
  let* version := versionArgument version in
  let isProvider := String.eqb (pkgName parts) "pulumi" && String.eqb (modName parts) "providers" in
  if isProvider then
    let* resourcePackage := getResourcePackage env (typName parts) version in
    match resourcePackage with
    | Some resourcePackage =>
        let* r := constructProvider resourcePackage (urnName parts) (type parts) urn in
        Ret (Some (VResource r))
    | None => Ret None
    end
  else
    let* resourceModule := getResourceModule env (pkgName parts) (modName parts) version in
    match resourceModule with
    | Some resourceModule =>
        let* r := construct resourceModule (urnName parts) (type parts) urn in
        Ret (Some (VResource r))
    | None => Ret None
    end.

Fixpoint deserializeProperty (prop : Wire) (keepUnknowns : option bool) {struct prop}
  : Outcome Value :=
  match prop with
  | WUndefined => Throw UnexpectedUndefined
  | WStr s => Ret (deserializeString s keepUnknowns)
  | WNull => Ret VNull
  | WBool b => Ret (VBool b)
  | WNum n => Ret (VNum n)
  | WArr prop =>
      let* r := arrayLoop (fun e => deserializeProperty e keepUnknowns) prop false [] in
      let '(hadSecret, elems) := r in
      if hadSecret then Ret (secretEnvelope (VArr elems)) else Ret (VArr elems)
  | WObj prop =>
      let sig := getW specialSigKey prop in
      if truthyW sig then
        match sig with
        | WStr s =>
            if String.eqb s specialAssetSig then
              if truthyW (getW "path" prop)
              then Ret (VAsset FileAsset (ofWire (getW "path" prop)))
              else if truthyW (getW "text" prop)
              then Ret (VAsset StringAsset (ofWire (getW "text" prop)))
              else if truthyW (getW "uri" prop)
              then Ret (VAsset RemoteAsset (ofWire (getW "uri" prop)))
              else Throw InvalidAsset
            else if String.eqb s specialArchiveSig then
              if truthyW (getW "assets" prop) then
                withProp
                  (fun assets =>
                     let* members :=
                       match assets with
                       | WObj entries =>
                           assetsLoop (fun a => deserializeProperty a keepUnknowns) entries []
                       | WArr entries =>
                           assetsLoopArray (fun a => deserializeProperty a keepUnknowns)
                             0 entries []
                       | WStr _ => Throw ArchiveMemberNotAsset
                       | _ => Ret []
                       end in
                     Ret (VArchive AssetArchive (VObj members)))
                  "assets" (Throw UnexpectedUndefined) prop
              else if truthyW (getW "path" prop)
              then Ret (VArchive FileArchive (ofWire (getW "path" prop)))
              else if truthyW (getW "uri" prop)
              then Ret (VArchive RemoteArchive (ofWire (getW "uri" prop)))
              else Throw InvalidArchive
            else if String.eqb s specialSecretSig then
              let* value :=
                withProp (fun v => deserializeProperty v keepUnknowns)
                  "value" (Throw UnexpectedUndefined) prop in
              Ret (secretEnvelope value)
            else if String.eqb s specialResourceSig then
              match getW "urn" prop with
              | WStr urn =>
                  let* constructed := constructReference urn (getW "packageVersion" prop) in
                  match constructed with
                  | Some resource => Ret resource
                  | None =>
                      if truthyW (getW "id" prop) then
                        withProp
                          (fun id =>
                             match id with
                             | WStr EmptyString => Ret (deserializeString unknownValue keepUnknowns)
                             | _ => deserializeProperty id keepUnknowns
                             end)
                          "id" (Throw UnexpectedUndefined) prop
                      else Ret (VStr urn)
                  end
              | _ => Throw (TypeError "urn.split is not a function")
              end
            else if String.eqb s specialOutputValueSig then
              let isKnown := negb (isUndefinedW (getW "value" prop)) in
              let* value :=
                if isKnown
                then withProp (fun v => deserializeProperty v keepUnknowns)
                       "value" (Ret VUndefined) prop
                else Ret VUndefined in
              let isSecret :=
                match getW "secret" prop with WBool true => true | _ => false end in
              let resources :=
                match getW "dependencies" prop with
                | WArr dependencies => map (newDependencyResource env) dependencies
                | _ => []
                end in
              Ret (VOutput (Fulfilled resources) (Fulfilled value)
                     (Fulfilled isKnown) (Fulfilled (VBool isSecret)))
            else Throw (UnrecognizedSignature sig)
        | _ => Throw (UnrecognizedSignature sig)
        end
      else
        let* r := objectLoop (fun v => deserializeProperty v keepUnknowns) prop false [] in
        let '(hadSecrets, obj) := r in
        if hadSecrets then Ret (secretEnvelope (VObj obj)) else Ret (VObj obj)
  end.

(** The loop of [deserializeProperties] over [Object.keys(outputs)]. *)
Fixpoint deserializePropertiesLoop (outputs : list (string * Wire))
    (keepUnknowns : option bool) (props : list (string * Value))
  : Outcome (list (string * Value)) :=
  match outputs with
  | [] => Ret props
  | (k, v) :: rest =>
      if negb (isUndefinedW v) then
        let* d := deserializeProperty v keepUnknowns in
        deserializePropertiesLoop rest keepUnknowns (setProp k d props)
      else deserializePropertiesLoop rest keepUnknowns props
  end.

Definition deserializeProperties (outputs : list (string * Wire))
    (keepUnknowns : option bool) : Outcome (list (string * Value)) :=
  deserializePropertiesLoop outputs keepUnknowns [].

End Deserialize.

(** ** Property transfer *)

(** The four promises of the [Output] that [transferProperties] installs. *)
Record OutputCell : Type := {
  valuePromise : PromiseState Value;
  isKnownPromise : PromiseState bool;
  isSecretPromise : PromiseState Value;
  depsPromise : PromiseState (list Resource)
}.

(** An own property of the target resource: one it had already, or an
    [Output] installed by [transferProperties]. *)
Inductive TargetProperty : Type :=
| Initialized (v : Value)
| Transferred (cell : OutputCell).

(** A resolver [(v, isKnown, isSecret, deps?, err?) => void] acting on a
    state [S]. *)
Definition Resolver (S : Type) : Type :=
  Value -> bool -> Value -> option (list Resource) -> option Error -> S -> Outcome S.

(** Calling the [resolve] or the [reject] function of a promise: only the
    first call settles it. *)
Definition settle {A} (outcome : PromiseState A) (p : PromiseState A) : PromiseState A :=
  match p with
  | Pending => outcome
  | _ => p
  end.

Definition pendingCell : OutputCell :=
  {| valuePromise := Pending; isKnownPromise := Pending;
     isSecretPromise := Pending; depsPromise := Pending |}.

Definition onCell (f : OutputCell -> OutputCell) (p : TargetProperty) : TargetProperty :=
  match p with
  | Transferred cell => Transferred (f cell)
  | Initialized v => Initialized v
  end.

Definition rejectAll (err : Error) (cell : OutputCell) : OutputCell :=
  {| valuePromise := settle (Rejected err) (valuePromise cell);
     isKnownPromise := settle (Rejected err) (isKnownPromise cell);
     isSecretPromise := settle (Rejected err) (isSecretPromise cell);
     depsPromise := settle (Rejected err) (depsPromise cell) |}.

Definition resolveAll (v : Value) (isKnown : bool) (isSecret : Value)
    (deps : list Resource) (cell : OutputCell) : OutputCell :=
  {| valuePromise := settle (Fulfilled v) (valuePromise cell);
     isKnownPromise := settle (Fulfilled isKnown) (isKnownPromise cell);
     isSecretPromise := settle (Fulfilled isSecret) (isSecretPromise cell);
     depsPromise := settle (Fulfilled deps) (depsPromise cell) |}.

Section Transfer.
Context (env : Env).

(** The closure stored in [resolvers[k]]. *)
Definition resolverOf (k : string) : Resolver (gmap string TargetProperty) :=
  fun v isKnown isSecret deps err onto =>
    let deps := default [] deps in
    match err with
    | Some err =>
        if isGrpcError env err then Ret onto
        else Ret (alter (onCell (rejectAll err)) k onto)
    | None => Ret (alter (onCell (resolveAll v isKnown isSecret deps)) k onto)
    end.

(** The loop of [transferProperties] over [Object.keys(props)]: the
    resolvers, or the exception, and the target afterwards.  The label
    [propString] only names the promises for debugging and is left out. *)
Fixpoint transferLoop (label : string) (props : list (string * Value))
    (resolvers : list (string * Resolver (gmap string TargetProperty)))
    (onto : gmap string TargetProperty)
  : Outcome (list (string * Resolver (gmap string TargetProperty)))
    * gmap string TargetProperty :=
  match props with
  | [] => (Ret resolvers, onto)
  | (k, _) :: rest =>
      if String.eqb k "id" || String.eqb k "urn" then transferLoop label rest resolvers onto
      else if bool_decide (is_Some (onto !! k))
      then (Throw (PropertyAlreadyInitialized k label), onto)
      else transferLoop label rest (setProp k (resolverOf k) resolvers)
             (<[k := Transferred pendingCell]> onto)
  end.

Definition transferProperties (onto : gmap string TargetProperty) (label : string)
    (props : list (string * Value))
  : Outcome (list (string * Resolver (gmap string TargetProperty)))
    * gmap string TargetProperty :=
  transferLoop label props [] onto.

Section Resolve.
Context {S : Type}.

Fixpoint getResolver (k : string) (resolvers : list (string * Resolver S))
  : option (Resolver S) :=
  match resolvers with
  | [] => None
  | (k', r) :: rest => if String.eqb k k' then Some r else getResolver k rest
  end.

Fixpoint getDeps (k : string) (deps : list (string * list Resource))
  : option (list Resource) :=
  match deps with
  | [] => None
  | (k', d) :: rest => if String.eqb k k' then Some d else getDeps k rest
  end.

(** The loop that rejects everything. *)
Fixpoint rejectLoop (resolvers : list (string * Resolver S)) (err : Error) (st : S)
  : Outcome S :=
  match resolvers with
  | [] => Ret st
  | (k, resolve) :: rest =>
      let* st := resolve VUndefined true (VBool false) (Some []) (Some err) st in
      rejectLoop rest err st
  end.

(** The loop over [Object.keys(allProps)]. *)
Fixpoint presentLoop (resolvers : list (string * Resolver S)) (t name : string)
    (allProps keys : list (string * Value)) (deps : list (string * list Resource))
    (st : S) : Outcome S :=
  match keys with
  | [] => Ret st
  | (k, _) :: rest =>
      if String.eqb k "id" || String.eqb k "urn"
      then presentLoop resolvers t name allProps rest deps st
      else
        match getResolver k resolvers with
        | None => presentLoop resolvers t name allProps rest deps st
        | Some resolve =>
            let value := getV k allProps in
            let isSecret := isRpcSecret value in
            let value := unwrapRpcSecret value in
            match resolve value true isSecret (getDeps k deps) None st with
            | Ret st => presentLoop resolvers t name allProps rest deps st
            | Throw resolveError => Throw (UnableToSetProperty k name t resolveError)
            | Never => Never
            | OutOfFuel => OutOfFuel
            end
        end
  end.

(** The loop over the resolvers that [allProps] has no value for.  Its
    first test reads [!isDryRun && keepUnknowns]: the function [isDryRun]
    itself, not a call of it. *)
Fixpoint absentLoop (resolvers : list (string * Resolver S))
    (allProps : list (string * Value)) (keepUnknowns : option bool) (st : S)
  : Outcome S :=
  match resolvers with
  | [] => Ret st
  | (k, resolve) :: rest =>
      if negb (hasOwnProperty k allProps) then
        let* st :=
          if negb (truthy_fn (isDryRun env)) && truthy_opt keepUnknowns
          then resolve VUnknown true (VBool false) None None st
          else resolve VUndefined
                 (negb (isDryRun env tt) && negb (truthy_opt keepUnknowns))
                 (VBool false) None None st in
        absentLoop rest allProps keepUnknowns st
      else absentLoop rest allProps keepUnknowns st
  end.

Definition resolveProperties (resolvers : list (string * Resolver S))
    (t name : string) (allProps : list (string * Value))
    (deps : list (string * list Resource)) (err : option Error)
    (keepUnknowns : option bool) (st : S) : Outcome S :=
  match err with
  | Some err => rejectLoop resolvers err st
  | None =>
      let* st := presentLoop resolvers t name allProps allProps deps st in
      absentLoop resolvers allProps keepUnknowns st
  end.

End Resolve.
End Transfer.

(** ** The forward marshaler *)

Record SerializationOptions : Type := {
  keepOutputValues : option bool;
  excludeResourceReferencesFromDependencies : option bool
}.

(** [opts?.keepOutputValues] and
    [opts?.excludeResourceReferencesFromDependencies] as conditions. *)
Definition optKeepOutputValues (opts : option SerializationOptions) : bool :=
  match opts with Some o => truthy_opt (keepOutputValues o) | None => false end.

Definition optExcludeResourceReferences (opts : option SerializationOptions) : bool :=
  match opts with
  | Some o => truthy_opt (excludeResourceReferencesFromDependencies o)
  | None => false
  end.

(** The literal [{ keepOutputValues: false }]. *)
Definition dontKeepOutputValues : option SerializationOptions :=
  Some {| keepOutputValues := Some false;
          excludeResourceReferencesFromDependencies := None |}.

(** A [Set<Resource>] in insertion order. *)
Definition setAdd (r : Resource) (s : list Resource) : list Resource :=
  if bool_decide (r ∈ s) then s else s ++ [r].

Definition setAddAll (rs : list Resource) (s : list Resource) : list Resource :=
  fold_left (fun s r => setAdd r s) rs s.

(** [if (dependentResources) { dependentResources.add(r) }] for each [r]. *)
Definition trackAll (rs : list Resource) (dependentResources : option (list Resource))
  : option (list Resource) :=
  option_map (setAddAll rs) dependentResources.

Definition serializeSecretValue (value : Wire) : Wire :=
  WObj [(specialSigKey, WStr specialSecretSig);
        ("value", if isUndefinedW value then WNull else value)].

(** Modelled from the spec: the fields of an asset or archive, whose classes
    live in [../asset]: one of [path], [text], [uri], or the named
    sub-assets [assets]. *)
Definition assetFields (prop : Value) : list (string * Value) :=
  match prop with
  | VAsset FileAsset field => [("path", field)]
  | VAsset StringAsset field => [("text", field)]
  | VAsset RemoteAsset field => [("uri", field)]
  | VArchive AssetArchive field => [("assets", field)]
  | VArchive FileArchive field => [("path", field)]
  | VArchive RemoteArchive field => [("uri", field)]
  | _ => []
  end.

(** The result of a call of [serializeProperty], or the way it does not
    return, with the caller's [dependentResources] afterwards. *)
Definition Serialized (A : Type) : Type := (Outcome A * option (list Resource))%type.

Definition andThen {A B} (o : Outcome A) (dependentResources : option (list Resource))
    (k : A -> Serialized B) : Serialized B :=
  match o with
  | Ret a => k a
  | Throw e => (Throw e, dependentResources)
  | Never => (Never, dependentResources)
  | OutOfFuel => (OutOfFuel, dependentResources)
  end.

Section Serialize.
Context (env : Env).

Section Body.
(** The recursive calls. *)
Context (serializeProperty :
  Value -> option (list Resource) -> option SerializationOptions -> Serialized Wire).

Fixpoint serializeAllKeys (innerProp : list (string * Value)) (obj : list (string * Wire))
    (dependentResources : option (list Resource))
    (innerOpts : option SerializationOptions) : Serialized Wire :=
  match innerProp with
  | [] => (Ret (WObj obj), dependentResources)
  | (k, p) :: rest =>
      let '(o, dependentResources) := serializeProperty p dependentResources innerOpts in
      andThen o dependentResources (fun v =>
        serializeAllKeys rest (if isUndefinedW v then obj else setProp k v obj)
          dependentResources innerOpts)
  end.

Fixpoint serializeElements (prop : list Value) (result : list Wire)
    (dependentResources : option (list Resource))
    (opts : option SerializationOptions) : Serialized Wire :=
  match prop with
  | [] => (Ret (WArr result), dependentResources)
  | p :: rest =>
      let '(o, dependentResources) := serializeProperty p dependentResources opts in
      andThen o dependentResources (fun elem =>
        serializeElements rest (result ++ [if isUndefinedW elem then WNull else elem])
          dependentResources opts)
  end.

(** The loop that serializes [resource.urn] for every contributing
    resource into [urnDeps]. *)
Fixpoint serializeUrns (propResources : list Resource) (urnDeps : option (list Resource))
  : Serialized unit :=
  match propResources with
  | [] => (Ret tt, urnDeps)
  | resource :: rest =>
      let '(o, urnDeps) :=
        serializeProperty (urn (resourceObject env resource)) urnDeps dontKeepOutputValues in
      andThen o urnDeps (fun _ => serializeUrns rest urnDeps)
  end.

Definition serializeOutput (resources : PromiseState (list Resource))
    (promise : PromiseState Value) (isKnown : PromiseState bool)
    (isSecret : PromiseState Value)
    (dependentResources : option (list Resource))
    (opts : option SerializationOptions) : Serialized Wire :=
  andThen (await resources) dependentResources (fun propResources =>
  let dependentResources := trackAll propResources dependentResources in
  andThen (await isKnown) dependentResources (fun isKnown =>
  andThen (await isSecret) dependentResources (fun isSecret =>
  let isSecret := match isSecret with VBool true => true | _ => false end in
  let '(o, promiseDeps) := serializeProperty (VPromise promise) (Some []) dontKeepOutputValues in
  andThen o dependentResources (fun value =>
  let promiseDeps := default [] promiseDeps in
  let propResources := setAddAll promiseDeps propResources in
  let dependentResources := trackAll promiseDeps dependentResources in
  if optKeepOutputValues opts && supportsOutputValues (getStore env tt) then
    let '(o, urnDeps) := serializeUrns propResources (Some []) in
    andThen o dependentResources (fun _ =>
    let urnDeps := default [] urnDeps in
    let propResources := setAddAll urnDeps propResources in
    let dependentResources := trackAll urnDeps dependentResources in
    andThen (await (getAllTransitivelyReferencedResourceURNs env propResources))
      dependentResources (fun dependencies =>
    let obj := [(specialSigKey, WStr specialOutputValueSig)] in
    let obj :=
      if isKnown then setProp "value" (if isUndefinedW value then WNull else value) obj
      else obj in
    let obj := if isSecret then setProp "secret" (WBool isSecret) obj else obj in
    let obj :=
      if (0 <? length dependencies)%nat
      then setProp "dependencies" (WArr (map WStr dependencies)) obj
      else obj in
    (Ret (WObj obj), dependentResources)))
  else if negb isKnown then (Ret (WStr unknownValue), dependentResources)
  else if isSecret && supportsSecrets (getStore env tt)
  then (Ret (serializeSecretValue value), dependentResources)
  else (Ret value, dependentResources))))).

Definition serializeCustomResource (prop : Resource)
    (dependentResources : option (list Resource))
    (opts : option SerializationOptions) : Serialized Wire :=
  let exclude :=
    optExcludeResourceReferences opts && supportsResourceReferences (getStore env tt) in
  (* the caller's set, given the local variable [dependentResources] *)
  let caller (local : option (list Resource)) :=
    if exclude then dependentResources else local in
  let local := if exclude then None else trackAll [prop] dependentResources in
  let '(o, local) :=
    serializeProperty (id (resourceObject env prop)) local dontKeepOutputValues in
  andThen o (caller local) (fun id =>
  if supportsResourceReferences (getStore env tt) then
    let '(o, local) :=
      serializeProperty (urn (resourceObject env prop)) local dontKeepOutputValues in
    andThen o (caller local) (fun urn =>
    (Ret (WObj [(specialSigKey, WStr specialResourceSig); ("urn", urn); ("id", id)]),
     caller local))
  else (Ret id, caller local)).

Definition serializeComponentResource (prop : Resource)
    (dependentResources : option (list Resource))
    (opts : option SerializationOptions) : Serialized Wire :=
  if supportsResourceReferences (getStore env tt) then
    let exclude := optExcludeResourceReferences opts in
    let caller (local : option (list Resource)) :=
      if exclude then dependentResources else local in
    let local := if exclude then None else dependentResources in
    let '(o, local) :=
      serializeProperty (urn (resourceObject env prop)) local dontKeepOutputValues in
    andThen o (caller local) (fun urn =>
    (Ret (WObj [(specialSigKey, WStr specialResourceSig); ("urn", urn)]), caller local))
  else
    serializeProperty (urn (resourceObject env prop)) dependentResources dontKeepOutputValues.

(** One call of [serializeProperty]; the context label [ctx] only feeds the
    debug log and is left out. *)
Definition serializeBody (prop : Value) (dependentResources : option (list Resource))
    (opts : option SerializationOptions) : Serialized Wire :=
  match prop with
  | VUndefined => (Ret WUndefined, dependentResources)
  | VNull => (Ret WNull, dependentResources)
  | VBool b => (Ret (WBool b), dependentResources)
  | VNum n => (Ret (WNum n), dependentResources)
  | VStr s => (Ret (WStr s), dependentResources)
  | VAsset _ _ =>
      serializeAllKeys (assetFields prop) [(specialSigKey, WStr specialAssetSig)]
        dependentResources dontKeepOutputValues
  | VArchive _ _ =>
      serializeAllKeys (assetFields prop) [(specialSigKey, WStr specialArchiveSig)]
        dependentResources dontKeepOutputValues
  | VPromise p =>
      andThen (await p) dependentResources (fun v =>
        serializeProperty v dependentResources opts)
  | VOutput resources promise isKnown isSecret =>
      serializeOutput resources promise isKnown isSecret dependentResources opts
  | VUnknown => (Ret (WStr unknownValue), dependentResources)
  | VResource r =>
      match kind (resourceObject env r) with
      | CustomResource => serializeCustomResource r dependentResources opts
      | ComponentResource => serializeComponentResource r dependentResources opts
      end
  | VArr elems => serializeElements elems [] dependentResources opts
  | VObj props => serializeAllKeys props [] dependentResources opts
  end.

End Body.

(** [serializeProperty], with a bound [fuel] on the depth of its calls. *)
Fixpoint serializeProperty (fuel : nat) (prop : Value)
    (dependentResources : option (list Resource))
    (opts : option SerializationOptions) : Serialized Wire :=
  match fuel with
  | O => (OutOfFuel, dependentResources)
  | S fuel => serializeBody (serializeProperty fuel) prop dependentResources opts
  end.

End Serialize.

(** ** Unknown and secret values in serialized properties

    [containsUnknownValues] and [unwrapSecretValues] walk serialized
    values, so they are embedded on [Wire].  Two functions of [rpc.ts] have no
    embedding: [safeToString], which builds the debug label of a promise and
    raises only for a value without string conversion, and
    [suppressUnhandledGrpcRejections], which acts on the runtime's record of
    unhandled rejections and returns its argument. *)

(** [isRpcSecret] and [unwrapRpcSecret] applied to a wire value. *)
Definition isRpcSecretW (obj : Wire) : Wire :=
  if truthyW obj then
    match obj with
    | WObj props =>
        match getW specialSigKey props with
        | WStr s => WBool (String.eqb s specialSecretSig)
        | _ => WBool false
        end
    | _ => WBool false
    end
  else obj.

Definition unwrapRpcSecretW (obj : Wire) : Wire :=
  if negb (truthyW (isRpcSecretW obj)) then obj
  else match obj with
       | WObj props => getW "value" props
       | _ => WUndefined
       end.

Definition isPrimitive (value : Wire) : bool :=
  match value with
  | WNull | WUndefined | WBool _ | WNum _ | WStr _ => true
  | WArr _ | WObj _ => false
  end.

Fixpoint containsUnknownValues (value : Wire) : bool :=
  if match value with WStr s => String.eqb s unknownValue | _ => false end then true
  else if isPrimitive value then false
  else match value with
       | WArr elems => existsb containsUnknownValues elems
       | WObj map => existsb (fun kv => containsUnknownValues (snd kv)) map
       | _ => false
       end.

Section UnwrapLoops.
Context (unwrapSecretValues : Wire -> Wire * bool).

(** The loop of [unwrapSecretValues] over the elements of an array. *)
Fixpoint unwrapElements (value : list Wire) (hadSecret : bool) (result : list Wire)
  : Wire * bool :=
  match value with
  | [] => (WArr result, hadSecret)
  | elem :: rest =>
      let '(unwrapped, isSecret) := unwrapSecretValues elem in
      unwrapElements rest (hadSecret || isSecret) (result ++ [unwrapped])
  end.

(** The loop of [unwrapSecretValues] over [Object.keys(map)]. *)
Fixpoint unwrapEntries (map : list (string * Wire)) (hadSecret : bool)
    (result : list (string * Wire)) : Wire * bool :=
  match map with
  | [] => (WObj result, hadSecret)
  | (key, v) :: rest =>
      let '(unwrapped, isSecret) := unwrapSecretValues v in
      unwrapEntries rest (hadSecret || isSecret) (setProp key unwrapped result)
  end.

End UnwrapLoops.

Fixpoint unwrapSecretValues (value : Wire) : Wire * bool :=
  if isPrimitive value then (value, false)
  else if truthyW (isRpcSecretW value) then (unwrapRpcSecretW value, true)
  else match value with
       | WArr elems => unwrapElements unwrapSecretValues elems false []
       | WObj map => unwrapEntries unwrapSecretValues map false []
       | _ => (value, false)
       end.

(** ** Serializing all properties of an object

    The label of [serializeFilteredProperties] only feeds the debug context
    of [serializeProperty] and is not used; the map from a property to its
    dependencies is the association list of its entries in insertion order. *)

Section SerializeProperties.
Context (env : Env) (fuel : nat).

(** The loop of [serializeFilteredProperties] over [Object.keys(props)];
    every accepted property is serialized into a set of its own. *)
Fixpoint serializeFilteredLoop (props : list (string * Value)) (acceptKey : string -> bool)
    (opts : option SerializationOptions) (result : list (string * Wire))
    (propertyToDependentResources : list (string * list Resource))
  : Outcome (list (string * Wire) * list (string * list Resource)) :=
  match props with
  | [] => Ret (result, propertyToDependentResources)
  | (k, p) :: rest =>
      if acceptKey k then
        let '(o, dependentResources) := serializeProperty env fuel p (Some []) opts in
        let* v := o in
        if negb (isUndefinedW v)
        then serializeFilteredLoop rest acceptKey opts (setProp k v result)
               (setProp k (default [] dependentResources) propertyToDependentResources)
        else serializeFilteredLoop rest acceptKey opts result propertyToDependentResources
      else serializeFilteredLoop rest acceptKey opts result propertyToDependentResources
  end.

Definition serializeFilteredProperties (label : string) (props : list (string * Value))
    (acceptKey : string -> bool) (opts : option SerializationOptions)
  : Outcome (list (string * Wire) * list (string * list Resource)) :=
  serializeFilteredLoop props acceptKey opts [] [].

Definition serializeResourceProperties (label : string) (props : list (string * Value))
    (opts : option SerializationOptions)
  : Outcome (list (string * Wire) * list (string * list Resource)) :=
  serializeFilteredProperties label props
    (fun key => negb (String.eqb key "id") && negb (String.eqb key "urn")) opts.

Definition serializeProperties (label : string) (props : list (string * Value))
    (opts : option SerializationOptions) : Outcome (list (string * Wire)) :=
  let* r := serializeFilteredProperties label props (fun _ => true) opts in
  Ret (fst r).

Definition serializePropertiesReturnDeps (label : string) (props : list (string * Value))
    (opts : option SerializationOptions)
  : Outcome (list (string * Wire) * list (string * list Resource)) :=
  serializeFilteredProperties label props (fun _ => true) opts.

End SerializeProperties.

(** ** Clearing the registries *)

(** [_resetResourcePackages] and [_resetResourceModules]: the table
    afterwards. *)
Definition _resetResourcePackages (resourcePackages : gmap string (list ResourcePackage))
  : gmap string (list ResourcePackage) := ∅.

Definition _resetResourceModules (resourceModules : gmap string (list ResourceModule))
  : gmap string (list ResourceModule) := ∅.

(** ** The generated module [helm/v3/index.ts]

    [utilities.getVersion()] and the constructor of [Release] live in other
    files and are parameters. *)
Section Helm.
Context (getVersion : string) (newRelease : option string -> string -> Outcome Resource).

Definition _module : ResourceModule := {|
  module_version := Some getVersion;
  construct := fun name type urn =>
    if String.eqb type "kubernetes:helm.sh/v3:Release" then newRelease name urn
    else Throw (ExternalError ("unknown resource type " ++ type))
|}.

(** The registration that loading the file performs. *)
Definition loadHelmModule (resourceModules : gmap string (list ResourceModule))
  : Outcome (gmap string (list ResourceModule)) :=
  registerResourceModule resourceModules "kubernetes" "helm.sh/v3" _module.

End Helm.


(** ** Vocabulary of the statements *)

(** A comparison that orders its type totally, up to the elements it
    makes equal. *)
Record Orderly {A} (c : A -> A -> comparison) : Prop := {
  orderly_opp : forall a b, c b a = CompOpp (c a b);
  orderly_eq : forall a b, c a b = Eq -> forall x, c a x = c b x;
  orderly_lt : forall a b d, c a b = Lt -> c b d = Lt -> c a d = Lt
}.

(** A version that is absent or that [semver] accepts. *)
Definition wellFormedVersion (v : option string) : Prop :=
  match v with
  | Some s => is_Some (semver.parse s)
  | None => True
  end.

(** Two versions are equal when either is absent or when [semver] gives
    them the same precedence. *)
Definition equalVersion (a b : option string) : Prop :=
  match a, b with
  | Some a, Some b =>
      exists va vb, semver.parse a = Some va /\ semver.parse b = Some vb
                    /\ semver.compare va vb = Eq
  | _, _ => True
  end.

(** The parsed version of a registered entry. *)
Definition entryVersion {T} `{Versioned T} (e : T) : option semver.SemVer :=
  match version e with
  | Some s => semver.parse s
  | None => None
  end.

(** The version a lookup asks for: an empty string asks for none. *)
Definition requestedVersion (wanted : option string) : option semver.SemVer :=
  match wanted with
  | Some v => if string_truthy v then semver.parse v else None
  | None => None
  end.

(** The entries under [key] whose version is compatible with the requested
    one, in registration order. *)
Definition keptEntries {T} `{Versioned T} (source : gmap string (list T))
    (key : string) (wanted : option string) : list T :=
  List.filter (fun e => checkVersion (requestedVersion wanted) (entryVersion e))
    (default [] (source !! key)).

(** The lookup as the specification words it: the greatest version wins, an
    entry without version ranks below any entry with one, and the first of
    equals wins. *)
Definition outranks (a b : option semver.SemVer) : bool :=
  match a, b with
  | Some x, Some y => semver.gt x y
  | Some _, None => true
  | None, _ => false
  end.

Definition betterEntry {T} `{Versioned T} (best : option T) (e : T) : option T :=
  match best with
  | None => Some e
  | Some b => if outranks (entryVersion e) (entryVersion b) then Some e else Some b
  end.

Definition greatestEntry {T} `{Versioned T} (kept : list T) : option T :=
  fold_left betterEntry kept None.

Definition lookupAsSpecified {T} `{Versioned T} (source : gmap string (list T))
    (key : string) (wanted : option string) : option T :=
  greatestEntry (keptEntries source key wanted).

(** [best], at position [i] of [kept] and of version [vbest], is the first
    entry of greatest version among the entries of [kept] that have one. *)
Definition firstGreatest {T} `{Versioned T} (kept : list T) (i : nat)
    (vbest : semver.SemVer) : Prop :=
  forall j e ve, kept !! j = Some e -> entryVersion e = Some ve ->
    semver.gt ve vbest = false /\ (j < i -> semver.gt vbest ve = true).

(** What a lookup returns from the kept entries: none when none is kept;
    the first kept entry when it has no version; otherwise the first entry of
    greatest version among the kept entries that have one. *)
Definition selectsFirstGreatest {T} `{Versioned T} (kept : list T) (r : option T) : Prop :=
  match kept with
  | [] => r = None
  | first :: _ =>
      match entryVersion first with
      | None => r = Some first
      | Some _ =>
          exists best vbest i,
            r = Some best /\ kept !! i = Some best /\ entryVersion best = Some vbest
            /\ firstGreatest kept i vbest
      end
  end.

(** The first kept entry has a version, or no kept entry has one. *)
Definition versionedFirst {T} `{Versioned T} (kept : list T) : Prop :=
  match kept with
  | [] => True
  | first :: rest =>
      is_Some (entryVersion first) \/ Forall (fun e => entryVersion e = None) rest
  end.

(** The entries all have a version, or there is at most one: what [register]
    keeps true of the entries under every key. *)
Definition uniformlyVersioned {T} `{Versioned T} (items : list T) : Prop :=
  Forall (fun e => is_Some (version e)) items \/ length items <= 1.

(** A requested version that is absent, empty, or that [semver] accepts. *)
Definition wellFormedRequest (wanted : option string) : Prop :=
  match wanted with
  | Some v => string_truthy v = true -> is_Some (semver.parse v)
  | None => True
  end.

(** A registered entry for the examples. *)
Record Entry : Type := { entry_version : option string; entry_name : string }.
#[global] Instance Entry_versioned : Versioned Entry := entry_version.

(** Environments for the examples: no registered constructor; behind every
    handle a custom resource, except handle 2, a component whose properties
    refer to the component itself and to a child. *)
Definition ownOutput (r : Resource) (s : string) : Value :=
  VOutput (Fulfilled [r]) (Fulfilled (VStr s)) (Fulfilled true) (Fulfilled (VBool false)).

Definition exampleEnvWith (flags : Store) (dryRun : bool) : Env := {|
  isDryRun := fun _ => dryRun;
  isGrpcError := fun err => match err with ExternalError "grpc" => true | _ => false end;
  getStore := fun _ => flags;
  getResourcePackages := ∅;
  getResourceModules := ∅;
  resourceObject := fun r =>
    if Pos.eqb r 2
    then {| kind := ComponentResource;
            urn := ownOutput r "urn:C";
            id := VUndefined;
            properties := [("self", VResource 2%positive); ("child", VResource 3%positive)] |}
    else {| kind := CustomResource;
            urn := ownOutput r "urn:R";
            id := ownOutput r "id";
            properties := [("parent", VResource 2%positive)] |};
  newDependencyResource := fun _ => 1%positive;
  getAllTransitivelyReferencedResourceURNs := fun rs =>
    Fulfilled (map (fun r => if Pos.eqb r 2 then "urn:C" else "urn:R") rs)
|}.

Definition exampleEnv (dryRun : bool) : Env :=
  exampleEnvWith {| supportsSecrets := true;
                    supportsResourceReferences := true;
                    supportsOutputValues := true |} dryRun.

(** One call of a resolver, as a resolver that only records sees it. *)
Record Call : Type := {
  call_key : string;
  call_value : Value;
  call_isKnown : bool;
  call_isSecret : Value;
  call_deps : option (list Resource);
  call_err : option Error
}.

Definition recorder (k : string) : Resolver (list Call) :=
  fun v isKnown isSecret deps err log =>
    Ret (log ++ [{| call_key := k; call_value := v; call_isKnown := isKnown;
                    call_isSecret := isSecret; call_deps := deps; call_err := err |}]).

Definition recorders (keys : list string) : list (string * Resolver (list Call)) :=
  map (fun k => (k, recorder k)) keys.

(** The call a resolver without a value in [allProps] receives. *)
Definition absentCall (env : Env) (keepUnknowns : option bool) (k : string) : Call :=
  {| call_key := k; call_value := VUndefined;
     call_isKnown := negb (isDryRun env tt) && negb (truthy_opt keepUnknowns);
     call_isSecret := VBool false; call_deps := None; call_err := None |}.

(** The resource-reference envelope of the wire. *)
Definition resourceReference (urn : string) (rest : list (string * Wire)) : Wire :=
  WObj ((specialSigKey, WStr specialResourceSig) :: ("urn", WStr urn) :: rest).

(** Induction on wire values, through arrays and objects. *)
Section WireInduction.
Context (P : Wire -> Prop).
Context (Hundefined : P WUndefined) (Hnull : P WNull)
  (Hbool : forall b, P (WBool b)) (Hnum : forall n, P (WNum n))
  (Hstr : forall s, P (WStr s))
  (Harr : forall elems, Forall P elems -> P (WArr elems))
  (Hobj : forall props, Forall (fun kv => P (snd kv)) props -> P (WObj props)).

Fixpoint Wire_nested_ind (w : Wire) : P w :=
  match w with
  | WUndefined => Hundefined
  | WNull => Hnull
  | WBool b => Hbool b
  | WNum n => Hnum n
  | WStr s => Hstr s
  | WArr elems =>
      Harr elems
        ((fix go (l : list Wire) : Forall P l :=
            match l with
            | [] => List.Forall_nil P
            | x :: l' => List.Forall_cons P x l' (Wire_nested_ind x) (go l')
            end) elems)
  | WObj props =>
      Hobj props
        ((fix go (l : list (string * Wire)) : Forall (fun kv => P (snd kv)) l :=
            match l with
            | [] => List.Forall_nil _
            | kv :: l' =>
                List.Forall_cons (fun kv => P (snd kv)) kv l'
                  (match kv as p return P (snd p) with (k, v) => Wire_nested_ind v end)
                  (go l')
            end) props)
  end.

End WireInduction.

(** The values directly inside a wire value. *)
Definition children (w : Wire) : list Wire :=
  match w with
  | WArr elems => elems
  | WObj props => map snd props
  | _ => []
  end.

(** A secret envelope. *)
Definition isSecretEnvelope (v : Value) : bool := truthy (isRpcSecret v).

(** A secret envelope occurs in the value, at any depth. *)
Fixpoint hasSecret (v : Value) : bool :=
  match v with
  | VArr elems => existsb hasSecret elems
  | VObj props =>
      isSecretEnvelope (VObj props) || existsb (fun kv => hasSecret (snd kv)) props
  | VAsset _ field => hasSecret field
  | VArchive _ field => hasSecret field
  | VPromise (Fulfilled a) => hasSecret a
  | VOutput _ (Fulfilled a) _ _ => hasSecret a
  | _ => false
  end.

(** Every object of the wire value has pairwise distinct keys. *)
Fixpoint wellFormedW (w : Wire) : bool :=
  match w with
  | WArr elems => forallb wellFormedW elems
  | WObj props =>
      bool_decide (NoDup (map fst props))
      && forallb (fun kv => wellFormedW (snd kv)) props
  | _ => true
  end.

Definition hasSecretSig (props : list (string * Wire)) : bool :=
  match getW specialSigKey props with
  | WStr s => String.eqb s specialSecretSig
  | _ => false
  end.

(** No object of the wire value carries the secret signature. *)
Fixpoint secretFreeW (w : Wire) : bool :=
  match w with
  | WArr elems => forallb secretFreeW elems
  | WObj props =>
      negb (hasSecretSig props) && forallb (fun kv => secretFreeW (snd kv)) props
  | _ => true
  end.

(** Secret envelopes occur in the wire value only as elements of arrays and
    of objects without signature, never inside the payload of an envelope. *)
Fixpoint flatSecretsW (w : Wire) : bool :=
  match w with
  | WArr elems => forallb flatSecretsW elems
  | WObj props =>
      if truthyW (getW specialSigKey props)
      then forallb (fun kv => secretFreeW (snd kv)) props
      else forallb (fun kv => flatSecretsW (snd kv)) props
  | _ => true
  end.

(** The object with the given keys and values. *)
Definition withKeys {A B} (props : list (string * A)) (values : list B)
  : list (string * B) :=
  zip (map fst props) values.

(** The wire form of an [Output] that is serialized without keeping output
    values. *)
Definition collapsedOutput (env : Env) (isKnown isSecret : bool) (value : Wire) : Wire :=
  if negb isKnown then WStr unknownValue
  else if isSecret && supportsSecrets (getStore env tt) then serializeSecretValue value
  else value.

(** The resource-reference envelope of a component. *)
Definition componentReference (urn : Wire) : Wire :=
  WObj [(specialSigKey, WStr specialResourceSig); ("urn", urn)].

(** Induction on values, through arrays and objects. *)
Section ValueInduction.
Context (P : Value -> Prop).
Context (Hother : forall v,
           match v with VArr _ | VObj _ => True | _ => P v end)
  (Harr : forall elems, Forall P elems -> P (VArr elems))
  (Hobj : forall props, Forall (fun kv => P (snd kv)) props -> P (VObj props)).

Fixpoint Value_nested_ind (v : Value) : P v :=
  match v as v0 return P v0 with
  | VArr elems =>
      Harr elems
        ((fix go (l : list Value) : Forall P l :=
            match l with
            | [] => List.Forall_nil P
            | x :: l' => List.Forall_cons P x l' (Value_nested_ind x) (go l')
            end) elems)
  | VObj props =>
      Hobj props
        ((fix go (l : list (string * Value)) : Forall (fun kv => P (snd kv)) l :=
            match l with
            | [] => List.Forall_nil _
            | kv :: l' =>
                List.Forall_cons (fun kv => P (snd kv)) kv l'
                  (match kv as p return P (snd p) with (k, x) => Value_nested_ind x end)
                  (go l')
            end) props)
  | v0 => Hother v0
  end.

End ValueInduction.

(** A value built from primitives, arrays, objects and resources. *)
Fixpoint referenceTree (v : Value) : bool :=
  match v with
  | VUndefined | VNull | VBool _ | VNum _ | VStr _ | VResource _ => true
  | VArr elems => forallb referenceTree elems
  | VObj props => forallb (fun kv => referenceTree (snd kv)) props
  | _ => false
  end.

(** The resources of such a value, in the order of serialization. *)
Fixpoint resourcesOf (v : Value) : list Resource :=
  match v with
  | VResource r => [r]
  | VArr elems => flat_map resourcesOf elems
  | VObj props => flat_map (fun kv => resourcesOf (snd kv)) props
  | _ => []
  end.

(** A bound on the depth of the calls that serialize such a value. *)
Fixpoint callDepth (v : Value) : nat :=
  match v with
  | VResource _ => 4
  | VArr elems => S (fold_right (fun x n => Nat.max (callDepth x) n) 0 elems)
  | VObj props => S (fold_right (fun kv n => Nat.max (callDepth (snd kv)) n) 0 props)
  | _ => 1
  end.

(** A custom resource whose [id] and [urn] are outputs of the resource
    alone, settled to strings. *)
Definition plainCustomResource (env : Env) (r : Resource) : Prop :=
  kind (resourceObject env r) = CustomResource
  /\ (exists s known secret,
        id (resourceObject env r)
        = VOutput (Fulfilled [r]) (Fulfilled (VStr s)) (Fulfilled known) (Fulfilled secret))
  /\ (exists s known secret,
        urn (resourceObject env r)
        = VOutput (Fulfilled [r]) (Fulfilled (VStr s)) (Fulfilled known) (Fulfilled secret)).

(** The dependency set as the specification words it: the resources of the
    value exactly when references are not excluded and the monitor supports
    them, and the empty set otherwise. *)
Definition dependenciesAsSpecified (env : Env) (opts : option SerializationOptions)
    (v : Value) : list Resource :=
  if negb (optExcludeResourceReferences opts)
     && supportsResourceReferences (getStore env tt)
  then resourcesOf v else [].


(** A wire value without secret signature deserializes to a value without
    secret envelope. *)
Definition deserializesPlain (env : Env) (keepUnknowns : option bool) (w : Wire) : Prop :=
  wellFormedW w = true -> secretFreeW w = true ->
  forall v, deserializeProperty env w keepUnknowns = Ret v -> hasSecret v = false.

(** The caller's dependency set [d0] after a value with the resources [rs]
    is serialized. *)
Definition trackedResources (env : Env) (opts : option SerializationOptions)
    (rs d0 : list Resource) : list Resource :=
  if optExcludeResourceReferences opts && supportsResourceReferences (getStore env tt)
  then d0 else setAddAll rs d0.

(** The character does not occur in the string. *)
Fixpoint lacks (c : ascii) (s : string) : bool :=
  match s with
  | EmptyString => true
  | String a rest => negb (Ascii.eqb a c) && lacks c rest
  end.

(** Every colon of the string is followed by a character that is not a
    colon: the string has no [::] and does not end in a colon. *)
Fixpoint singleColons (s : string) : bool :=
  match s with
  | EmptyString => true
  | String c rest =>
      if Ascii.eqb c ":"
      then match rest with
           | EmptyString => false
           | String c2 _ => negb (Ascii.eqb c2 ":") && singleColons rest
           end
      else singleColons rest
  end.

(** A non-empty name without colon and without dollar sign. *)
Definition simpleName (s : string) : bool :=
  string_truthy s && lacks ":" s && lacks "$" s.

(** The URN of a resource of type [pkg:mod:typ]. *)
Definition urnOf (stack proj pkg mod_ typ name : string) : string :=
  stack ++ "::" ++ proj ++ "::" ++ (pkg ++ ":" ++ mod_ ++ ":" ++ typ) ++ "::" ++ name.

(** The environment with another table of resource modules, or of resource
    packages. *)
Definition withResourceModules (env : Env)
    (resourceModules : gmap string (list ResourceModule)) : Env :=
  {| isDryRun := isDryRun env; isGrpcError := isGrpcError env; getStore := getStore env;
     getResourcePackages := getResourcePackages env;
     getResourceModules := resourceModules;
     resourceObject := resourceObject env;
     newDependencyResource := newDependencyResource env;
     getAllTransitivelyReferencedResourceURNs :=
       getAllTransitivelyReferencedResourceURNs env |}.

Definition withResourcePackages (env : Env)
    (resourcePackages : gmap string (list ResourcePackage)) : Env :=
  {| isDryRun := isDryRun env; isGrpcError := isGrpcError env; getStore := getStore env;
     getResourcePackages := resourcePackages;
     getResourceModules := getResourceModules env;
     resourceObject := resourceObject env;
     newDependencyResource := newDependencyResource env;
     getAllTransitivelyReferencedResourceURNs :=
       getAllTransitivelyReferencedResourceURNs env |}.

(** What the resource-reference branch returns when no constructor is
    registered: the deserialized id when it is truthy, the URN otherwise. *)
Definition referenceFallback (env : Env) (urn : string) (rest : list (string * Wire))
    (keepUnknowns : option bool) : Outcome Value :=
  if truthyW (getW "id" rest) then deserializeProperty env (getW "id" rest) keepUnknowns
  else Ret (VStr urn).

(** The result of a registered constructor, or the fallback. *)
Definition constructedOr {A} (found : option A) (make : A -> Outcome Resource)
    (fallback : Outcome Value) : Outcome Value :=
  match found with
  | Some a => let* r := make a in Ret (VResource r)
  | None => fallback
  end.

(** The unknown sentinel occurs in the value, at any depth. *)
Fixpoint hasUnknown (v : Value) : bool :=
  match v with
  | VUnknown => true
  | VArr elems => existsb hasUnknown elems
  | VObj props => existsb (fun kv => hasUnknown (snd kv)) props
  | VAsset _ field => hasUnknown field
  | VArchive _ field => hasUnknown field
  | VPromise (Fulfilled a) => hasUnknown a
  | VOutput _ (Fulfilled a) _ _ => hasUnknown a
  | _ => false
  end.


(** Every object of the wire value has pairwise distinct keys and a
    primitive, or nothing, under the signature key. *)
Fixpoint properEnvelopesW (w : Wire) : bool :=
  match w with
  | WArr elems => forallb properEnvelopesW elems
  | WObj props =>
      bool_decide (NoDup (map fst props))
      && isPrimitive (getW specialSigKey props)
      && forallb (fun kv => properEnvelopesW (snd kv)) props
  | _ => true
  end.

(** No secret envelope of the wire value has a secret envelope in its
    payload. *)
Fixpoint shallowSecretsW (w : Wire) : bool :=
  match w with
  | WArr elems => forallb shallowSecretsW elems
  | WObj props =>
      if hasSecretSig props then secretFreeW (getW "value" props)
      else forallb (fun kv => shallowSecretsW (snd kv)) props
  | _ => true
  end.

(** The names of the members of [Object.prototype].  On an object created
    by [{}], [obj[k]] finds the inherited member under such a name when the
    object has no own property [k]; [obj[k] = v] with [k = "__proto__"] calls
    the inherited setter and adds no own property; and an own property named
    [hasOwnProperty] hides the method that [obj.hasOwnProperty(k)] calls. *)
Definition objectPrototypeMembers : list string :=
  ["constructor"; "__defineGetter__"; "__defineSetter__"; "hasOwnProperty";
   "__lookupGetter__"; "__lookupSetter__"; "isPrototypeOf"; "propertyIsEnumerable";
   "toString"; "valueOf"; "__proto__"; "toLocaleString"].

(** A property name under which [Object.prototype] has no member: reading,
    writing and testing such a property looks at the own properties only. *)
Definition ordinaryKey (k : string) : bool :=
  negb (existsb (String.eqb k) objectPrototypeMembers).

Definition ordinaryKeys {A} (props : list (string * A)) : bool :=
  forallb (fun kv => ordinaryKey (fst kv)) props.

(** No object of the wire value has an own property [__proto__]. *)
Fixpoint lacksProtoW (w : Wire) : bool :=
  match w with
  | WArr elems => forallb lacksProtoW elems
  | WObj props =>
      negb (hasOwnProperty "__proto__" props)
      && forallb (fun kv => lacksProtoW (snd kv)) props
  | _ => true
  end.

(** The values that the template literal of [safeToString] converts to a
    string.  ToString of an object calls its [toString] and then its
    [valueOf]: an own data property [toString] is not callable, the inherited
    [valueOf] returns the object itself, and the conversion raises a
    TypeError, which [safeToString] throws again.  An object of the program
    inherits [toString] from [Object.prototype]; one written with a key
    [__proto__] may not, and is left out.  An array joins the conversions of
    its elements.  An [Output] returns its warning text or raises an
    OutputToStringError, which [safeToString] catches. *)
Fixpoint stringifiable (env : Env) (v : Value) : bool :=
  match v with
  | VArr elems => forallb (stringifiable env) elems
  | VObj props =>
      negb (hasOwnProperty "toString" props) && negb (hasOwnProperty "__proto__" props)
  | VResource r => negb (hasOwnProperty "toString" (properties (resourceObject env r)))
  | _ => true
  end.

(** The properties that [transferProperties] and [resolveProperties] handle:
    all but [id] and [urn]. *)
Definition transferable (k : string) : bool :=
  negb (String.eqb k "id" || String.eqb k "urn").

(** The properties on which the loop of [transferProperties] gets past the
    label [propString]: the value of every property other than [id] and
    [urn] can be converted to a string. *)
Definition labelled (env : Env) (props : list (string * Value)) : bool :=
  forallb (fun kv => negb (transferable (fst kv)) || stringifiable env (snd kv)) props.

(** The target with a pending output under each of the keys. *)
Definition installed (ks : list string) (onto : gmap string TargetProperty)
  : gmap string TargetProperty :=
  fold_left (fun o k => <[k := Transferred pendingCell]> o) ks onto.

(** The resolvers of the keys. *)
Definition resolversOf (env : Env) (ks : list string)
  : list (string * Resolver (gmap string TargetProperty)) :=
  map (fun k => (k, resolverOf env k)) ks.

(** The call a resolver with a value in [allProps] receives, and the call
    every resolver receives when the operation failed. *)
Definition presentCall (allProps : list (string * Value))
    (deps : list (string * list Resource)) (k : string) : Call :=
  {| call_key := k; call_value := unwrapRpcSecret (getV k allProps);
     call_isKnown := true; call_isSecret := isRpcSecret (getV k allProps);
     call_deps := getDeps k deps; call_err := None |}.

Definition errorCall (err : Error) (k : string) : Call :=
  {| call_key := k; call_value := VUndefined; call_isKnown := true;
     call_isSecret := VBool false; call_deps := Some []; call_err := Some err |}.

(** A promise: handed to the [resolve] function of a promise it is
    followed, not stored.  No other value of the program has a method [then];
    an [Output] answers [undefined] when asked for it. *)
Definition thenable (v : Value) : bool :=
  match v with
  | VPromise _ => true
  | _ => false
  end.

(** No property of [allProps] holds a promise, bare or in a secret
    envelope. *)
Definition promiseFree (allProps : list (string * Value)) : bool :=
  forallb (fun kv => negb (thenable (unwrapRpcSecret (snd kv)))) allProps.

(** The output of property [k] after [resolveProperties] returned without
    error. *)
Definition resolvedCell (env : Env) (allProps : list (string * Value))
    (deps : list (string * list Resource)) (keepUnknowns : option bool) (k : string)
  : OutputCell :=
  if hasOwnProperty k allProps
  then resolveAll (unwrapRpcSecret (getV k allProps)) true (isRpcSecret (getV k allProps))
         (default [] (getDeps k deps)) pendingCell
  else resolveAll VUndefined (negb (isDryRun env tt) && negb (truthy_opt keepUnknowns))
         (VBool false) [] pendingCell.

(** The caller's [dependentResources] before and after a call: no set
    stays no set, and a set keeps its elements in their order and may gain
    some after them. *)
Definition extendsDeps (before after : option (list Resource)) : Prop :=
  match before, after with
  | None, None => True
  | Some d, Some d' => exists added, d' = d ++ added
  | _, _ => False
  end.

(** Data: a value built from primitives and the unknown sentinel by arrays
    and by objects with pairwise distinct keys, none of them [__proto__]. *)
Fixpoint dataTree (v : Value) : bool :=
  match v with
  | VUndefined | VNull | VBool _ | VNum _ | VStr _ | VUnknown => true
  | VArr elems => forallb dataTree elems
  | VObj props =>
      bool_decide (NoDup (map fst props))
      && negb (hasOwnProperty "__proto__" props)
      && forallb (fun kv => dataTree (snd kv)) props
  | _ => false
  end.

Definition orNull (w : Wire) : Wire := if isUndefinedW w then WNull else w.

(** The wire form of data: the unknown sentinel becomes the unknown marker,
    [undefined] becomes [null] in an array and is left out of an object. *)
Fixpoint toWire (v : Value) : Wire :=
  match v with
  | VNull => WNull
  | VBool b => WBool b
  | VNum n => WNum n
  | VStr s => WStr s
  | VUnknown => WStr unknownValue
  | VArr elems => WArr (map (fun e => orNull (toWire e)) elems)
  | VObj props =>
      WObj (List.filter (fun kw => negb (isUndefinedW (snd kw)))
              (map (fun kv => (fst kv, toWire (snd kv))) props))
  | _ => WUndefined
  end.

(** Plain data: data without [undefined], without the unknown sentinel or
    its marker, and without the signature key or the key [__proto__]. *)
Fixpoint plainData (v : Value) : bool :=
  match v with
  | VNull | VBool _ | VNum _ => true
  | VStr s => negb (String.eqb s unknownValue)
  | VArr elems => forallb plainData elems
  | VObj props =>
      bool_decide (NoDup (map fst props))
      && negb (hasOwnProperty specialSigKey props)
      && negb (hasOwnProperty "__proto__" props)
      && forallb (fun kv => plainData (snd kv)) props
  | _ => false
  end.

(** A wire value without [undefined] in which no object has a truthy value
    under the signature key. *)
Fixpoint plainW (w : Wire) : bool :=
  match w with
  | WUndefined => false
  | WArr elems => forallb plainW elems
  | WObj props =>
      negb (truthyW (getW specialSigKey props))
      && forallb (fun kv => plainW (snd kv)) props
  | _ => true
  end.

(** The table after the registrations of a list, made in order. *)
Fixpoint registerAll {T} `{Versioned T} (registrations : list (string * T))
    (source : gmap string (list T)) : Outcome (gmap string (list T)) :=
  match registrations with
  | [] => Ret source
  | (key, item) :: rest =>
      let* r := register source "" key item in
      registerAll rest (snd r)
  end.

(** * Properties *)

(** ** Outcomes *)

Lemma bind_Ret {A B} (m : Outcome A) (k : A -> Outcome B) (b : B) :
  bind m k = Ret b -> exists a, m = Ret a /\ k a = Ret b.
Proof. destruct m; simpl; try done. intros E. by exists a. Qed.

(** ** Precedence of versions is a total preorder *)

Lemma orderly_eq_r {A} (c : A -> A -> comparison) :
  Orderly c -> forall a b, c a b = Eq -> forall x, c x a = c x b.
Proof.
  intros O a b E x.
  rewrite (orderly_opp c O a x), (orderly_opp c O b x).
  f_equal. by apply orderly_eq.
Qed.

Lemma orderly_refl {A} (c : A -> A -> comparison) :
  Orderly c -> forall a, c a a = Eq.
Proof.
  intros O a. pose proof (orderly_opp c O a a) as E.
  destruct (c a a); simpl in E; congruence.
Qed.

Lemma orderly_N : Orderly N.compare.
Proof.
  split.
  - intros a b. apply N.compare_antisym.
  - intros a b E x. apply N.compare_eq in E. by subst.
  - intros a b d. rewrite !N.compare_lt_iff. lia.
Qed.

Lemma orderly_lexico {A} (c1 c2 : A -> A -> comparison) :
  Orderly c1 -> Orderly c2 ->
  Orderly (fun a b => semver.lexico (c1 a b) (c2 a b)).
Proof.
  intros O1 O2. split.
  - intros a b. rewrite (orderly_opp c1 O1 a b), (orderly_opp c2 O2 a b).
    by destruct (c1 a b).
  - intros a b E x. unfold semver.lexico in *.
    destruct (c1 a b) eqn:E1; try discriminate.
    rewrite (orderly_eq c1 O1 a b E1 x), (orderly_eq c2 O2 a b E x). done.
  - intros a b d. unfold semver.lexico.
    destruct (c1 a b) eqn:E1; try discriminate.
    + intros E2. rewrite (orderly_eq c1 O1 a b E1 d).
      destruct (c1 b d); try done. intros E3. by apply (orderly_lt c2 O2 a b d).
    + intros _. destruct (c1 b d) eqn:E3; try discriminate.
      * intros _. rewrite <- (orderly_eq_r c1 O1 b d E3 a). by rewrite E1.
      * intros _. by rewrite (orderly_lt c1 O1 a b d E1 E3).
Qed.

Lemma orderly_on {A B} (f : A -> B) (c : B -> B -> comparison) :
  Orderly c -> Orderly (fun a b => c (f a) (f b)).
Proof.
  intros O. split.
  - intros. apply (orderly_opp c O).
  - intros a b E x. by apply (orderly_eq c O).
  - intros a b d. apply (orderly_lt c O).
Qed.

Lemma orderly_ascii : Orderly Ascii.compare.
Proof.
  split.
  - intros a b. apply Ascii.compare_antisym.
  - intros a b E x. apply Ascii.compare_eq_iff in E. by subst.
  - intros a b d. unfold Ascii.compare. apply (orderly_lt _ orderly_N).
Qed.

Lemma orderly_string : Orderly String.compare.
Proof.
  split.
  - intros a b. apply String.compare_antisym.
  - intros a b E x. apply String.compare_eq_iff in E. by subst.
  - intros a. induction a as [|ca a IH]; intros [|cb b] [|cd d]; simpl; try done.
    destruct (Ascii.compare ca cb) eqn:E1; try done.
    + rewrite (orderly_eq _ orderly_ascii ca cb E1 cd).
      destruct (Ascii.compare cb cd); try done. apply IH.
    + intros _. destruct (Ascii.compare cb cd) eqn:E2; try done.
      * intros _. rewrite <- (orderly_eq_r _ orderly_ascii cb cd E2 ca). by rewrite E1.
      * intros _. by rewrite (orderly_lt _ orderly_ascii ca cb cd E1 E2).
Qed.

Lemma orderly_identifiers : Orderly semver.compareIdentifiers.
Proof.
  split.
  - intros [x|x] [y|y]; simpl; try done.
    + apply N.compare_antisym.
    + apply String.compare_antisym.
  - intros [x|x] [y|y] E; simpl in E; try done.
    + apply N.compare_eq in E. by subst.
    + apply String.compare_eq_iff in E. by subst.
  - intros [x|x] [y|y] [z|z]; simpl; try done.
    + apply (orderly_lt _ orderly_N).
    + apply (orderly_lt _ orderly_string).
Qed.

Lemma orderly_identifier_lists : Orderly semver.compareIdentifierLists.
Proof.
  pose proof orderly_identifiers as O.
  split.
  - intros a. induction a as [|x a IH]; intros [|y b]; simpl; try done.
    rewrite (orderly_opp _ O x y), IH. by destruct (semver.compareIdentifiers x y).
  - intros a. induction a as [|x a IH]; intros [|y b]; simpl; try done.
    intros E [|z d]; simpl; try done.
    unfold semver.lexico in *.
    destruct (semver.compareIdentifiers x y) eqn:E1; try done.
    rewrite (orderly_eq _ O x y E1 z). by rewrite (IH b E d).
  - intros a. induction a as [|x a IH]; intros [|y b] [|z d]; simpl; try done.
    unfold semver.lexico.
    destruct (semver.compareIdentifiers x y) eqn:E1; try done.
    + rewrite (orderly_eq _ O x y E1 z).
      destruct (semver.compareIdentifiers y z); try done. apply IH.
    + intros _. destruct (semver.compareIdentifiers y z) eqn:E2; try done.
      * intros _. rewrite <- (orderly_eq_r _ O y z E2 x). by rewrite E1.
      * intros _. by rewrite (orderly_lt _ O x y z E1 E2).
Qed.

Lemma orderly_pre : Orderly semver.comparePre.
Proof.
  pose proof orderly_identifier_lists as O.
  unfold semver.comparePre. split.
  - intros a b.
    destruct (semver.prerelease a) as [|x pa], (semver.prerelease b) as [|y pb]; try done.
    apply (orderly_opp _ O).
  - intros a b.
    destruct (semver.prerelease a) as [|x pa], (semver.prerelease b) as [|y pb]; try done.
    intros E d. destruct (semver.prerelease d) as [|z pd]; try done.
    by apply (orderly_eq _ O).
  - intros a b d.
    destruct (semver.prerelease a) as [|x pa], (semver.prerelease b) as [|y pb],
      (semver.prerelease d) as [|z pd]; try done.
    apply (orderly_lt _ O).
Qed.

Lemma orderly_compare : Orderly semver.compare.
Proof.
  unfold semver.compare, semver.compareMain.
  apply orderly_lexico; [|apply orderly_pre].
  apply (orderly_lexico (fun a b => N.compare (semver.major a) (semver.major b))).
  { apply (orderly_on semver.major), orderly_N. }
  apply (orderly_lexico (fun a b => N.compare (semver.minor a) (semver.minor b))
           (fun a b => N.compare (semver.patch a) (semver.patch b))).
  { apply (orderly_on semver.minor), orderly_N. }
  apply (orderly_on semver.patch), orderly_N.
Qed.

Lemma gt_asym a b : semver.gt a b = true -> semver.gt b a = false.
Proof.
  unfold semver.gt. rewrite (orderly_opp _ orderly_compare a b).
  by destruct (semver.compare a b).
Qed.

Lemma gt_above e b x :
  semver.gt e b = false -> semver.gt x b = true -> semver.gt x e = true.
Proof.
  pose proof orderly_compare as O. unfold semver.gt.
  rewrite (orderly_opp _ O e x).
  destruct (semver.compare e b) eqn:E1; try done; intros _;
    rewrite (orderly_opp _ O b x); destruct (semver.compare b x) eqn:E2; try done; intros _.
  - by rewrite (orderly_eq _ O e b E1 x), E2.
  - by rewrite (orderly_lt _ O e b x E1 E2).
Qed.

Lemma gt_irrefl a : semver.gt a a = false.
Proof.
  destruct (semver.gt a a) eqn:E; [|done]. by rewrite (gt_asym _ _ E) in E.
Qed.
(** ** Registration *)

#[local] Arguments semver.parse : simpl never.
#[local] Arguments semver.compare : simpl never.

Lemma sameVersion_equalVersion (a b : option string) :
  wellFormedVersion a -> wellFormedVersion b ->
  exists same, sameVersion a b = Ret same /\ (same = true <-> equalVersion a b).
Proof.
  destruct a as [a|], b as [b|]; simpl; try (intros; exists true; by split).
  intros [va Ea] [vb Eb]. unfold semver.eq, semver.new. rewrite Ea, Eb. simpl.
  eexists. split; [done|]. split.
  - intros E. exists va, vb. repeat split; try done.
    by destruct (semver.compare va vb).
  - intros (va' & vb' & Ea' & Eb' & E).
    simplify_eq. by rewrite E.
Qed.

Section RegisterFacts.
Context {T : Type} `{Versioned T}.

Lemma alreadyRegistered_exists (items : list T) (item : T) :
  wellFormedVersion (version item) ->
  (forall e, e ∈ items -> wellFormedVersion (version e)) ->
  exists skip, alreadyRegistered items item = Ret skip
    /\ (skip = true <-> exists e, e ∈ items /\ equalVersion (version e) (version item)).
Proof.
  intros Hitem. induction items as [|e items IH]; intros Hall; simpl.
  - exists false. split; [done|]. split; [done|]. intros (e & He & _). by apply elem_of_nil in He.
  - destruct (sameVersion_equalVersion (version e) (version item)) as (same & -> & Hsame);
      [apply Hall; left | done |].
    simpl. destruct same.
    + exists true. split; [done|]. split; [|done]. intros _. exists e. split; [left|].
      by apply Hsame.
    + destruct IH as (skip & -> & Hskip). { intros e' He'. apply Hall. by right. }
      exists skip. split; [done|]. rewrite Hskip. split.
      * intros (e' & He' & Heq). exists e'. split; [by right | done].
      * intros (e' & He' & Heq). apply elem_of_cons in He' as [->|He'].
        -- apply Hsame in Heq. done.
        -- by exists e'.
Qed.

(** C7. When the versions are absent or accepted by [semver], [register]
    appends the entry exactly when no entry already under the key has an equal
    version (an absent version being equal to any); so on a table without
    entries under the key, registering an entry and then an entry of an equal
    version returns true, then false, and leaves the first entry alone under
    the key.  A version that [semver] rejects makes [sameVersion] raise. *)
Theorem register_idempotent (source : gmap string (list T))
    (registrationType key : string) (item item' : T) :
  wellFormedVersion (version item) ->
  wellFormedVersion (version item') ->
  (forall e, e ∈ default [] (source !! key) -> wellFormedVersion (version e)) ->
  equalVersion (version item) (version item') ->
  (exists inserted source',
      register source registrationType key item = Ret (inserted, source')
      /\ (inserted = true <->
          forall e, e ∈ default [] (source !! key) ->
                    ~ equalVersion (version e) (version item))
      /\ source' = (if inserted
                    then <[key := default [] (source !! key) ++ [item]]> source
                    else source))
  /\ (default [] (source !! key) = [] ->
      exists source',
        register source registrationType key item = Ret (true, source')
        /\ register source' registrationType key item' = Ret (false, source')
        /\ source' !! key = Some [item]).
Proof.
  intros Hitem Hitem' Hall Heq. split.
  - unfold register. destruct (source !! key) as [items|] eqn:Hk; simpl in *.
    + destruct (alreadyRegistered_exists items item Hitem Hall) as (skip & -> & Hskip).
      simpl. destruct skip.
      * exists false, source. split; [done|]. split; [|done]. split; [done|].
        intros Hno. destruct Hskip as [Hskip _]. destruct (Hskip eq_refl) as (e & He & Hee).
        by destruct (Hno e He).
      * exists true. eexists. split; [done|]. split; [|done]. split; [|done].
        intros _ e He Hee. assert (false = true); [|done]. apply Hskip. by exists e.
    + exists true. eexists. split; [done|]. split; [|done]. split; [|done].
      intros _ e He. by apply elem_of_nil in He.
  - intros Hempty. exists (<[key := [item]]> source).
    assert (register source registrationType key item = Ret (true, <[key := [item]]> source)) as ->.
    { unfold register. destruct (source !! key) as [items|] eqn:Hk; simpl in *; [|done].
      subst items. done. }
    split; [done|]. split; [|by rewrite lookup_insert_eq].
    unfold register. rewrite lookup_insert_eq. simpl.
    destruct (sameVersion_equalVersion (version item) (version item')) as (same & -> & Hsame);
      try done.
    simpl. destruct same; [done|]. apply Hsame in Heq. done.
Qed.

End RegisterFacts.

Lemma register_idempotent_witness :
  exists source',
    register (∅ : gmap string (list Entry)) "package" "k"
       {| entry_version := Some "1.2.3"; entry_name := "first" |} = Ret (true, source')
    /\ register source' "package" "k"
         {| entry_version := Some "v1.2.3+build"; entry_name := "second" |} = Ret (false, source')
    /\ source' !! "k" = Some [{| entry_version := Some "1.2.3"; entry_name := "first" |}].
Proof.
  refine (proj2 (register_idempotent (T := Entry) ∅ "package" "k"
            {| entry_version := Some "1.2.3"; entry_name := "first" |}
            {| entry_version := Some "v1.2.3+build"; entry_name := "second" |} _ _ _ _) _).
  - by eexists.
  - by eexists.
  - intros e He. rewrite lookup_empty in He. by apply elem_of_nil in He.
  - simpl. do 2 eexists. repeat split; reflexivity.
  - by rewrite lookup_empty.
Defined.

(** An entry whose version [semver] rejects is stored by the first
    registration, which looks at no version; the second registration of the
    very same entry then does not return false: [sameVersion] hands the two
    versions to [semver.eq], which raises. *)
Lemma register_twice_unparsable :
  let e := {| entry_version := Some "${VERSION}"; entry_name := "dev" |} in
  let source' : gmap string (list Entry) := <["k" := [e]]> ∅ in
  semver.parse "${VERSION}" = None
  /\ register (∅ : gmap string (list Entry)) "module" "k" e = Ret (true, source')
  /\ (exists err, register source' "module" "k" e = Throw err)
  /\ (forall inserted final, register source' "module" "k" e <> Ret (inserted, final)).
Proof.
  intros e source'.
  assert (register source' "module" "k" e = Throw (TypeError "Invalid Version")) as Hthrow.
  { unfold register, source'. rewrite lookup_insert_eq. reflexivity. }
  split; [reflexivity|]. split; [reflexivity|]. split.
  - by eexists.
  - intros inserted final. by rewrite Hthrow.
Qed.

(** ** Lookup *)

Section LookupFacts.
Context {T : Type} `{Versioned T}.

Lemma parseVersion_entryVersion (e : T) :
  wellFormedVersion (version e) -> parseVersion (version e) = Ret (entryVersion e).
Proof.
  unfold entryVersion, parseVersion, semver.new. destruct (version e) as [s|]; [|done].
  intros [v E]. by rewrite E.
Qed.

(** Once the best match has no version, it stays. *)
Lemma bestRegistration_unversioned ver (items : list T) (best : T) :
  (forall e, e ∈ items -> wellFormedVersion (version e)) ->
  bestRegistration ver items (Some best) None = Ret (Some best).
Proof.
  induction items as [|e items IH]; intros Hall; [done|]. simpl.
  rewrite parseVersion_entryVersion by (apply Hall; left). simpl.
  assert (bestRegistration ver items (Some best) None = Ret (Some best)) as IH'.
  { apply IH. intros e' He'. apply Hall. by right. }
  destruct (checkVersion ver (entryVersion e)); simpl; [|done].
  destruct (entryVersion e); simpl; done.
Qed.

(** With a best match that has a version, the loop keeps the first entry of
    greatest version. *)
Lemma bestRegistration_versioned ver (items prefix : list T) (best : T) vbest i :
  (forall e, e ∈ items -> wellFormedVersion (version e)) ->
  prefix !! i = Some best -> entryVersion best = Some vbest ->
  firstGreatest prefix i vbest ->
  exists best' vbest' i',
    bestRegistration ver items (Some best) (Some vbest) = Ret (Some best')
    /\ (prefix ++ List.filter (fun e => checkVersion ver (entryVersion e)) items) !! i'
       = Some best'
    /\ entryVersion best' = Some vbest'
    /\ firstGreatest
         (prefix ++ List.filter (fun e => checkVersion ver (entryVersion e)) items) i' vbest'.
Proof.
  revert prefix best vbest i.
  induction items as [|e items IH]; intros prefix best vbest i Hall Hi Hv Inv; simpl.
  { exists best, vbest, i. rewrite app_nil_r. done. }
  rewrite parseVersion_entryVersion by (apply Hall; left). simpl.
  assert (forall e', e' ∈ items -> wellFormedVersion (version e')) as Hall'.
  { intros e' He'. apply Hall. by right. }
  destruct (checkVersion ver (entryVersion e)) eqn:Hc; simpl; [|by apply (IH prefix best vbest i)].
  assert (i < length prefix) as Hlt by (by eapply lookup_lt_Some).
  replace (prefix ++ e :: List.filter (fun e0 => checkVersion ver (entryVersion e0)) items)
    with ((prefix ++ [e]) ++ List.filter (fun e0 => checkVersion ver (entryVersion e0)) items)
    by (by rewrite <- app_assoc).
  destruct (entryVersion e) as [ve|] eqn:Hve; simpl.
  - destruct (semver.gt ve vbest) eqn:Hgt.
    + apply (IH (prefix ++ [e]) e ve (length prefix)); try done.
      * rewrite lookup_app_r by lia. by rewrite Nat.sub_diag.
      * intros j e' ve' Hj Hve'.
        destruct (decide (j < length prefix)) as [Hjl|Hjl].
        -- rewrite lookup_app_l in Hj by done.
           destruct (Inv j e' ve' Hj Hve') as [Hle _].
           pose proof (gt_above ve' vbest ve Hle Hgt) as Hab.
           split; [by apply gt_asym | done].
        -- rewrite lookup_app_r in Hj by lia.
           destruct (j - length prefix) as [|n] eqn:Hn; simpl in Hj; [|done].
           simplify_eq. split; [apply gt_irrefl | lia].
    + apply (IH (prefix ++ [e]) best vbest i); try done.
      * by rewrite lookup_app_l.
      * intros j e' ve' Hj Hve'.
        destruct (decide (j < length prefix)) as [Hjl|Hjl].
        -- rewrite lookup_app_l in Hj by done. by apply (Inv j e').
        -- rewrite lookup_app_r in Hj by lia.
           destruct (j - length prefix) as [|n] eqn:Hn; simpl in Hj; [|done].
           simplify_eq. split; [done | lia].
  - apply (IH (prefix ++ [e]) best vbest i); try done.
    + by rewrite lookup_app_l.
    + intros j e' ve' Hj Hve'.
      destruct (decide (j < length prefix)) as [Hjl|Hjl].
      * rewrite lookup_app_l in Hj by done. by apply (Inv j e').
      * rewrite lookup_app_r in Hj by lia.
        destruct (j - length prefix) as [|n] eqn:Hn; simpl in Hj; [|done].
        simplify_eq.
Qed.

(** The whole loop, from no best match. *)
Lemma bestRegistration_kept ver (items : list T) :
  (forall e, e ∈ items -> wellFormedVersion (version e)) ->
  exists r, bestRegistration ver items None None = Ret r
    /\ selectsFirstGreatest
         (List.filter (fun e => checkVersion ver (entryVersion e)) items) r.
Proof.
  unfold selectsFirstGreatest.
  induction items as [|e items IH]; intros Hall; simpl.
  { by exists None. }
  rewrite parseVersion_entryVersion by (apply Hall; left). simpl.
  assert (forall e', e' ∈ items -> wellFormedVersion (version e')) as Hall'.
  { intros e' He'. apply Hall. by right. }
  destruct (checkVersion ver (entryVersion e)) eqn:Hc; simpl; [|by apply IH].
  destruct (entryVersion e) as [ve|] eqn:Hve.
  - destruct (bestRegistration_versioned ver items [e] e ve 0 Hall' eq_refl Hve)
      as (best & vbest & i & Hr & Hi & Hv & Inv).
    { intros j e' ve' Hj Hve'. destruct j as [|j]; simpl in Hj; [|done]. simplify_eq.
      split; [apply gt_irrefl | lia]. }
    exists (Some best). split; [done|]. by exists best, vbest, i.
  - exists (Some e). split; [|done]. by apply bestRegistration_unversioned.
Qed.

(** With a best match that has a version, the loop computes the lookup as
    the specification words it. *)
Lemma bestRegistration_betterEntry ver (items : list T) (best : T) vbest :
  (forall e, e ∈ items -> wellFormedVersion (version e)) ->
  entryVersion best = Some vbest ->
  bestRegistration ver items (Some best) (Some vbest)
  = Ret (fold_left betterEntry
           (List.filter (fun e => checkVersion ver (entryVersion e)) items) (Some best)).
Proof.
  revert best vbest. induction items as [|e items IH]; intros best vbest Hall Hv; [done|].
  simpl. rewrite parseVersion_entryVersion by (apply Hall; left). simpl.
  assert (forall e', e' ∈ items -> wellFormedVersion (version e')) as Hall'.
  { intros e' He'. apply Hall. by right. }
  destruct (checkVersion ver (entryVersion e)) eqn:Hc; simpl; [|by apply IH].
  rewrite Hv.
  destruct (entryVersion e) as [ve|] eqn:Hve; simpl.
  - destruct (semver.gt ve vbest); by apply IH.
  - by apply IH.
Qed.

Lemma betterEntry_unversioned (kept : list T) (best : T) :
  entryVersion best = None -> Forall (fun e => entryVersion e = None) kept ->
  fold_left betterEntry kept (Some best) = Some best.
Proof.
  intros Hb. induction 1 as [|e kept He _ IH]; simpl; [done|].
  by rewrite He, Hb.
Qed.

Lemma bestRegistration_as_specified ver (items : list T) :
  (forall e, e ∈ items -> wellFormedVersion (version e)) ->
  versionedFirst (List.filter (fun e => checkVersion ver (entryVersion e)) items) ->
  bestRegistration ver items None None
  = Ret (greatestEntry (List.filter (fun e => checkVersion ver (entryVersion e)) items)).
Proof.
  unfold greatestEntry.
  induction items as [|e items IH]; intros Hall Hfirst; [done|].
  simpl. rewrite parseVersion_entryVersion by (apply Hall; left). simpl.
  assert (forall e', e' ∈ items -> wellFormedVersion (version e')) as Hall'.
  { intros e' He'. apply Hall. by right. }
  simpl in Hfirst.
  destruct (checkVersion ver (entryVersion e)) eqn:Hc; simpl; [|by apply IH].
  destruct (entryVersion e) as [ve|] eqn:Hve.
  - by apply bestRegistration_betterEntry.
  - simpl in Hfirst. destruct Hfirst as [[? ?]|Hrest]; [congruence|].
    rewrite (betterEntry_unversioned _ e Hve Hrest).
    by apply bestRegistration_unversioned.
Qed.

(** [register] keeps the entries under every key uniformly versioned, and
    then the first kept entry of a lookup has a version or none has. *)
Lemma alreadyRegistered_false (items : list T) (item : T) :
  alreadyRegistered items item = Ret false ->
  Forall (fun e => is_Some (version e)) items /\ (items <> [] -> is_Some (version item)).
Proof.
  induction items as [|e items IH]; simpl; [by split|].
  intros Hr. apply bind_Ret in Hr as (same & Hsame & Hr).
  destruct same; [done|]. destruct (IH Hr) as [Hall _].
  unfold sameVersion in Hsame.
  destruct (version e) as [ve|] eqn:Hve, (version item) as [vi|] eqn:Hvi; try done.
  split; [|intros _; by eexists]. constructor; [by rewrite Hve | done].
Qed.

Lemma register_uniformlyVersioned (source source' : gmap string (list T))
    (registrationType key : string) (item : T) (inserted : bool) :
  register source registrationType key item = Ret (inserted, source') ->
  (forall k items, source !! k = Some items -> uniformlyVersioned items) ->
  forall k items, source' !! k = Some items -> uniformlyVersioned items.
Proof.
  unfold register. intros Hr Hinv k items' Hk.
  destruct (source !! key) as [items|] eqn:Hkey.
  - apply bind_Ret in Hr as (skip & Hskip & Hr).
    destruct skip; simplify_eq; [by eapply Hinv|].
    destruct (decide (key = k)) as [->|Hne].
    + rewrite lookup_insert_eq in Hk. simplify_eq.
      destruct (alreadyRegistered_false _ _ Hskip) as [Hall Hitem].
      destruct items as [|e items]; [right; simpl; lia|]. left.
      apply Forall_app. split; [done|]. constructor; [by apply Hitem | constructor].
    + rewrite lookup_insert_ne in Hk by done. by eapply Hinv.
  - simplify_eq. destruct (decide (key = k)) as [->|Hne].
    + rewrite lookup_insert_eq in Hk. simplify_eq. right. simpl. lia.
    + rewrite lookup_insert_ne in Hk by done. by eapply Hinv.
Qed.

Lemma uniformlyVersioned_versionedFirst (p : T -> bool) (items : list T) :
  (forall e, e ∈ items -> wellFormedVersion (version e)) ->
  uniformlyVersioned items -> versionedFirst (List.filter p items).
Proof.
  intros Hwf [Hall|Hlen].
  - assert (Forall (fun e => is_Some (entryVersion e)) (List.filter p items)) as Hf.
    { apply Forall_forall. intros e He. apply list_elem_of_In, filter_In in He as [He _].
      apply list_elem_of_In in He.
      rewrite Forall_forall in Hall. destruct (Hall e He) as [s Hs].
      pose proof (Hwf e He) as Hw. unfold entryVersion. rewrite Hs in Hw |- *. done. }
    destruct (List.filter p items) as [|first rest]; [done|].
    left. by apply Forall_cons in Hf as [? _].
  - destruct items as [|e [|e' items]]; simpl in *; try lia; try done.
    destruct (p e); simpl; [|done]. right. constructor.
Qed.

Lemma getRegistration_loop (source : gmap string (list T)) (key : string)
    (wanted : option string) :
  wellFormedRequest wanted ->
  getRegistration source key wanted
  = bestRegistration (requestedVersion wanted) (default [] (source !! key)) None None.
Proof.
  intros Hver. unfold getRegistration.
  assert ((match wanted with
           | Some v => if string_truthy v then parseVersion (Some v) else Ret None
           | None => Ret None
           end) = Ret (requestedVersion wanted)) as ->; [|done].
  destruct wanted as [v|]; simpl in *; [|done].
  destruct (string_truthy v); simpl in *; [|done].
  destruct (Hver eq_refl) as [sv E]. unfold semver.new. by rewrite E.
Qed.

(** On the entries that [register] builds, the lookup is the one the
    specification words. *)
Lemma getRegistration_uniformlyVersioned (source : gmap string (list T)) (key : string)
    (wanted : option string) :
  wellFormedRequest wanted ->
  (forall e, e ∈ default [] (source !! key) -> wellFormedVersion (version e)) ->
  uniformlyVersioned (default [] (source !! key)) ->
  getRegistration source key wanted = Ret (lookupAsSpecified source key wanted).
Proof.
  intros Hver Hall Hun. rewrite getRegistration_loop by done.
  apply bestRegistration_as_specified; [done|].
  by apply uniformlyVersioned_versionedFirst.
Qed.

(** C3, as amended. [getRegistration] keeps exactly the entries of
    compatible version (same major, minor and patch at least the requested
    ones, an absent version on either side being compatible) and returns none
    when none is kept; when the first kept entry has no version it returns
    that entry; otherwise it returns, among the kept entries that have a
    version, the first one of greatest version.  So it returns the kept entry
    of greatest version, entries without version ranking lowest and the
    first of equals winning, whenever the first kept entry has a version or
    no kept entry has one.  After registering 1.2.3 and 1.5.0 under a key, a
    lookup of 1.2.0 returns the 1.5.0 entry and a lookup of 2.0.0 returns
    none. *)
Theorem getRegistration_first_greatest (source : gmap string (list T))
    (key : string) (wanted : option string) :
  wellFormedRequest wanted ->
  (forall e, e ∈ default [] (source !! key) -> wellFormedVersion (version e)) ->
  (exists r, getRegistration source key wanted = Ret r
     /\ selectsFirstGreatest (keptEntries source key wanted) r)
  /\ (versionedFirst (keptEntries source key wanted) ->
      getRegistration source key wanted = Ret (lookupAsSpecified source key wanted))
  /\ (forall (empty : gmap string (list T)) (a b : T) (registrationType : string),
        version a = Some "1.2.3" -> version b = Some "1.5.0" ->
        empty !! key = None ->
        exists s1 s2,
          register empty registrationType key a = Ret (true, s1)
          /\ register s1 registrationType key b = Ret (true, s2)
          /\ getRegistration s2 key (Some "1.2.0") = Ret (Some b)
          /\ getRegistration s2 key (Some "2.0.0") = Ret None).
Proof.
  intros Hver Hall. rewrite getRegistration_loop by done.
  split; [|split].
  - by apply bestRegistration_kept.
  - by apply bestRegistration_as_specified.
  - intros empty a b rt Ha Hb Hk.
    exists (<[key := [a]]> empty), (<[key := [a; b]]> (<[key := [a]]> empty)).
    unfold register, getRegistration. rewrite Hk. simpl.
    rewrite !lookup_insert_eq. simpl. rewrite Ha, Hb. simpl.
    repeat split; done.
Qed.

End LookupFacts.

Lemma getRegistration_first_greatest_witness :
  let e123 := {| entry_version := Some "1.2.3"; entry_name := "old" |} in
  let e150 := {| entry_version := Some "1.5.0"; entry_name := "new" |} in
  let source : gmap string (list Entry) := <["k" := [e123; e150]]> ∅ in
  wellFormedRequest (Some "1.2.0")
  /\ (forall e, e ∈ default [] (source !! "k") -> wellFormedVersion (version e))
  /\ getRegistration source "k" (Some "1.2.0") = Ret (Some e150).
Proof.
  intros e123 e150 source.
  assert (wellFormedRequest (Some "1.2.0")) as H1 by (intros _; by eexists).
  assert (forall e, e ∈ default [] (source !! "k") -> wellFormedVersion (version e)) as H2.
  { unfold source. rewrite lookup_insert_eq. simpl. intros e He.
    apply elem_of_cons in He as [->|He]; [by eexists|].
    apply elem_of_cons in He as [->|He]; [by eexists|]. by apply elem_of_nil in He. }
  split; [exact H1|]. split; [exact H2|].
  rewrite (proj1 (proj2 (getRegistration_first_greatest source "k" (Some "1.2.0") H1 H2))).
  - unfold lookupAsSpecified, keptEntries, source. by rewrite lookup_insert_eq.
  - unfold keptEntries, source. rewrite lookup_insert_eq. left. by eexists.
Defined.

(** An entry without version that is registered first is returned even when
    a later entry has a version: as the specification words the lookup, the
    later entry would win. *)
Lemma getRegistration_unversioned_first :
  let e0 := {| entry_version := None; entry_name := "unversioned" |} in
  let e1 := {| entry_version := Some "1.0.0"; entry_name := "versioned" |} in
  let source : gmap string (list Entry) := <["k" := [e0; e1]]> ∅ in
  getRegistration source "k" None = Ret (Some e0)
  /\ lookupAsSpecified source "k" None = Some e1.
Proof.
  intros e0 e1 source. unfold getRegistration, lookupAsSpecified, keptEntries, source.
  rewrite lookup_insert_eq. split; reflexivity.
Qed.

(** ** Resolution of the transferred properties *)

Section ResolveFacts.
Context (env : Env).


Lemma absentLoop_recorders (keys : list string) allProps keepUnknowns log :
  absentLoop env (recorders keys) allProps keepUnknowns log
  = Ret (log ++ map (absentCall env keepUnknowns)
                  (List.filter (fun k => negb (hasOwnProperty k allProps)) keys)).
Proof.
  revert log. induction keys as [|k keys IH]; intros log; simpl.
  { by rewrite app_nil_r. }
  destruct (negb (hasOwnProperty k allProps)); simpl; [|apply IH].
  rewrite IH. by rewrite <- app_assoc.
Qed.


End ResolveFacts.

(** Outside a preview and with [keepUnknowns] set, the resolver of a property
    without value receives [undefined], marked as not known. *)
Example resolveProperties_keepUnknowns_update :
  resolveProperties (exampleEnv false) (recorders ["a"]) "t" "name" [] [] None (Some true) []
  = Ret [{| call_key := "a"; call_value := VUndefined; call_isKnown := false;
            call_isSecret := VBool false; call_deps := None; call_err := None |}].
Proof. reflexivity. Qed.

(** ** The reverse marshaler *)

Section DeserializeFacts.
Context (env : Env).

(** C2, what the code does. A resource reference without registered
    constructor whose [id] is the empty string deserializes to its URN: the
    test [if (prop["id"])] takes the empty string for an absent id, so the
    promotion of the empty id to the unknown marker is never reached. *)
Theorem deserializeProperty_empty_id (prop : list (string * Wire)) (urn : string)
    (keepUnknowns : option bool) :
  getW specialSigKey prop = WStr specialResourceSig ->
  getW "urn" prop = WStr urn ->
  constructReference env urn (getW "packageVersion" prop) = Ret None ->
  getW "id" prop = WStr "" ->
  deserializeProperty env (WObj prop) keepUnknowns = Ret (VStr urn).
Proof.
  intros Hsig Hurn Hc Hid.
  cbn -[constructReference getW withProp]. rewrite Hsig.
  cbn -[constructReference getW withProp]. rewrite Hurn, Hc, Hid. reflexivity.
Qed.

End DeserializeFacts.

Lemma deserializeProperty_empty_id_witness :
  deserializeProperty (exampleEnv false)
    (resourceReference "urn:pulumi:stack::proj::pkg:mod:Typ::name" [("id", WStr "")])
    (Some true)
  = Ret (VStr "urn:pulumi:stack::proj::pkg:mod:Typ::name").
Proof.
  apply (deserializeProperty_empty_id (exampleEnv false)); reflexivity.
Defined.

(** ** Resolvers made by [transferProperties] *)

Section TransferFacts.
Context (env : Env).

Lemma getResolver_setProp {S} (k k' : string) (r : Resolver S) resolvers :
  getResolver k (setProp k' r resolvers)
  = if String.eqb k k' then Some r else getResolver k resolvers.
Proof.
  induction resolvers as [|[k0 r0] resolvers IH]; simpl.
  - done.
  - destruct (String.eqb k' k0) eqn:E0; simpl.
    + apply String.eqb_eq in E0. subst k0. by destruct (String.eqb k k').
    + destruct (String.eqb k k0) eqn:E1.
      * apply String.eqb_eq in E1. subst k0.
        rewrite String.eqb_sym in E0. by rewrite E0.
      * apply IH.
Qed.

(** Every resolver of the loop is the closure of its key, and its [Output]
    is on the target, with its four promises pending. *)
Lemma transferLoop_resolvers label props resolvers onto resolvers' onto' :
  transferLoop env label props resolvers onto = (Ret resolvers', onto') ->
  forall k r, getResolver k resolvers' = Some r ->
    (r = resolverOf env k /\ onto' !! k = Some (Transferred pendingCell))
    \/ (getResolver k resolvers = Some r /\ onto' !! k = onto !! k).
Proof.
  revert resolvers onto.
  induction props as [|[k0 v0] props IH]; intros resolvers onto Heq k r Hr; simpl in Heq.
  { simplify_eq. by right. }
  destruct (String.eqb k0 "id" || String.eqb k0 "urn"); [by apply (IH resolvers onto)|].
  destruct (bool_decide (is_Some (onto !! k0))) eqn:Hown; [done|].
  apply bool_decide_eq_false in Hown.
  destruct (IH _ _ Heq k r Hr) as [Hnew|[Hold Hsame]]; [by left|].
  rewrite getResolver_setProp in Hold.
  destruct (String.eqb k k0) eqn:E.
  - apply String.eqb_eq in E. subst k0. simplify_eq. left. split; [done|].
    by rewrite Hsame, lookup_insert_eq.
  - right. split; [done|]. rewrite Hsame. apply lookup_insert_ne.
    intros ->. by rewrite String.eqb_refl in E.
Qed.

(** C4. A resolver made by [transferProperties] leaves its four promises
    alone when it is given a gRPC error, rejects the four with any other
    error, and without error fulfils the four with the values it is given,
    the dependencies defaulting to the empty list. *)
Theorem transferProperties_resolver (onto : gmap string TargetProperty)
    (label : string) (props : list (string * Value))
    (resolvers : list (string * Resolver (gmap string TargetProperty)))
    (onto' : gmap string TargetProperty) (k : string)
    (r : Resolver (gmap string TargetProperty)) :
  transferProperties env onto label props = (Ret resolvers, onto') ->
  getResolver k resolvers = Some r ->
  onto' !! k = Some (Transferred pendingCell)
  /\ forall (st : gmap string TargetProperty) (v : Value) (isKnown : bool)
       (isSecret : Value) (deps : option (list Resource)) (err : Error),
       st !! k = Some (Transferred pendingCell) ->
       (isGrpcError env err = true ->
        r v isKnown isSecret deps (Some err) st = Ret st)
       /\ (isGrpcError env err = false ->
           r v isKnown isSecret deps (Some err) st
           = Ret (<[k := Transferred
                      {| valuePromise := Rejected err; isKnownPromise := Rejected err;
                         isSecretPromise := Rejected err; depsPromise := Rejected err |}]>
                    st))
       /\ r v isKnown isSecret deps None st
          = Ret (<[k := Transferred
                     {| valuePromise := Fulfilled v; isKnownPromise := Fulfilled isKnown;
                        isSecretPromise := Fulfilled isSecret;
                        depsPromise := Fulfilled (default [] deps) |}]> st).
Proof.
  intros Ht Hr. unfold transferProperties in Ht.
  destruct (transferLoop_resolvers _ _ _ _ _ _ Ht k r Hr) as [[-> Hcell]|[Hno _]]; [|done].
  split; [done|]. intros st v isKnown isSecret deps err Hst. unfold resolverOf.
  repeat split.
  - by intros ->.
  - intros ->. f_equal. apply map_eq. intros k'.
    destruct (decide (k = k')) as [<-|Hne].
    + by rewrite lookup_alter_eq, lookup_insert_eq, Hst.
    + by rewrite lookup_alter_ne, lookup_insert_ne.
  - f_equal. apply map_eq. intros k'.
    destruct (decide (k = k')) as [<-|Hne].
    + by rewrite lookup_alter_eq, lookup_insert_eq, Hst.
    + by rewrite lookup_alter_ne, lookup_insert_ne.
Qed.

End TransferFacts.

Lemma transferProperties_resolver_witness :
  exists resolvers onto' r,
    transferProperties (exampleEnv false) ∅ "res" [("id", VNull); ("name", VStr "n")]
    = (Ret resolvers, onto')
    /\ getResolver "name" resolvers = Some r
    /\ r (VStr "x") true (VBool false) None (Some (ExternalError "grpc")) onto' = Ret onto'.
Proof.
  assert (transferProperties (exampleEnv false) ∅ "res" [("id", VNull); ("name", VStr "n")]
          = (Ret [("name", resolverOf (exampleEnv false) "name")],
             <["name" := Transferred pendingCell]> ∅)) as Ht by reflexivity.
  destruct (transferProperties_resolver (exampleEnv false) _ _ _ _ _ "name" _ Ht eq_refl)
    as [Hcell Hcalls].
  eexists _, _, _. split; [exact Ht|]. split; [reflexivity|].
  exact (proj1 (Hcalls _ (VStr "x") true (VBool false) None (ExternalError "grpc") Hcell)
           eq_refl).
Defined.

(** ** Secret envelopes in deserialized values *)

Lemma unwrapRpcSecret_secretEnvelope (x : Value) :
  unwrapRpcSecret (secretEnvelope x) = x /\ isSecretEnvelope (secretEnvelope x) = true.
Proof. split; reflexivity. Qed.

Lemma hasSecret_false_plain (v : Value) :
  hasSecret v = false -> isSecretEnvelope v = false /\ unwrapRpcSecret v = v.
Proof.
  intros Hv.
  assert (isSecretEnvelope v = false) as E.
  { unfold isSecretEnvelope, isRpcSecret. destruct (truthy v) eqn:Ht; [|done].
    destruct v; try done. simpl in Hv. apply orb_false_elim in Hv as [Hv _].
    unfold isSecretEnvelope, isRpcSecret in Hv. by rewrite Ht in Hv. }
  split; [done|]. unfold unwrapRpcSecret. unfold isSecretEnvelope in E. by rewrite E.
Qed.

Lemma getW_in (k : string) (props : list (string * Wire)) :
  getW k props = WUndefined \/ (k, getW k props) ∈ props.
Proof.
  induction props as [|[k' v] props IH]; simpl; [by left|].
  destruct (String.eqb k k') eqn:E.
  - apply String.eqb_eq in E. subst. right. left.
  - destruct IH as [->|IH]; [by left|]. right. by right.
Qed.

Lemma getW_NoDup (k : string) (v : Wire) (props : list (string * Wire)) :
  NoDup (map fst props) -> (k, v) ∈ props -> getW k props = v.
Proof.
  induction props as [|[k' v'] props IH]; simpl; intros Hnd Hin.
  { by apply elem_of_nil in Hin. }
  apply NoDup_cons in Hnd as [Hk' Hnd].
  apply elem_of_cons in Hin as [Heq|Hin].
  - simplify_eq. by rewrite String.eqb_refl.
  - destruct (String.eqb k k') eqn:E; [|by apply IH].
    apply String.eqb_eq in E. subst k'. destruct Hk'.
    apply list_elem_of_fmap. by exists (k, v).
Qed.

Lemma withProp_getW (f : Wire -> Outcome Value) k absent props :
  truthyW (getW k props) = true -> withProp f k absent props = f (getW k props).
Proof.
  induction props as [|[k' v] props IH]; simpl; [done|].
  by destruct (String.eqb k k').
Qed.

Lemma withProp_defined (f : Wire -> Outcome Value) k absent props :
  isUndefinedW (getW k props) = false -> withProp f k absent props = f (getW k props).
Proof.
  induction props as [|[k' v] props IH]; simpl; [done|].
  by destruct (String.eqb k k').
Qed.

Lemma getV_setProp (k k' : string) (v : Value) props :
  getV k (setProp k' v props) = if String.eqb k k' then v else getV k props.
Proof.
  induction props as [|[k0 v0] props IH]; simpl.
  - done.
  - destruct (String.eqb k' k0) eqn:E0; simpl.
    + apply String.eqb_eq in E0. subst k0. by destruct (String.eqb k k').
    + destruct (String.eqb k k0) eqn:E1.
      * apply String.eqb_eq in E1. subst k0.
        rewrite String.eqb_sym in E0. by rewrite E0.
      * apply IH.
Qed.

Lemma Forall_setProp {A} (P : A -> Prop) (k : string) (v : A) props :
  P v -> Forall (fun kv => P (snd kv)) props ->
  Forall (fun kv => P (snd kv)) (setProp k v props).
Proof.
  intros Hv. induction 1 as [|[k0 v0] props H0 Hall IH]; simpl.
  - by constructor.
  - destruct (String.eqb k k0); constructor; done.
Qed.

Lemma setProp_fresh {A} (k : string) (v : A) props :
  k ∉ map fst props -> setProp k v props = props ++ [(k, v)].
Proof.
  induction props as [|[k0 v0] props IH]; simpl; intros Hk; [done|].
  apply not_elem_of_cons in Hk as [Hne Hk].
  destruct (String.eqb k k0) eqn:E.
  - apply String.eqb_eq in E. done.
  - by rewrite IH.
Qed.

Section LoopFacts.
Context (f : Wire -> Outcome Value).

Lemma arrayLoop_Forall2 elems ds hadSecret acc :
  Forall2 (fun e d => f e = Ret d) elems ds ->
  arrayLoop f elems hadSecret acc
  = Ret (hadSecret || existsb isSecretEnvelope ds, acc ++ map unwrapRpcSecret ds).
Proof.
  intros Hds. revert hadSecret acc.
  induction Hds as [|e d elems ds He Hds IH]; intros hadSecret acc; simpl.
  - by rewrite orb_false_r, app_nil_r.
  - rewrite He. simpl. rewrite IH. by rewrite orb_assoc, <- app_assoc.
Qed.

Lemma arrayLoop_Ret elems hadSecret acc r :
  arrayLoop f elems hadSecret acc = Ret r ->
  exists ds, Forall2 (fun e d => f e = Ret d) elems ds.
Proof.
  revert hadSecret acc. induction elems as [|e elems IH]; intros hadSecret acc; simpl.
  - intros _. exists []. constructor.
  - intros Hr. apply bind_Ret in Hr as (d & Hd & Hr).
    destruct (IH _ _ Hr) as (ds & Hds). exists (d :: ds). by constructor.
Qed.

Lemma objectLoop_Forall2 props ds hadSecrets obj :
  Forall2 (fun kv d => f (snd kv) = Ret d) props ds ->
  NoDup (map fst obj ++ map fst props) ->
  objectLoop f props hadSecrets obj
  = Ret (hadSecrets || existsb isSecretEnvelope ds,
         obj ++ withKeys props (map unwrapRpcSecret ds)).
Proof.
  intros Hds. revert hadSecrets obj.
  induction Hds as [|[k w] d props ds He Hds IH]; intros hadSecrets obj Hnd; simpl.
  - by rewrite orb_false_r, app_nil_r.
  - simpl in He. rewrite He. simpl.
    assert (k ∉ map fst obj) as Hk.
    { apply NoDup_app in Hnd as (_ & Hdis & _). intros Hin. apply (Hdis k Hin). left. }
    rewrite (setProp_fresh k _ obj Hk). rewrite IH.
    + unfold withKeys. simpl. by rewrite orb_assoc, <- app_assoc.
    + rewrite map_app. simpl. rewrite <- app_assoc. done.
Qed.

Lemma objectLoop_Ret props hadSecrets obj r :
  objectLoop f props hadSecrets obj = Ret r ->
  exists ds, Forall2 (fun kv d => f (snd kv) = Ret d) props ds.
Proof.
  revert hadSecrets obj. induction props as [|[k w] props IH]; intros hadSecrets obj; simpl.
  - intros _. exists []. constructor.
  - intros Hr. apply bind_Ret in Hr as (d & Hd & Hr).
    destruct (IH _ _ Hr) as (ds & Hds). exists (d :: ds). by constructor.
Qed.

End LoopFacts.

Section SecretFacts.
Context (env : Env) (keepUnknowns : option bool).

Lemma getV_ofWire (k : string) (props : list (string * Wire)) :
  getV k (map (fun kv => (fst kv, ofWire (snd kv))) props) = ofWire (getW k props).
Proof.
  induction props as [|[k' v] props IH]; simpl; [done|].
  by destruct (String.eqb k k').
Qed.

Lemma forallb_getW (p : Wire -> bool) (k : string) (props : list (string * Wire)) :
  p WUndefined = true ->
  forallb (fun kv => p (snd kv)) props = true -> p (getW k props) = true.
Proof.
  intros Hu. induction props as [|[k' v] props IH]; simpl; [done|].
  intros Hall. apply andb_prop in Hall as [Hv Hall].
  destruct (String.eqb k k'); [done | by apply IH].
Qed.

Lemma ofWire_secretFree (w : Wire) :
  secretFreeW w = true -> hasSecret (ofWire w) = false.
Proof.
  induction w as [| | | | |elems IH|props IH] using Wire_nested_ind; simpl; try done.
  - intros Hall. induction IH as [|e elems He _ IH]; simpl in *; [done|].
    apply andb_prop in Hall as [H1 H2]. by rewrite He, IH.
  - intros Hall. apply andb_prop in Hall as [Hsig Hall].
    apply orb_false_intro.
    + unfold isSecretEnvelope, isRpcSecret. simpl. rewrite getV_ofWire.
      unfold hasSecretSig in Hsig.
      destruct (getW specialSigKey props); simpl; try done.
      by apply negb_true_iff in Hsig.
    + clear Hsig. induction IH as [|[k v] props He _ IH]; simpl in *; [done|].
      apply andb_prop in Hall as [H1 H2]. by rewrite He, IH.
Qed.

Lemma deserializeString_plain (s : string) :
  hasSecret (deserializeString env s keepUnknowns) = false.
Proof.
  unfold deserializeString.
  destruct (String.eqb s unknownValue); [|done].
  by destruct (isDryRun env tt || truthy_opt keepUnknowns).
Qed.

Lemma deserializeProperty_falsy (w : Wire) (v : Value) :
  truthyW w = false -> deserializeProperty env w keepUnknowns = Ret v ->
  hasSecret v = false /\ v <> VStr specialSecretSig.
Proof.
  destruct w; simpl; try done; intros Ht Hv; simplify_eq; try done.
  destruct s; [|done]. done.
Qed.

Lemma constructReference_resource (urn : string) (ver : Wire) (v : Value) :
  constructReference env urn ver = Ret (Some v) -> exists r, v = VResource r.
Proof.
  unfold constructReference. intros Hc.
  apply bind_Ret in Hc as (parts & _ & Hc).
  apply bind_Ret in Hc as (ver' & _ & Hc).
  destruct (String.eqb (pkgName parts) "pulumi" && String.eqb (modName parts) "providers").
  - apply bind_Ret in Hc as ([pkg|] & _ & Hc); [|done].
    apply bind_Ret in Hc as (r & _ & Hc). simplify_eq. by exists r.
  - apply bind_Ret in Hc as ([m|] & _ & Hc); [|done].
    apply bind_Ret in Hc as (r & _ & Hc). simplify_eq. by exists r.
Qed.

Lemma getV_members (k : string) (members : list (string * Value)) :
  Forall (fun kv => isAssetOrArchive (snd kv) = true) members ->
  getV k members = VUndefined \/ isAssetOrArchive (getV k members) = true.
Proof.
  induction 1 as [|[k' a] members Ha _ IH]; simpl; [by left|].
  destruct (String.eqb k k'); [by right | done].
Qed.

Lemma archive_members_plain (members : list (string * Value)) :
  Forall (fun kv => isAssetOrArchive (snd kv) = true /\ hasSecret (snd kv) = false) members ->
  hasSecret (VArchive AssetArchive (VObj members)) = false.
Proof.
  intros Hall. simpl. apply orb_false_intro.
  - unfold isSecretEnvelope, isRpcSecret. simpl.
    destruct (getV_members specialSigKey members) as [->|Ha]; [|done|].
    { eapply Forall_impl; [exact Hall|]. by intros kv [? ?]. }
    by destruct (getV specialSigKey members).
  - induction Hall as [|[k a] members [_ Ha] _ IH]; simpl in *; [done|]. by rewrite Ha, IH.
Qed.

Section Members.
Context (f : Wire -> Outcome Value).

Lemma assetsLoop_members entries acc members :
  assetsLoop f entries acc = Ret members ->
  Forall (fun kv => forall a, f (snd kv) = Ret a -> hasSecret a = false) entries ->
  Forall (fun kv => isAssetOrArchive (snd kv) = true /\ hasSecret (snd kv) = false) acc ->
  Forall (fun kv => isAssetOrArchive (snd kv) = true /\ hasSecret (snd kv) = false) members.
Proof.
  revert acc. induction entries as [|[name w] entries IH]; intros acc; simpl.
  - intros. by simplify_eq.
  - intros Hr Hall Hacc. apply Forall_cons in Hall as [Hw Hall].
    apply bind_Ret in Hr as (a & Ha & Hr).
    destruct (isAssetOrArchive a) eqn:Hia; simpl in Hr; [|done].
    apply (IH _ Hr Hall).
    apply (Forall_setProp (fun a => isAssetOrArchive a = true /\ hasSecret a = false)); [|done].
    split; [done|]. by apply Hw.
Qed.

Lemma assetsLoopArray_members i entries acc members :
  assetsLoopArray f i entries acc = Ret members ->
  Forall (fun w => forall a, f w = Ret a -> hasSecret a = false) entries ->
  Forall (fun kv => isAssetOrArchive (snd kv) = true /\ hasSecret (snd kv) = false) acc ->
  Forall (fun kv => isAssetOrArchive (snd kv) = true /\ hasSecret (snd kv) = false) members.
Proof.
  revert i acc. induction entries as [|w entries IH]; intros i acc; simpl.
  - intros. by simplify_eq.
  - intros Hr Hall Hacc. apply Forall_cons in Hall as [Hw Hall].
    apply bind_Ret in Hr as (a & Ha & Hr).
    destruct (isAssetOrArchive a) eqn:Hia; simpl in Hr; [|done].
    apply (IH _ _ Hr Hall).
    apply (Forall_setProp (fun a => isAssetOrArchive a = true /\ hasSecret a = false)); [|done].
    split; [done|]. by apply Hw.
Qed.

End Members.

(** The array or the object assembled from unwrapped elements that hold no
    secret holds none. *)
Lemma unwrapped_array_plain (ds : list Value) :
  Forall (fun d => hasSecret (unwrapRpcSecret d) = false) ds ->
  hasSecret (VArr (map unwrapRpcSecret ds)) = false.
Proof.
  simpl. induction 1 as [|d ds Hd _ IH]; simpl; [done|]. by rewrite Hd, IH.
Qed.

Lemma withKeys_values {A} (P : Value -> Prop) (props : list (string * A)) (vs : list Value) :
  Forall P vs -> Forall (fun kv => P (snd kv)) (withKeys props vs).
Proof.
  unfold withKeys. intros Hvs. revert props.
  induction Hvs as [|v vs Hv _ IH]; intros [|[k a] props]; simpl; try constructor; done.
Qed.

Lemma getV_withKeys (k : string) (props : list (string * Wire)) (ds : list Value) (s : string) :
  Forall2 (fun kv d => deserializeProperty env (snd kv) keepUnknowns = Ret d) props ds ->
  getV k (withKeys props (map unwrapRpcSecret ds)) = VStr s ->
  exists w d, (k, w) ∈ props /\ deserializeProperty env w keepUnknowns = Ret d
              /\ unwrapRpcSecret d = VStr s.
Proof.
  unfold withKeys. induction 1 as [|[k' w] d props ds Hd _ IH]; simpl; [done|].
  destruct (String.eqb k k') eqn:E.
  - apply String.eqb_eq in E. subst k'. intros Hs. exists w, d. split; [left | done].
  - intros Hs. destruct (IH Hs) as (w' & d' & Hin & Hd' & Hu).
    exists w', d'. split; [by right | done].
Qed.

Lemma unwrapped_object_plain (props : list (string * Wire)) (ds : list Value) :
  NoDup (map fst props) ->
  truthyW (getW specialSigKey props) = false ->
  Forall2 (fun kv d => deserializeProperty env (snd kv) keepUnknowns = Ret d) props ds ->
  Forall (fun d => hasSecret (unwrapRpcSecret d) = false) ds ->
  hasSecret (VObj (withKeys props (map unwrapRpcSecret ds))) = false.
Proof.
  intros Hnd Hsig Hds Hall. simpl. apply orb_false_intro.
  - unfold isSecretEnvelope, isRpcSecret. simpl.
    destruct (getV specialSigKey (withKeys props (map unwrapRpcSecret ds))) eqn:Hg; try done.
    simpl. destruct (String.eqb s specialSecretSig) eqn:Es; [|done].
    apply String.eqb_eq in Es. subst s.
    destruct (getV_withKeys _ _ _ _ Hds Hg) as (w & d & Hin & Hd & Hu).
    rewrite <- (getW_NoDup _ _ _ Hnd Hin) in Hd.
    destruct (deserializeProperty_falsy _ _ Hsig Hd) as [Hplain Hne].
    apply hasSecret_false_plain in Hplain as [_ Hsame]. congruence.
  - assert (Forall (fun v => hasSecret v = false) (map unwrapRpcSecret ds)) as Hvs.
    { apply Forall_fmap. done. }
    pose proof (withKeys_values (fun v => hasSecret v = false) props _ Hvs) as Hw.
    induction Hw as [|[k v] l Hv _ IH]; simpl in *; [done|]. by rewrite Hv, IH.
Qed.

End SecretFacts.

Section SecretFree.
Context (env : Env) (keepUnknowns : option bool).

Lemma forallb_snd {A} (p : A -> bool) (props : list (string * A)) :
  forallb (fun kv => p (snd kv)) props = forallb p (map snd props).
Proof. induction props as [|[k a] props IH]; simpl; [done|]. by rewrite IH. Qed.

Lemma Forall_snd {A} (Q : A -> Prop) (props : list (string * A)) :
  Forall Q (map snd props) <-> Forall (fun kv => Q (snd kv)) props.
Proof.
  induction props as [|[k a] props IH]; simpl.
  - split; constructor.
  - rewrite !Forall_cons. by rewrite IH.
Qed.

Lemma plainResult_all (ws : list Wire) :
  Forall (deserializesPlain env keepUnknowns) ws ->
  forallb wellFormedW ws = true -> forallb secretFreeW ws = true ->
  Forall (fun w => forall a, deserializeProperty env w keepUnknowns = Ret a ->
                             hasSecret a = false) ws.
Proof.
  unfold deserializesPlain. induction 1 as [|w ws Hw _ IH]; simpl; [constructor|].
  intros Hwf Hsf. apply andb_prop in Hwf as [? ?]. apply andb_prop in Hsf as [? ?].
  constructor; [by apply Hw | by apply IH].
Qed.

Lemma plain_elements (ds : list Value) :
  Forall (fun d => hasSecret d = false) ds ->
  existsb isSecretEnvelope ds = false /\ map unwrapRpcSecret ds = ds.
Proof.
  induction 1 as [|d ds Hd _ [IH1 IH2]]; simpl; [done|].
  apply hasSecret_false_plain in Hd as [-> ->]. by rewrite IH1, IH2.
Qed.

Lemma Forall2_results {A} (g : A -> Wire) (l : list A) (ds : list Value) (P : Value -> Prop) :
  Forall2 (fun x d => deserializeProperty env (g x) keepUnknowns = Ret d) l ds ->
  Forall (fun w => forall a, deserializeProperty env w keepUnknowns = Ret a -> P a) (map g l) ->
  Forall P ds.
Proof.
  induction 1 as [|x d l ds Hd _ IH]; simpl; [constructor|].
  intros Hall. apply Forall_cons in Hall as [Hx Hall]. constructor; [by apply Hx | by apply IH].
Qed.

Lemma elem_of_forallb (p : Wire -> bool) (k : string) (w : Wire) (props : list (string * Wire)) :
  forallb (fun kv => p (snd kv)) props = true -> (k, w) ∈ props -> p w = true.
Proof.
  induction props as [|[k' v] props IH]; simpl; intros Hall Hin.
  { by apply elem_of_nil in Hin. }
  apply andb_prop in Hall as [Hv Hall].
  apply elem_of_cons in Hin as [Heq|Hin]; [by simplify_eq | by apply IH].
Qed.

Lemma truthyW_in (k : string) (props : list (string * Wire)) :
  truthyW (getW k props) = true -> (k, getW k props) ∈ props.
Proof.
  intros Ht. destruct (getW_in k props) as [E|Hin]; [|done]. by rewrite E in Ht.
Qed.

Lemma defined_in (k : string) (props : list (string * Wire)) :
  isUndefinedW (getW k props) = false -> (k, getW k props) ∈ props.
Proof.
  intros Ht. destruct (getW_in k props) as [E|Hin]; [|done]. by rewrite E in Ht.
Qed.

Lemma secretFree_plain_children (w : Wire) :
  deserializesPlain env keepUnknowns w /\ Forall (deserializesPlain env keepUnknowns) (children w).
Proof.
  induction w as [| | | | |elems IH|props IH] using Wire_nested_ind;
    unfold deserializesPlain in *; (split; [|try (by constructor)]).
  - done.
  - simpl. intros. by simplify_eq.
  - simpl. intros. by simplify_eq.
  - simpl. intros. by simplify_eq.
  - simpl. intros _ _ v Hv. simplify_eq. apply deserializeString_plain.
  - (* arrays *)
    intros Hwf Hsf v Hv. simpl in Hwf, Hsf, Hv.
    apply bind_Ret in Hv as (r & Hr & Hv).
    destruct (arrayLoop_Ret _ _ _ _ _ Hr) as (ds & Hds).
    rewrite (arrayLoop_Forall2 _ _ _ _ _ Hds) in Hr. simplify_eq.
    assert (Forall (fun d => hasSecret d = false) ds) as Hplain.
    { apply (Forall2_results (fun e => e) elems ds _ Hds). rewrite map_id.
      apply plainResult_all; try done.
      eapply Forall_impl; [exact IH|]. by intros c [Hc _]. }
    destruct (plain_elements ds Hplain) as [Hno Hsame].
    simpl in Hv. rewrite Hno, Hsame in Hv. simplify_eq.
    simpl. clear -Hplain. induction Hplain as [|d ds Hd _ IH]; simpl; [done|]. by rewrite Hd, IH.
  - simpl. eapply Forall_impl; [exact IH|]. by intros c [Hc _].
  - (* objects *)
    intros Hwf Hsf v Hv. simpl in Hwf, Hsf.
    apply andb_prop in Hwf as [Hnd Hwf]. apply bool_decide_eq_true in Hnd.
    apply andb_prop in Hsf as [Hsig Hsf]. apply negb_true_iff in Hsig.
    assert (forall k w, (k, w) ∈ props ->
              deserializesPlain env keepUnknowns w
              /\ Forall (deserializesPlain env keepUnknowns) (children w)) as Hchild.
    { intros k w Hin. rewrite Forall_forall in IH. apply (IH (k, w)). done. }
    assert (forall k, truthyW (getW k props) = true ->
              wellFormedW (getW k props) = true /\ secretFreeW (getW k props) = true) as Hget.
    { intros k Ht. apply truthyW_in in Ht.
      split; [by eapply elem_of_forallb | by eapply (elem_of_forallb secretFreeW)]. }
    cbn -[withProp getW constructReference] in Hv.
    destruct (truthyW (getW specialSigKey props)) eqn:Htsig.
    + destruct (getW specialSigKey props) as [| | | |s| |] eqn:Esig; try done.
      unfold hasSecretSig in Hsig. rewrite Esig in Hsig.
      destruct (String.eqb s specialAssetSig) eqn:E1.
      { repeat match type of Hv with
               | (if truthyW (getW ?k props) then _ else _) = _ =>
                   let Ht := fresh "Ht" in
                   destruct (truthyW (getW k props)) eqn:Ht;
                   [simplify_eq; simpl; apply ofWire_secretFree; by apply Hget|]
               end. done. }
      destruct (String.eqb s specialArchiveSig) eqn:E2.
      { destruct (truthyW (getW "assets" props)) eqn:Hta.
        - rewrite (withProp_getW _ _ _ _ Hta) in Hv.
          apply bind_Ret in Hv as (members & Hm & Hv). simplify_eq.
          destruct (Hget _ Hta) as [Hwfa Hsfa].
          destruct (Hchild _ _ (truthyW_in _ _ Hta)) as [_ Hgrand].
          apply archive_members_plain.
          destruct (getW "assets" props) as [| | | | |entries|entries] eqn:Ea;
            simpl in Hm; simplify_eq; try by constructor.
          + simpl in Hwfa, Hsfa, Hgrand.
            eapply assetsLoopArray_members; [exact Hm| |constructor].
            by apply plainResult_all.
          + simpl in Hwfa, Hsfa, Hgrand.
            apply andb_prop in Hwfa as [_ Hwfa]. apply andb_prop in Hsfa as [_ Hsfa].
            rewrite forallb_snd in Hwfa, Hsfa.
            eapply assetsLoop_members; [exact Hm| |constructor].
            apply (Forall_snd (fun w => forall a,
                     deserializeProperty env w keepUnknowns = Ret a -> hasSecret a = false)).
            by apply plainResult_all.
        - repeat match type of Hv with
               | (if truthyW (getW ?k props) then _ else _) = _ =>
                   let Ht := fresh "Ht" in
                   destruct (truthyW (getW k props)) eqn:Ht;
                   [simplify_eq; simpl; apply ofWire_secretFree; by apply Hget|]
               end. done. }
      destruct (String.eqb s specialSecretSig) eqn:E3; [done|].
      destruct (String.eqb s specialResourceSig) eqn:E4.
      { destruct (getW "urn" props) as [| | | |urn| |] eqn:Eurn; try done.
        apply bind_Ret in Hv as (constructed & Hc & Hv).
        destruct constructed as [resource|].
        - simplify_eq. apply constructReference_resource in Hc as [r ->]. done.
        - destruct (truthyW (getW "id" props)) eqn:Htid; [|by simplify_eq].
          rewrite (withProp_getW _ _ _ _ Htid) in Hv.
          destruct (Hget _ Htid) as [Hwfi Hsfi].
          destruct (Hchild _ _ (truthyW_in _ _ Htid)) as [Hid _].
          destruct (getW "id" props) as [| | | |[|c s']| |] eqn:Eid; try done;
            by apply Hid. }
      destruct (String.eqb s specialOutputValueSig) eqn:E5; [|done].
      apply bind_Ret in Hv as (value & Hval & Hv). simplify_eq. simpl.
      destruct (isUndefinedW (getW "value" props)) eqn:Hu; simpl in Hval; [by simplify_eq|].
      rewrite (withProp_defined _ _ _ _ Hu) in Hval.
      pose proof (defined_in _ _ Hu) as Hin.
      destruct (Hchild _ _ Hin) as [Hvalue _]. apply Hvalue; try done.
      * by eapply elem_of_forallb.
      * by eapply (elem_of_forallb secretFreeW).
    + (* no signature *)
      apply bind_Ret in Hv as (r & Hr & Hv).
      destruct (objectLoop_Ret _ _ _ _ _ Hr) as (ds & Hds).
      rewrite (objectLoop_Forall2 _ _ _ _ _ Hds) in Hr by done. simplify_eq.
      assert (Forall (fun d => hasSecret d = false) ds) as Hplain.
      { apply (Forall2_results snd props ds _ Hds).
        rewrite forallb_snd in Hwf, Hsf.
        apply plainResult_all; try done.
        apply Forall_snd. eapply Forall_impl; [exact IH|]. by intros c [Hc _]. }
      destruct (plain_elements ds Hplain) as [Hno Hsame].
      simpl in Hv. rewrite Hno in Hv. simplify_eq.
      apply (unwrapped_object_plain env keepUnknowns); try done.
      eapply Forall_impl; [exact Hplain|].
      intros d Hd. by destruct (hasSecret_false_plain d Hd) as [_ ->].
  - simpl. apply Forall_snd. eapply Forall_impl; [exact IH|]. by intros c [Hc _].
Qed.

Lemma secretFree_plain (w : Wire) (v : Value) :
  wellFormedW w = true -> secretFreeW w = true ->
  deserializeProperty env w keepUnknowns = Ret v -> hasSecret v = false.
Proof. intros Hwf Hsf. by apply (proj1 (secretFree_plain_children w)). Qed.

End SecretFree.

Section Bubbling.
Context (env : Env) (keepUnknowns : option bool).

Lemma withProp_Ret (f : Wire -> Outcome Value) k absent props x :
  withProp f k absent props = Ret x ->
  absent = Ret x \/ exists w, (k, w) ∈ props /\ f w = Ret x.
Proof.
  induction props as [|[k' v] props IH]; simpl; [by left|].
  destruct (String.eqb k k') eqn:E.
  - apply String.eqb_eq in E. subst k'. intros Hx. right. exists v. split; [left | done].
  - intros Hx. destruct (IH Hx) as [?|(w & Hin & Hw)]; [by left|].
    right. exists w. split; [by right | done].
Qed.

Lemma plain_unwrapped (v : Value) :
  hasSecret v = false -> hasSecret (unwrapRpcSecret v) = false.
Proof. intros Hv. by destruct (hasSecret_false_plain v Hv) as [_ ->]. Qed.

(** When secret envelopes occur only as elements of arrays and of objects
    without signature, a deserialized value holds a secret envelope at most
    at its top. *)
Lemma flatSecrets_top (w : Wire) (v : Value) :
  wellFormedW w = true -> flatSecretsW w = true ->
  deserializeProperty env w keepUnknowns = Ret v ->
  hasSecret (unwrapRpcSecret v) = false.
Proof.
  revert v.
  induction w as [| | | | |elems IH|props IH] using Wire_nested_ind; intros v Hwf Hflat Hv.
  - done.
  - simpl in Hv. simplify_eq. by apply plain_unwrapped.
  - simpl in Hv. simplify_eq. by apply plain_unwrapped.
  - simpl in Hv. simplify_eq. by apply plain_unwrapped.
  - simpl in Hv. simplify_eq. apply plain_unwrapped, deserializeString_plain.
  - simpl in Hwf, Hflat, Hv.
    apply bind_Ret in Hv as (r & Hr & Hv).
    destruct (arrayLoop_Ret _ _ _ _ _ Hr) as (ds & Hds).
    rewrite (arrayLoop_Forall2 _ _ _ _ _ Hds) in Hr. simplify_eq.
    assert (Forall (fun d => hasSecret (unwrapRpcSecret d) = false) ds) as Htop.
    { clear Hv. induction Hds as [|e d elems ds Hd _ IHds]; [constructor|].
      simpl in Hwf, Hflat.
      apply andb_prop in Hwf as [? ?]. apply andb_prop in Hflat as [? ?].
      apply Forall_cons in IH as [He IH].
      constructor; [by apply He | by apply IHds]. }
    pose proof (unwrapped_array_plain ds Htop) as Hplain.
    simpl in Hv. destruct (existsb isSecretEnvelope ds); simplify_eq.
    + by rewrite (proj1 (unwrapRpcSecret_secretEnvelope _)).
    + by apply plain_unwrapped.
  - simpl in Hwf, Hflat.
    apply andb_prop in Hwf as [Hnd Hwf]. apply bool_decide_eq_true in Hnd.
    destruct (truthyW (getW specialSigKey props)) eqn:Htsig.
    + destruct (hasSecretSig props) eqn:Hsig.
      * unfold hasSecretSig in Hsig.
        destruct (getW specialSigKey props) as [| | | |s| |] eqn:Esig; try done.
        apply String.eqb_eq in Hsig. subst s.
        cbn -[withProp getW constructReference] in Hv. rewrite Esig in Hv.
        cbn -[withProp getW constructReference] in Hv.
        apply bind_Ret in Hv as (x & Hx & Hv). simplify_eq.
        rewrite (proj1 (unwrapRpcSecret_secretEnvelope _)).
        apply withProp_Ret in Hx as [?|(w & Hin & Hw)]; [done|].
        apply (secretFree_plain env keepUnknowns w); try done.
        -- by eapply elem_of_forallb.
        -- by eapply (elem_of_forallb secretFreeW).
      * apply plain_unwrapped. apply (secretFree_plain env keepUnknowns (WObj props)); try done.
        -- simpl. rewrite Hwf. by rewrite bool_decide_eq_true_2.
        -- simpl. by rewrite Hsig, Hflat.
    + cbn -[withProp getW constructReference] in Hv. rewrite Htsig in Hv.
      apply bind_Ret in Hv as (r & Hr & Hv).
      destruct (objectLoop_Ret _ _ _ _ _ Hr) as (ds & Hds).
      rewrite (objectLoop_Forall2 _ _ _ _ _ Hds) in Hr by done. simplify_eq.
      assert (Forall (fun d => hasSecret (unwrapRpcSecret d) = false) ds) as Htop.
      { clear Hv Hnd Htsig. induction Hds as [|[k e] d props ds Hd _ IHds]; [constructor|].
        simpl in Hwf, Hflat.
        apply andb_prop in Hwf as [? ?]. apply andb_prop in Hflat as [? ?].
        apply Forall_cons in IH as [He IH].
        constructor; [by apply He | by apply IHds]. }
      pose proof (unwrapped_object_plain env keepUnknowns props ds Hnd Htsig Hds Htop) as Hplain.
      simpl in Hv. destruct (existsb isSecretEnvelope ds); simplify_eq.
      * by rewrite (proj1 (unwrapRpcSecret_secretEnvelope _)).
      * by apply plain_unwrapped.
Qed.

(** C5, as amended. When at least one element of a wire array, or one entry
    of a wire object without signature, deserializes to a secret envelope,
    [deserializeProperty] returns one secret envelope around the array or
    object of the elements, each unwrapped by one level; and no secret
    envelope remains inside it when the secret envelopes of the input occur
    only as elements of arrays and of objects without signature, not inside
    the payload of another envelope. *)
Theorem deserializeProperty_bubbles_secrets :
  (forall (elems : list Wire) (ds : list Value),
      Forall2 (fun e d => deserializeProperty env e keepUnknowns = Ret d) elems ds ->
      Exists (fun d => isSecretEnvelope d = true) ds ->
      deserializeProperty env (WArr elems) keepUnknowns
      = Ret (secretEnvelope (VArr (map unwrapRpcSecret ds)))
      /\ (wellFormedW (WArr elems) = true -> flatSecretsW (WArr elems) = true ->
          hasSecret (VArr (map unwrapRpcSecret ds)) = false))
  /\ (forall (props : list (string * Wire)) (ds : list Value),
      NoDup (map fst props) ->
      truthyW (getW specialSigKey props) = false ->
      Forall2 (fun kv d => deserializeProperty env (snd kv) keepUnknowns = Ret d) props ds ->
      Exists (fun d => isSecretEnvelope d = true) ds ->
      deserializeProperty env (WObj props) keepUnknowns
      = Ret (secretEnvelope (VObj (withKeys props (map unwrapRpcSecret ds))))
      /\ (wellFormedW (WObj props) = true -> flatSecretsW (WObj props) = true ->
          hasSecret (VObj (withKeys props (map unwrapRpcSecret ds))) = false)).
Proof.
  assert (forall ds, Exists (fun d => isSecretEnvelope d = true) ds ->
                     existsb isSecretEnvelope ds = true) as Hex.
  { intros ds. induction 1 as [d ds Hd|d ds _ IH]; simpl.
    - by rewrite Hd.
    - rewrite IH. apply orb_true_r. }
  split.
  - intros elems ds Hds Hsecret.
    assert (deserializeProperty env (WArr elems) keepUnknowns
            = Ret (secretEnvelope (VArr (map unwrapRpcSecret ds)))) as Hv.
    { simpl. rewrite (arrayLoop_Forall2 _ _ _ _ _ Hds). simpl. by rewrite (Hex _ Hsecret). }
    split; [done|]. intros Hwf Hflat.
    pose proof (flatSecrets_top _ _ Hwf Hflat Hv) as Htop.
    by rewrite (proj1 (unwrapRpcSecret_secretEnvelope _)) in Htop.
  - intros props ds Hnd Hsig Hds Hsecret.
    assert (deserializeProperty env (WObj props) keepUnknowns
            = Ret (secretEnvelope (VObj (withKeys props (map unwrapRpcSecret ds))))) as Hv.
    { cbn -[withProp getW constructReference]. rewrite Hsig.
      rewrite (objectLoop_Forall2 _ _ _ _ _ Hds) by done. simpl. by rewrite (Hex _ Hsecret). }
    split; [done|]. intros Hwf Hflat.
    pose proof (flatSecrets_top _ _ Hwf Hflat Hv) as Htop.
    by rewrite (proj1 (unwrapRpcSecret_secretEnvelope _)) in Htop.
Qed.

End Bubbling.

Lemma deserializeProperty_bubbles_secrets_witness :
  deserializeProperty (exampleEnv false)
    (WObj [("x", WObj [(specialSigKey, WStr specialSecretSig); ("value", WStr "hi")])]) None
  = Ret (secretEnvelope (VObj [("x", VStr "hi")]))
  /\ hasSecret (VObj [("x", VStr "hi")]) = false.
Proof.
  destruct (proj2 (deserializeProperty_bubbles_secrets (exampleEnv false) None)
              [("x", WObj [(specialSigKey, WStr specialSecretSig); ("value", WStr "hi")])]
              [secretEnvelope (VStr "hi")]) as [Hv Hplain].
  - repeat constructor. intros Hin. by apply elem_of_nil in Hin.
  - reflexivity.
  - repeat constructor.
  - by left.
  - split; [exact Hv | by apply Hplain].
Defined.

(** A secret envelope whose payload is again a secret envelope keeps the
    inner envelope: it remains inside the array that is returned. *)
Lemma deserializeProperty_nested_secret_remains :
  let inner := WObj [(specialSigKey, WStr specialSecretSig); ("value", WStr "s")] in
  let outer := WObj [(specialSigKey, WStr specialSecretSig); ("value", inner)] in
  exists d,
    deserializeProperty (exampleEnv false) outer None = Ret d
    /\ isSecretEnvelope d = true
    /\ deserializeProperty (exampleEnv false) (WArr [outer]) None
       = Ret (secretEnvelope (VArr [secretEnvelope (VStr "s")]))
    /\ hasSecret (VArr [secretEnvelope (VStr "s")]) = true.
Proof.
  intros inner outer. eexists. repeat split; reflexivity.
Qed.

(** ** Top-level undefined outputs *)

Section TopLevel.
Context (env : Env) (keepUnknowns : option bool).

Lemma deserializePropertiesLoop_filter outputs props :
  deserializePropertiesLoop env outputs keepUnknowns props
  = deserializePropertiesLoop env
      (List.filter (fun kv => negb (isUndefinedW (snd kv))) outputs) keepUnknowns props.
Proof.
  revert props. induction outputs as [|[k w] outputs IH]; intros props; simpl; [done|].
  destruct (negb (isUndefinedW w)) eqn:E; simpl; rewrite ?E; [|apply IH].
  destruct (deserializeProperty env w keepUnknowns); simpl; done.
Qed.

Lemma hasOwnProperty_setProp {A} (k k' : string) (v : A) props :
  hasOwnProperty k (setProp k' v props) = String.eqb k k' || hasOwnProperty k props.
Proof.
  unfold hasOwnProperty. induction props as [|[k0 v0] props IH]; simpl.
  - by rewrite orb_false_r.
  - destruct (String.eqb k' k0) eqn:E0; simpl.
    + apply String.eqb_eq in E0. subst k0.
      by destruct (String.eqb k k').
    + rewrite IH. destruct (String.eqb k k0), (String.eqb k k'); done.
Qed.

Lemma deserializePropertiesLoop_keys outputs props result k :
  deserializePropertiesLoop env outputs keepUnknowns props = Ret result ->
  hasOwnProperty k result = true ->
  hasOwnProperty k props = true \/ exists w, (k, w) ∈ outputs /\ w <> WUndefined.
Proof.
  revert props. induction outputs as [|[k' w] outputs IH]; intros props; simpl.
  { intros. simplify_eq. by left. }
  destruct (isUndefinedW w) eqn:E; simpl.
  - intros Hr Hk. destruct (IH _ Hr Hk) as [?|(w' & Hin & Hne)]; [by left|].
    right. exists w'. split; [by right | done].
  - intros Hr Hk. apply bind_Ret in Hr as (d & Hd & Hr).
    destruct (IH _ Hr Hk) as [Hown|(w' & Hin & Hne)].
    + rewrite hasOwnProperty_setProp in Hown. apply orb_prop in Hown as [Heq|?]; [|by left].
      apply String.eqb_eq in Heq. subst k'. right. exists w. split; [left|].
      intros ->. done.
    + right. exists w'. split; [by right | done].
Qed.

Lemma deserializePropertiesLoop_throws outputs props e :
  deserializePropertiesLoop env outputs keepUnknowns props = Throw e ->
  exists k w, (k, w) ∈ outputs /\ w <> WUndefined
              /\ deserializeProperty env w keepUnknowns = Throw e.
Proof.
  revert props. induction outputs as [|[k w] outputs IH]; intros props; simpl; [done|].
  destruct (isUndefinedW w) eqn:E; simpl.
  - intros Hr. destruct (IH _ Hr) as (k' & w' & Hin & Hne & Hw').
    exists k', w'. split; [by right | done].
  - destruct (deserializeProperty env w keepUnknowns) as [d| | |] eqn:Hd; simpl; try done.
    + intros Hr. destruct (IH _ Hr) as (k' & w' & Hin & Hne & Hw').
      exists k', w'. split; [by right | done].
    + intros Hr. simplify_eq. exists k, w. split; [left|]. split; [|done].
      intros ->. done.
Qed.

(** C10. [deserializeProperties] drops every top-level key whose value is
    [undefined] and raises nothing for it, although [deserializeProperty]
    raises on [undefined]: the struct deserializes like the struct without
    these keys, the result has none of them, and the error "unexpected
    undefined property value" can only come out of deserializing a retained
    entry, whose value is not [undefined] itself. *)
Theorem deserializeProperties_skips_undefined (outputs : list (string * Wire)) :
  deserializeProperties env outputs keepUnknowns
  = deserializeProperties env
      (List.filter (fun kv => negb (isUndefinedW (snd kv))) outputs) keepUnknowns
  /\ (forall props k,
        deserializeProperties env outputs keepUnknowns = Ret props ->
        hasOwnProperty k props = true ->
        exists w, (k, w) ∈ outputs /\ w <> WUndefined)
  /\ deserializeProperty env WUndefined keepUnknowns = Throw UnexpectedUndefined
  /\ (deserializeProperties env outputs keepUnknowns = Throw UnexpectedUndefined ->
      exists k w, (k, w) ∈ outputs /\ w <> WUndefined
                  /\ deserializeProperty env w keepUnknowns = Throw UnexpectedUndefined).
Proof.
  unfold deserializeProperties. split; [apply deserializePropertiesLoop_filter|].
  split.
  { intros props k Hr Hk.
    by destruct (deserializePropertiesLoop_keys _ _ _ _ Hr Hk) as [?|?]. }
  split; [done|]. apply deserializePropertiesLoop_throws.
Qed.

End TopLevel.

Lemma deserializeProperties_skips_undefined_witness :
  deserializeProperties (exampleEnv false) [("a", WUndefined); ("b", WNull)] None
  = Ret [("b", VNull)]
  /\ exists k w, (k, w) ∈ [("a", WUndefined); ("b", WArr [WUndefined])] /\ w <> WUndefined
       /\ deserializeProperty (exampleEnv false) w None = Throw UnexpectedUndefined.
Proof.
  split.
  - rewrite (proj1 (deserializeProperties_skips_undefined (exampleEnv false) None
                      [("a", WUndefined); ("b", WNull)])).
    reflexivity.
  - apply (proj2 (proj2 (proj2 (deserializeProperties_skips_undefined (exampleEnv false) None
                      [("a", WUndefined); ("b", WArr [WUndefined])])))).
    reflexivity.
Defined.

(** ** The forward marshaler *)

Section SerializeFacts.
Context (env : Env).

(** An output settled to a string, serialized without keeping output
    values. *)
Lemma serializeProperty_string_output (fuel : nat) (rs : list Resource) (s : string)
    (known : bool) (secret : Value) (deps : option (list Resource))
    (opts : option SerializationOptions) :
  optKeepOutputValues opts = false ->
  serializeProperty env (S (S (S fuel)))
    (VOutput (Fulfilled rs) (Fulfilled (VStr s)) (Fulfilled known) (Fulfilled secret))
    deps opts
  = (Ret (collapsedOutput env known
            (match secret with VBool true => true | _ => false end) (WStr s)),
     trackAll rs deps).
Proof.
  intros Hopts. simpl. unfold serializeOutput. simpl. rewrite Hopts. simpl.
  unfold collapsedOutput.
  assert (trackAll [] (trackAll rs deps) = trackAll rs deps) as ->.
  { by destruct deps. }
  destruct known; simpl; [|done].
  by destruct (_ && supportsSecrets (getStore env tt)).
Qed.

(** C9. [serializeProperty] on a component serializes its [urn] and nothing
    else of it: it returns the resource-reference envelope of the serialized
    URN when the monitor supports resource references and the serialized URN
    itself otherwise; so for a component whose URN is settled it returns
    whatever the properties of the component refer to, the component itself
    included. *)
Theorem serializeProperty_component (r : Resource)
    (dependentResources : option (list Resource))
    (opts : option SerializationOptions) :
  kind (resourceObject env r) = ComponentResource ->
  (forall fuel u d,
      serializeProperty env fuel (urn (resourceObject env r))
        (if supportsResourceReferences (getStore env tt) && optExcludeResourceReferences opts
         then None else dependentResources)
        dontKeepOutputValues = (Ret u, d) ->
      fst (serializeProperty env (S fuel) (VResource r) dependentResources opts)
      = Ret (if supportsResourceReferences (getStore env tt)
             then componentReference u else u))
  /\ (forall rs s known secret fuel,
        urn (resourceObject env r)
        = VOutput (Fulfilled rs) (Fulfilled (VStr s)) (Fulfilled known) (Fulfilled secret) ->
        4 <= fuel ->
        fst (serializeProperty env fuel (VResource r) dependentResources opts)
        = Ret (let u := collapsedOutput env known
                          (match secret with VBool true => true | _ => false end) (WStr s) in
               if supportsResourceReferences (getStore env tt)
               then componentReference u else u)).
Proof.
  intros Hkind.
  assert (forall fuel u d,
      serializeProperty env fuel (urn (resourceObject env r))
        (if supportsResourceReferences (getStore env tt) && optExcludeResourceReferences opts
         then None else dependentResources)
        dontKeepOutputValues = (Ret u, d) ->
      fst (serializeProperty env (S fuel) (VResource r) dependentResources opts)
      = Ret (if supportsResourceReferences (getStore env tt)
             then componentReference u else u)) as Hgeneral.
  { intros fuel u d Hu. simpl. rewrite Hkind. unfold serializeComponentResource.
    destruct (supportsResourceReferences (getStore env tt)); simpl in *.
    - rewrite Hu. simpl. done.
    - by rewrite Hu. }
  split; [exact Hgeneral|].
  intros rs s known secret fuel Hurn Hfuel.
  destruct fuel as [|[|[|[|fuel]]]]; try lia.
  eapply Hgeneral. rewrite Hurn. by apply serializeProperty_string_output.
Qed.

End SerializeFacts.

Lemma serializeProperty_component_witness :
  kind (resourceObject (exampleEnv false) 2%positive) = ComponentResource
  /\ getV "self" (properties (resourceObject (exampleEnv false) 2%positive))
     = VResource 2%positive
  /\ fst (serializeProperty (exampleEnv false) 4 (VResource 2%positive) (Some []) None)
     = Ret (componentReference (WStr "urn:C")).
Proof.
  split; [reflexivity|]. split; [reflexivity|].
  exact (proj2 (serializeProperty_component (exampleEnv false) 2%positive (Some []) None
                  eq_refl)
           [2%positive] "urn:C" true (VBool false) 4 eq_refl (le_n 4)).
Defined.

Section OutputValues.
Context (env : Env).


End OutputValues.


(** ** Dependencies of resource references *)

Lemma elem_of_setAdd (x r : Resource) (s : list Resource) :
  x ∈ setAdd r s <-> x = r \/ x ∈ s.
Proof.
  unfold setAdd. case_bool_decide as Hin.
  - split; [by right|]. intros [->|?]; done.
  - rewrite elem_of_app, list_elem_of_singleton. tauto.
Qed.

Lemma setAdd_present (r : Resource) (s : list Resource) : r ∈ s -> setAdd r s = s.
Proof. intros Hin. unfold setAdd. by rewrite bool_decide_eq_true_2. Qed.

Lemma setAdd_idem (r : Resource) (s : list Resource) : setAdd r (setAdd r s) = setAdd r s.
Proof. apply setAdd_present, elem_of_setAdd. by left. Qed.

Lemma elem_of_setAddAll (x : Resource) (rs s : list Resource) :
  x ∈ setAddAll rs s <-> x ∈ rs \/ x ∈ s.
Proof.
  unfold setAddAll. revert s. induction rs as [|r rs IH]; intros s; simpl.
  - split; [by right|]. intros [Hin|?]; [by apply elem_of_nil in Hin | done].
  - rewrite IH, elem_of_setAdd, elem_of_cons. tauto.
Qed.

Lemma setAddAll_app (a b s : list Resource) :
  setAddAll (a ++ b) s = setAddAll b (setAddAll a s).
Proof. unfold setAddAll. apply fold_left_app. Qed.

Section Dependencies.
Context (env : Env) (opts : option SerializationOptions).

Lemma serializeProperty_custom (r : Resource) (fuel : nat) (d0 : list Resource) :
  plainCustomResource env r -> 4 <= fuel ->
  exists w, serializeProperty env fuel (VResource r) (Some d0) opts
            = (Ret w, Some (trackedResources env opts [r] d0)).
Proof.
  intros (Hkind & (si & ki & seci & Hid) & (su & ku & secu & Hurn)) Hfuel.
  destruct fuel as [|[|[|[|fuel]]]]; try lia.
  change (serializeProperty env (S (S (S (S fuel)))) (VResource r) (Some d0) opts)
    with (serializeBody env (serializeProperty env (S (S (S fuel)))) (VResource r)
            (Some d0) opts).
  unfold serializeBody. rewrite Hkind.
  unfold serializeCustomResource, trackedResources. rewrite Hid, Hurn.
  rewrite !serializeProperty_string_output by done. cbn [andThen].
  destruct (supportsResourceReferences (getStore env tt)) eqn:Hrr;
    destruct (optExcludeResourceReferences opts) eqn:Hex; cbn [andb trackAll option_map];
    rewrite ?serializeProperty_string_output by done; cbn [andThen];
    try (eexists; reflexivity);
    unfold setAddAll; cbn [fold_left]; rewrite ?setAdd_idem; eexists; reflexivity.
Qed.

Section Loops.
Context (rec : Value -> option (list Resource) -> option SerializationOptions
               -> Serialized Wire).

Lemma serializeElements_tracked (elems : list Value) (result : list Wire)
    (d0 : list Resource) :
  Forall (fun p => forall d, exists w,
              rec p (Some d) opts
              = (Ret w, Some (trackedResources env opts (resourcesOf p) d))) elems ->
  exists w, serializeElements rec elems result (Some d0) opts
            = (Ret w, Some (trackedResources env opts (flat_map resourcesOf elems) d0)).
Proof.
  intros Hall. revert result d0.
  induction Hall as [|p elems Hp _ IH]; intros result d0; simpl.
  - eexists. unfold trackedResources. by destruct (_ && _).
  - destruct (Hp d0) as (w & ->). simpl.
    destruct (IH (result ++ [if isUndefinedW w then WNull else w])
                (trackedResources env opts (resourcesOf p) d0)) as (w' & ->).
    exists w'. f_equal. f_equal. unfold trackedResources.
    destruct (_ && _); [done|]. by rewrite setAddAll_app.
Qed.

Lemma serializeAllKeys_tracked (props : list (string * Value)) (obj : list (string * Wire))
    (d0 : list Resource) :
  Forall (fun kv => forall d, exists w,
              rec (snd kv) (Some d) opts
              = (Ret w, Some (trackedResources env opts (resourcesOf (snd kv)) d))) props ->
  exists w, serializeAllKeys rec props obj (Some d0) opts
            = (Ret w, Some (trackedResources env opts
                              (flat_map (fun kv => resourcesOf (snd kv)) props) d0)).
Proof.
  intros Hall. revert obj d0.
  induction Hall as [|[k p] props Hp _ IH]; intros obj d0; simpl.
  - eexists. unfold trackedResources. by destruct (_ && _).
  - simpl in Hp. destruct (Hp d0) as (w & ->). simpl.
    destruct (IH (if isUndefinedW w then obj else setProp k w obj)
                (trackedResources env opts (resourcesOf p) d0)) as (w' & ->).
    exists w'. f_equal. f_equal. unfold trackedResources.
    destruct (_ && _); [done|]. by rewrite setAddAll_app.
Qed.

End Loops.

Lemma max_le_all (A : Type) (g : A -> nat) (l : list A) (n : nat) :
  fold_right (fun x m => Nat.max (g x) m) 0 l <= n -> Forall (fun x => g x <= n) l.
Proof.
  induction l as [|x l IH]; simpl; [constructor|].
  intros Hmax. constructor; [lia | apply IH; lia].
Qed.

Lemma serializeProperty_tracked (v : Value) :
  referenceTree v = true ->
  (forall r, r ∈ resourcesOf v -> plainCustomResource env r) ->
  forall fuel d0, callDepth v <= fuel ->
    exists w, serializeProperty env fuel v (Some d0) opts
              = (Ret w, Some (trackedResources env opts (resourcesOf v) d0)).
Proof.
  revert v.
  apply (Value_nested_ind (fun v =>
    referenceTree v = true ->
    (forall r, r ∈ resourcesOf v -> plainCustomResource env r) ->
    forall fuel d0, callDepth v <= fuel ->
      exists w, serializeProperty env fuel v (Some d0) opts
                = (Ret w, Some (trackedResources env opts (resourcesOf v) d0))));
    [intros v | intros elems IH | intros props IH].
  - destruct v; try done; intros Htree Hres fuel d0 Hfuel; simpl in *;
      try (destruct fuel as [|fuel]; [lia|]; simpl; eexists; unfold trackedResources;
           by destruct (_ && _)).
    apply serializeProperty_custom; [|done]. apply Hres. left.
  - intros Htree Hres fuel d0 Hfuel. simpl in Htree, Hres, Hfuel.
    destruct fuel as [|fuel]; [lia|]. simpl.
    apply serializeElements_tracked.
    apply le_S_n in Hfuel. apply max_le_all in Hfuel.
    clear d0. induction IH as [|p elems Hp _ IHl]; [constructor|].
    simpl in Htree. apply andb_prop in Htree as [Hp1 Htree].
    apply Forall_cons in Hfuel as [Hf1 Hfuel].
    constructor.
    + intros d. apply Hp; try done.
      intros r Hr. apply Hres. simpl. apply elem_of_app. by left.
    + apply IHl; try done.
      intros r Hr. apply Hres. simpl. apply elem_of_app. by right.
  - intros Htree Hres fuel d0 Hfuel. simpl in Htree, Hres, Hfuel.
    destruct fuel as [|fuel]; [lia|]. simpl.
    apply serializeAllKeys_tracked.
    apply le_S_n in Hfuel. apply (max_le_all _ (fun kv => callDepth (snd kv))) in Hfuel.
    clear d0. induction IH as [|[k p] props Hp _ IHl]; [constructor|].
    simpl in Htree. apply andb_prop in Htree as [Hp1 Htree].
    apply Forall_cons in Hfuel as [Hf1 Hfuel].
    constructor.
    + intros d. apply Hp; try done.
      intros r Hr. apply Hres. simpl. apply elem_of_app. by left.
    + apply IHl; try done.
      intros r Hr. apply Hres. simpl. apply elem_of_app. by right.
Qed.

(** C6, as amended. For a value built from primitives, arrays, objects and
    custom resources whose [id] and [urn] depend on the resource alone,
    [serializeProperty] returns, and the dependency set it fills is empty
    when references are excluded and the monitor supports resource
    references, and is the set of the resources of the value otherwise. *)
Theorem serializeProperty_dependencies (v : Value) (fuel : nat) :
  referenceTree v = true ->
  (forall r, r ∈ resourcesOf v -> plainCustomResource env r) ->
  callDepth v <= fuel ->
  exists w deps,
    serializeProperty env fuel v (Some []) opts = (Ret w, Some deps)
    /\ if optExcludeResourceReferences opts && supportsResourceReferences (getStore env tt)
       then deps = []
       else forall r, r ∈ deps <-> r ∈ resourcesOf v.
Proof.
  intros Htree Hres Hfuel.
  destruct (serializeProperty_tracked v Htree Hres fuel [] Hfuel) as (w & Hw).
  exists w. eexists. split; [exact Hw|]. unfold trackedResources.
  destruct (_ && _); [done|]. intros r. rewrite elem_of_setAddAll.
  split; [|by left]. intros [?|Hin]; [done | by apply elem_of_nil in Hin].
Qed.

End Dependencies.

Lemma serializeProperty_dependencies_witness :
  let v := VObj [("a", VResource 1%positive);
                 ("b", VArr [VResource 3%positive; VNull; VResource 1%positive])] in
  exists w deps,
    serializeProperty (exampleEnv false) 6 v (Some []) None = (Ret w, Some deps)
    /\ forall r, r ∈ deps <-> r ∈ resourcesOf v.
Proof.
  intros v.
  apply (serializeProperty_dependencies (exampleEnv false) None v 6).
  - reflexivity.
  - intros r Hr. simpl in Hr.
    assert (r = 1%positive \/ r = 3%positive) as [-> | ->].
    { repeat (apply elem_of_cons in Hr as [Hr|Hr]; [by auto|]). by apply elem_of_nil in Hr. }
    + split; [reflexivity|]. split; by eexists _, _, _.
    + split; [reflexivity|]. split; by eexists _, _, _.
  - simpl. lia.
Defined.

(** Without support for resource references the resource is a dependency
    whatever the option says, where the specification words the set as
    empty; and a resource inside an output is a dependency although
    references are excluded. *)
Lemma serializeProperty_dependencies_not_as_specified :
  let noReferences := exampleEnvWith {| supportsSecrets := true;
                                        supportsResourceReferences := false;
                                        supportsOutputValues := true |} false in
  let excluding := Some {| keepOutputValues := None;
                           excludeResourceReferencesFromDependencies := Some true |} in
  (snd (serializeProperty noReferences 5 (VResource 1%positive) (Some []) None)
   = Some [1%positive]
   /\ dependenciesAsSpecified noReferences None (VResource 1%positive) = [])
  /\ (snd (serializeProperty (exampleEnv false) 7
             (VOutput (Fulfilled []) (Fulfilled (VResource 1%positive)) (Fulfilled true)
                (Fulfilled (VBool false)))
             (Some []) excluding)
      = Some [1%positive]
      /\ snd (serializeProperty (exampleEnv false) 7 (VResource 1%positive) (Some []) excluding)
         = Some []).
Proof.
  intros noReferences excluding. repeat split; reflexivity.
Qed.

(** ** Scenarios of the specification *)

(** Undefined entries are omitted from objects and become [null] in
    arrays. *)
Example serialize_undefined_entries :
  serializeProperty (exampleEnv false) 3
    (VObj [("a", VNum 1); ("b", VUndefined); ("c", VArr [VNum 2; VUndefined])])
    (Some []) None
  = (Ret (WObj [("a", WNum 1); ("c", WArr [WNum 2; WNull])]), Some []).
Proof. reflexivity. Qed.

(** A secret output is wrapped when secrets are supported, and the wrapping
    bubbles up when the result is deserialized. *)
Example serialize_secret_output :
  serializeProperty (exampleEnv false) 4
    (VObj [("x", VOutput (Fulfilled []) (Fulfilled (VStr "hi")) (Fulfilled true)
                   (Fulfilled (VBool true)))])
    (Some []) None
  = (Ret (WObj [("x", WObj [(specialSigKey, WStr specialSecretSig); ("value", WStr "hi")])]),
     Some []).
Proof. reflexivity. Qed.

(** A known output collapses to its value and reports its resources. *)
Example serialize_known_output :
  serializeProperty (exampleEnv false) 3
    (VOutput (Fulfilled [1%positive]) (Fulfilled (VNum 42)) (Fulfilled true)
       (Fulfilled (VBool false)))
    (Some [])
    (Some {| keepOutputValues := Some false;
             excludeResourceReferencesFromDependencies := None |})
  = (Ret (WNum 42), Some [1%positive]).
Proof. reflexivity. Qed.

(** An unknown output collapses to the unknown marker. *)
Example serialize_unknown_output :
  fst (serializeProperty (exampleEnv false) 3
         (VOutput (Fulfilled []) (Fulfilled VUndefined) (Fulfilled false)
            (Fulfilled (VBool false)))
         (Some []) None)
  = Ret (WStr "04da6b54-80e4-46f7-96ec-b56ff0331ba9").
Proof. reflexivity. Qed.

(** An output kept as an output value. *)
Example serialize_output_value :
  fst (serializeProperty (exampleEnv false) 4
         (VOutput (Fulfilled [1%positive]) (Fulfilled (VNum 7)) (Fulfilled true)
            (Fulfilled (VBool true)))
         (Some [])
         (Some {| keepOutputValues := Some true;
                  excludeResourceReferencesFromDependencies := None |}))
  = Ret (WObj [(specialSigKey, WStr specialOutputValueSig); ("value", WNum 7);
               ("secret", WBool true); ("dependencies", WArr [WStr "urn:R"])]).
Proof. reflexivity. Qed.

(** A custom resource with and without support for resource references. *)
Example serialize_custom_resource :
  serializeProperty (exampleEnv false) 4 (VResource 1%positive) (Some []) None
  = (Ret (WObj [(specialSigKey, WStr specialResourceSig); ("urn", WStr "urn:R");
                ("id", WStr "id")]),
     Some [1%positive])
  /\ fst (serializeProperty
            (exampleEnvWith {| supportsSecrets := true;
                               supportsResourceReferences := false;
                               supportsOutputValues := true |} false)
            4 (VResource 1%positive) (Some []) None)
     = Ret (WStr "id").
Proof. split; reflexivity. Qed.

(** The unknown marker deserializes to the unknown sentinel in a preview
    and to [undefined] in an update that does not keep unknowns. *)
Example deserialize_unknown_marker :
  deserializeProperty (exampleEnv true) (WArr [WStr unknownValue]) None = Ret (VArr [VUnknown])
  /\ deserializeProperty (exampleEnv false) (WArr [WStr unknownValue]) (Some true)
     = Ret (VArr [VUnknown])
  /\ deserializeProperty (exampleEnv false) (WArr [WStr unknownValue]) None
     = Ret (VArr [VUndefined]).
Proof. repeat split; reflexivity. Qed.

(** A lookup through the registry: a provider reference is looked up in the
    packages, by the type name of its URN. *)
Example deserialize_provider_reference :
  let aws := {| package_version := Some "6.1.0";
                constructProvider := fun name type urn => Ret 7%positive |} in
  let env := {| isDryRun := isDryRun (exampleEnv false);
                isGrpcError := isGrpcError (exampleEnv false);
                getStore := getStore (exampleEnv false);
                getResourcePackages := <["aws" := [aws]]> ∅;
                getResourceModules := ∅;
                resourceObject := resourceObject (exampleEnv false);
                newDependencyResource := newDependencyResource (exampleEnv false);
                getAllTransitivelyReferencedResourceURNs :=
                  getAllTransitivelyReferencedResourceURNs (exampleEnv false) |} in
  deserializeProperty env
    (resourceReference "urn:pulumi:stack::proj::pulumi:providers:aws::default"
       [("packageVersion", WStr "6.0.0"); ("id", WStr "abc")]) None
  = Ret (VResource 7%positive)
  /\ deserializeProperty env
       (resourceReference "urn:pulumi:stack::proj::pulumi:providers:aws::default"
          [("packageVersion", WStr "7.0.0"); ("id", WStr "abc")]) None
     = Ret (VStr "abc").
Proof. split; reflexivity. Qed.

(** ** More on the registry *)

Lemma parse_truthy (s : string) : is_Some (semver.parse s) -> string_truthy s = true.
Proof. destruct s; [|done]. by intros [v Hv]. Qed.

Lemma requestedVersion_entryVersion {T} `{Versioned T} (item : T) :
  wellFormedVersion (version item) -> requestedVersion (version item) = entryVersion item.
Proof.
  unfold requestedVersion, entryVersion. destruct (version item) as [s|]; [|done].
  intros Hs. simpl in Hs. by rewrite (parse_truthy s Hs).
Qed.

Lemma checkVersion_refl (v : option semver.SemVer) : checkVersion v v = true.
Proof.
  destruct v as [v|]; [|done]. simpl.
  rewrite N.eqb_refl. simpl. rewrite !N.leb_refl. done.
Qed.

Lemma lexico_Eq (c1 c2 : comparison) : semver.lexico c1 c2 = Eq -> c1 = Eq /\ c2 = Eq.
Proof. by destruct c1. Qed.

Lemma compare_Eq_checkVersion (va vb : semver.SemVer) :
  semver.compare va vb = Eq -> checkVersion (Some vb) (Some va) = true.
Proof.
  unfold semver.compare, semver.compareMain. intros E.
  apply lexico_Eq in E as [E _]. apply lexico_Eq in E as [E1 E].
  apply lexico_Eq in E as [E2 E3].
  apply N.compare_eq_iff in E1, E2, E3. simpl. rewrite E1, E2, E3.
  rewrite N.eqb_refl, !N.leb_refl. done.
Qed.

Lemma equalVersion_compatible {T} `{Versioned T} (e item : T) :
  wellFormedVersion (version e) -> wellFormedVersion (version item) ->
  equalVersion (version e) (version item) ->
  checkVersion (entryVersion item) (entryVersion e) = true.
Proof.
  unfold entryVersion, equalVersion.
  destruct (version e) as [a|], (version item) as [b|]; simpl; try done.
  - intros _ _ (va & vb & -> & -> & E). by apply compare_Eq_checkVersion.
  - intros _ [vb ->] _. done.
Qed.

Section RegistryMore.
Context {T : Type} `{Versioned T}.

(** What a lookup returns is one of the kept entries, and there is one
    when an entry is kept. *)
Lemma selectsFirstGreatest_elem (kept : list T) (r : option T) (e : T) :
  selectsFirstGreatest kept r -> e ∈ kept -> exists best, r = Some best /\ best ∈ kept.
Proof.
  unfold selectsFirstGreatest. destruct kept as [|first rest].
  { intros _ He. by apply elem_of_nil in He. }
  intros Hr _. destruct (entryVersion first).
  - destruct Hr as (best & vbest & i & -> & Hi & _). exists best. split; [done|].
    by eapply list_elem_of_lookup_2.
  - exists first. split; [done | left].
Qed.

Lemma register_entries (source source' : gmap string (list T))
    (registrationType key : string) (item : T) (inserted : bool) :
  register source registrationType key item = Ret (inserted, source') ->
  source' !! key
  = Some (default [] (source !! key) ++ (if inserted then [item] else [])).
Proof.
  unfold register. destruct (source !! key) as [items|] eqn:Hkey; simpl.
  - intros Hr. apply bind_Ret in Hr as (skip & Hskip & Hr).
    destruct skip; simplify_eq.
    + by rewrite app_nil_r.
    + by rewrite lookup_insert_eq.
  - intros Hr. simplify_eq. by rewrite lookup_insert_eq.
Qed.

Lemma register_lookup (source source' : gmap string (list T))
    (registrationType key : string) (item : T) (inserted : bool) :
  wellFormedVersion (version item) ->
  (forall e, e ∈ default [] (source !! key) -> wellFormedVersion (version e)) ->
  register source registrationType key item = Ret (inserted, source') ->
  exists e,
    getRegistration source' key (version item) = Ret (Some e)
    /\ e ∈ default [] (source' !! key)
    /\ checkVersion (entryVersion item) (entryVersion e) = true
    /\ (source !! key = None -> e = item).
Proof.
  intros Hitem Hall Hr.
  pose proof (register_entries _ _ _ _ _ _ Hr) as Hentries.
  assert (wellFormedRequest (version item)) as Hreq.
  { destruct (version item) as [s|]; simpl in *; [by intros _ | done]. }
  rewrite getRegistration_loop by done.
  rewrite Hentries. simpl.
  set (entries := default [] (source !! key) ++ (if inserted then [item] else [])).
  assert (forall e, e ∈ entries -> wellFormedVersion (version e)) as Hall'.
  { intros e He. apply elem_of_app in He as [He|He]; [by apply Hall|].
    destruct inserted; [|by apply elem_of_nil in He].
    apply list_elem_of_singleton in He. by subst. }
  destruct (bestRegistration_kept (requestedVersion (version item)) entries Hall')
    as (r & Hbest & Hsel).
  rewrite requestedVersion_entryVersion in * by done.
  assert (exists e, e ∈ entries
            /\ checkVersion (entryVersion item) (entryVersion e) = true) as (e0 & He0 & Hc0).
  { destruct inserted.
    - exists item. split; [apply elem_of_app; right; left | apply checkVersion_refl].
    - unfold register in Hr. destruct (source !! key) as [items|] eqn:Hkey; [|done].
      apply bind_Ret in Hr as (skip & Hskip & Hr). destruct skip; [|done].
      destruct (alreadyRegistered_exists items item Hitem) as (skip & Hskip' & Hiff).
      { intros e He. apply Hall. done. }
      rewrite Hskip in Hskip'. simplify_eq.
      destruct Hiff as [Hex _]. destruct (Hex eq_refl) as (e & He & Heq).
      exists e. split; [apply elem_of_app; by left|].
      apply equalVersion_compatible; [by apply Hall | done | done]. }
  assert (e0 ∈ List.filter (fun e => checkVersion (entryVersion item) (entryVersion e)) entries)
    as Hkept.
  { apply list_elem_of_In, filter_In. split; [by apply list_elem_of_In | done]. }
  destruct (selectsFirstGreatest_elem _ _ _ Hsel Hkept) as (best & -> & Hin).
  apply list_elem_of_In, filter_In in Hin as [Hin Hc]. apply list_elem_of_In in Hin.
  exists best. repeat split; try done.
  intros Hnone. unfold entries in Hin. rewrite Hnone in Hin. simpl in Hin.
  destruct inserted; [|by apply elem_of_nil in Hin].
  by apply list_elem_of_singleton in Hin.
Qed.

(** One entry whose version [semver] rejects makes every lookup of its key
    raise. *)
Lemma bestRegistration_malformed ver (items : list T) (e : T) (s : string)
    (best : option T) (vbest : option semver.SemVer) :
  e ∈ items -> version e = Some s -> semver.parse s = None ->
  bestRegistration ver items best vbest = Throw (TypeError "Invalid Version").
Proof.
  intros He Hs Hp. revert best vbest.
  induction items as [|e' items IH]; intros best vbest; [by apply elem_of_nil in He|].
  simpl. unfold parseVersion at 1.
  destruct (version e') as [s'|] eqn:Hs'; simpl.
  - unfold semver.new. destruct (semver.parse s') as [v'|] eqn:Hp'; simpl; [|done].
    assert (e ∈ items) as He'.
    { apply elem_of_cons in He as [->|He]; [|done]. rewrite Hs in Hs'. by simplify_eq. }
    destruct (negb _); [by apply IH|]. destruct (_ || _); by apply IH.
  - assert (e ∈ items) as He'.
    { apply elem_of_cons in He as [->|He]; [|done]. by rewrite Hs in Hs'. }
    destruct (negb _); [by apply IH|]. destruct (_ || _); by apply IH.
Qed.

Lemma getRegistration_malformed (source : gmap string (list T)) (key : string)
    (e : T) (s : string) (wanted : option string) :
  e ∈ default [] (source !! key) -> version e = Some s -> semver.parse s = None ->
  getRegistration source key wanted = Throw (TypeError "Invalid Version").
Proof.
  intros He Hs Hp. unfold getRegistration.
  destruct wanted as [v|]; simpl.
  - destruct (string_truthy v); simpl.
    + unfold semver.new. destruct (semver.parse v); simpl; [|done].
      by eapply bestRegistration_malformed.
    + by eapply bestRegistration_malformed.
  - by eapply bestRegistration_malformed.
Qed.

(** X2. [register] stores the first entry of a key without looking at its
    version.  When [semver] rejects that version, every later lookup of the
    key raises [TypeError], whatever version is asked for, and so does every
    later registration of a versioned entry under the key. *)
Theorem register_malformed_version (source : gmap string (list T))
    (registrationType key : string) (item : T) (s : string) :
  source !! key = None -> version item = Some s -> semver.parse s = None ->
  exists source',
    register source registrationType key item = Ret (true, source')
    /\ (forall wanted,
          getRegistration source' key wanted = Throw (TypeError "Invalid Version"))
    /\ (forall registrationType' item',
          is_Some (version item') ->
          register source' registrationType' key item'
          = Throw (TypeError "Invalid Version")).
Proof.
  intros Hkey Hs Hp. unfold register at 1. rewrite Hkey. eexists. split; [done|]. split.
  - intros wanted. eapply getRegistration_malformed; [|exact Hs|exact Hp].
    rewrite lookup_insert_eq. simpl. left.
  - intros rt' item' [s' Hs']. unfold register. rewrite lookup_insert_eq. simpl.
    rewrite Hs, Hs'. simpl. unfold semver.eq, semver.new. by rewrite Hp.
Qed.

End RegistryMore.

Lemma register_malformed_version_witness :
  exists source',
    register (∅ : gmap string (list Entry)) "module" "k"
      {| entry_version := Some "${VERSION}"; entry_name := "dev" |} = Ret (true, source')
    /\ (forall wanted,
          getRegistration source' "k" wanted = Throw (TypeError "Invalid Version"))
    /\ (forall registrationType' item',
          is_Some (version item') ->
          register source' registrationType' "k" item'
          = Throw (TypeError "Invalid Version")).
Proof.
  apply (register_malformed_version ∅ "module" "k"
           {| entry_version := Some "${VERSION}"; entry_name := "dev" |} "${VERSION}");
    reflexivity.
Defined.

(** X1. After [registerResourceModule] returns, a lookup of the module's
    package and name with the module's own version finds an entry of the table
    whose version is compatible with it; the entry is the module itself when
    nothing was registered under the key before. *)
Theorem registerResourceModule_found (env : Env)
    (resourceModules : gmap string (list ResourceModule))
    (pkg mod_ : string) (module : ResourceModule) :
  wellFormedVersion (module_version module) ->
  (forall e, e ∈ default [] (resourceModules !! moduleKey pkg mod_) ->
             wellFormedVersion (module_version e)) ->
  registerResourceModule resourceModules pkg mod_ module = Ret (getResourceModules env) ->
  exists e,
    getResourceModule env pkg mod_ (module_version module) = Ret (Some e)
    /\ e ∈ default [] (getResourceModules env !! moduleKey pkg mod_)
    /\ checkVersion (entryVersion module) (entryVersion e) = true
    /\ (resourceModules !! moduleKey pkg mod_ = None -> e = module).
Proof.
  intros Hm Hall Hr. unfold registerResourceModule in Hr.
  apply bind_Ret in Hr as ([inserted source'] & Hr & Heq). simpl in Heq. simplify_eq.
  unfold getResourceModule.
  exact (register_lookup _ _ _ _ _ _ Hm Hall Hr).
Qed.

(** ** URNs *)

Lemma append_cons (c : ascii) (a b : string) :
  (String c a ++ b)%string = String c (a ++ b)%string.
Proof. reflexivity. Qed.

Lemma append_nil_l (s : string) : ("" ++ s)%string = s.
Proof. reflexivity. Qed.

Lemma append_nil_r (s : string) : (s ++ "")%string = s.
Proof. induction s as [|c s IH]; [done|]. by rewrite append_cons, IH. Qed.

Lemma append_assoc (a b c : string) : ((a ++ b) ++ c = a ++ (b ++ c))%string.
Proof. induction a as [|x a IH]; [done|]. by rewrite !append_cons, IH. Qed.

Lemma append_snoc (acc : string) (c : ascii) (s : string) :
  ((acc ++ String c "") ++ s = acc ++ String c s)%string.
Proof. by rewrite append_assoc. Qed.

Lemma split_dcolon_from_unfold (acc : string) (c : ascii) (s : string) :
  split_dcolon_from acc (String c s)
  = if Ascii.eqb c ":"
    then match s with
         | String c2 rest =>
             if Ascii.eqb c2 ":" then acc :: split_dcolon_from "" rest
             else split_dcolon_from (acc ++ String c "")%string s
         | EmptyString => split_dcolon_from (acc ++ String c "")%string s
         end
    else split_dcolon_from (acc ++ String c "")%string s.
Proof.
  destruct c as [[] [] [] [] [] [] [] []]; try reflexivity.
  destruct s as [|c2 rest]; [reflexivity|].
  destruct c2 as [[] [] [] [] [] [] [] []]; reflexivity.
Qed.

Lemma split_dcolon_segment (s acc rest : string) :
  singleColons s = true ->
  split_dcolon_from acc (s ++ "::" ++ rest)%string
  = (acc ++ s)%string :: split_dcolon_from "" rest.
Proof.
  revert acc. induction s as [|c s IH]; intros acc Hs.
  { by rewrite append_nil_r. }
  rewrite append_cons, split_dcolon_from_unfold. simpl in Hs.
  destruct (Ascii.eqb c ":") eqn:Hc.
  - destruct s as [|c2 s']; [done|].
    apply andb_prop in Hs as [Hc2 Hs]. apply negb_true_iff in Hc2.
    rewrite append_cons, Hc2, <- append_cons.
    rewrite IH by done. by rewrite append_snoc.
  - rewrite IH by done. by rewrite append_snoc.
Qed.

Lemma split_dcolon_last (s acc : string) :
  singleColons s = true -> split_dcolon_from acc s = [(acc ++ s)%string].
Proof.
  revert acc. induction s as [|c s IH]; intros acc Hs.
  { simpl. by rewrite append_nil_r. }
  rewrite split_dcolon_from_unfold. simpl in Hs.
  destruct (Ascii.eqb c ":") eqn:Hc.
  - destruct s as [|c2 s']; [done|].
    apply andb_prop in Hs as [Hc2 Hs]. apply negb_true_iff in Hc2. rewrite Hc2.
    rewrite IH by done. by rewrite append_snoc.
  - rewrite IH by done. by rewrite append_snoc.
Qed.

Lemma split_char_segment (c : ascii) (s acc rest : string) :
  lacks c s = true ->
  split_char_from c acc (s ++ String c rest)%string
  = (acc ++ s)%string :: split_char_from c "" rest.
Proof.
  revert acc. induction s as [|a s IH]; intros acc Hs.
  { change ("" ++ String c rest)%string with (String c rest). simpl.
    by rewrite Ascii.eqb_refl, append_nil_r. }
  rewrite append_cons. simpl.
  simpl in Hs. apply andb_prop in Hs as [Ha Hs]. apply negb_true_iff in Ha.
  rewrite Ha, IH by done. by rewrite append_snoc.
Qed.

Lemma split_char_last (c : ascii) (s acc : string) :
  lacks c s = true -> split_char_from c acc s = [(acc ++ s)%string].
Proof.
  revert acc. induction s as [|a s IH]; intros acc Hs; simpl.
  { by rewrite append_nil_r. }
  simpl in Hs. apply andb_prop in Hs as [Ha Hs]. apply negb_true_iff in Ha.
  rewrite Ha, IH by done. by rewrite append_snoc.
Qed.

Lemma lacks_app (c : ascii) (a b : string) :
  lacks c (a ++ b)%string = lacks c a && lacks c b.
Proof.
  induction a as [|x a IH]; [done|]. rewrite append_cons. simpl.
  by rewrite IH, andb_assoc.
Qed.

Lemma lacks_singleColons (s : string) : lacks ":" s = true -> singleColons s = true.
Proof.
  induction s as [|c s IH]; simpl; [done|].
  intros Hs. apply andb_prop in Hs as [Hc Hs]. apply negb_true_iff in Hc.
  rewrite Hc. by apply IH.
Qed.

Lemma singleColons_join (a b : string) :
  lacks ":" a = true -> string_truthy b = true -> lacks ":" b = true ->
  forall rest, singleColons (b ++ rest)%string = true ->
  singleColons (a ++ ":" ++ b ++ rest)%string = true.
Proof.
  intros Ha Hb Hb' rest Hrest.
  induction a as [|c a IH].
  - destruct b as [|c2 b]; [done|].
    change ("" ++ ":" ++ String c2 b ++ rest)%string
      with (String ":" (String c2 (b ++ rest)%string)).
    rewrite append_cons in Hrest. simpl in *.
    apply andb_prop in Hb' as [Hc2 _]. by rewrite Hc2.
  - rewrite append_cons. simpl.
    simpl in Ha. apply andb_prop in Ha as [Hc Ha]. apply negb_true_iff in Hc.
    rewrite Hc. by apply IH.
Qed.

Lemma simpleName_spec (s : string) :
  simpleName s = true ->
  string_truthy s = true /\ lacks ":" s = true /\ lacks "$" s = true.
Proof.
  unfold simpleName. intros Hs. apply andb_prop in Hs as [Hs H3].
  by apply andb_prop in Hs as [H1 H2].
Qed.

(** The parts of a well-shaped URN. *)
Lemma parseUrn_parts (stack proj pkg mod_ typ name : string) :
  singleColons stack = true -> singleColons proj = true -> singleColons name = true ->
  simpleName pkg = true -> simpleName mod_ = true -> simpleName typ = true ->
  parseUrn (urnOf stack proj pkg mod_ typ name)
  = Ret {| urnName := Some name;
           type := (pkg ++ ":" ++ mod_ ++ ":" ++ typ)%string;
           pkgName := pkg; modName := mod_; typName := typ |}.
Proof.
  intros Hstack Hproj Hname Hpkg Hmod Htyp.
  apply simpleName_spec in Hpkg as (Hp1 & Hp2 & Hp3).
  apply simpleName_spec in Hmod as (Hm1 & Hm2 & Hm3).
  apply simpleName_spec in Htyp as (Ht1 & Ht2 & Ht3).
  assert (singleColons (pkg ++ ":" ++ mod_ ++ ":" ++ typ)%string = true) as Hqt.
  { apply singleColons_join; try done.
    pose proof (singleColons_join mod_ typ Hm2 Ht1 Ht2 "") as Hj.
    rewrite !append_nil_r in Hj. apply Hj. by apply lacks_singleColons. }
  assert (split_char "$" (pkg ++ ":" ++ mod_ ++ ":" ++ typ)
          = [(pkg ++ ":" ++ mod_ ++ ":" ++ typ)%string]) as Hdollar.
  { unfold split_char. rewrite split_char_last; [done|].
    rewrite !lacks_app. simpl. by rewrite Hp3, Hm3, Ht3. }
  assert (split_char ":" (pkg ++ ":" ++ mod_ ++ ":" ++ typ) = [pkg; mod_; typ]) as Hcolon.
  { unfold split_char. rewrite !append_cons, !append_nil_l.
    rewrite (split_char_segment ":" pkg) by done.
    rewrite (split_char_segment ":" mod_) by done.
    by rewrite split_char_last. }
  unfold parseUrn, split_dcolon, urnOf.
  rewrite !split_dcolon_segment by done.
  rewrite split_dcolon_last by done.
  rewrite !append_nil_l. cbn [at_index nth_error].
  rewrite Hdollar. cbn [pop last default from_option Datatypes.id]. rewrite Hcolon. reflexivity.
Qed.

Section References.
Context (env : Env).

Lemma constructReference_parts (stack proj pkg mod_ typ name : string) (version : Wire) :
  singleColons stack = true -> singleColons proj = true -> singleColons name = true ->
  simpleName pkg = true -> simpleName mod_ = true -> simpleName typ = true ->
  constructReference env (urnOf stack proj pkg mod_ typ name) version
  = let* wanted := versionArgument version in
    if String.eqb pkg "pulumi" && String.eqb mod_ "providers"
    then let* p := getResourcePackage env typ wanted in
         match p with
         | Some p =>
             let* r := constructProvider p (Some name) (pkg ++ ":" ++ mod_ ++ ":" ++ typ)
                         (urnOf stack proj pkg mod_ typ name) in
             Ret (Some (VResource r))
         | None => Ret None
         end
    else let* m := getResourceModule env pkg mod_ wanted in
         match m with
         | Some m =>
             let* r := construct m (Some name) (pkg ++ ":" ++ mod_ ++ ":" ++ typ)
                         (urnOf stack proj pkg mod_ typ name) in
             Ret (Some (VResource r))
         | None => Ret None
         end.
Proof.
  intros. unfold constructReference. by rewrite parseUrn_parts.
Qed.

Lemma deserializeProperty_reference (urn : string) (rest : list (string * Wire))
    (keepUnknowns : option bool) :
  deserializeProperty env (resourceReference urn rest) keepUnknowns
  = let* constructed := constructReference env urn (getW "packageVersion" rest) in
    match constructed with
    | Some resource => Ret resource
    | None => referenceFallback env urn rest keepUnknowns
    end.
Proof.
  unfold resourceReference, referenceFallback.
  cbn -[constructReference withProp].
  destruct (constructReference env urn (getW "packageVersion" rest))
    as [[resource|]| | |]; try done.
  cbn -[withProp deserializeProperty].
  destruct (truthyW (getW "id" rest)) eqn:Hid; [|done].
  cbn [withProp String.eqb Ascii.eqb Bool.eqb].
  cbn -[withProp deserializeProperty].
  rewrite (withProp_getW _ _ _ _ Hid).
  destruct (getW "id" rest) as [| | | |[|c s]| |]; done.
Qed.

(** X3. A resource reference with a URN of the shape
    [stack::proj::pkg:mod:typ::name]: a provider ([pulumi:providers:typ]) is
    looked up in the packages under [typ], any other resource in the modules
    under [pkg:mod], with the version of the reference; a registered
    constructor is called with the name, the type and the URN, and what it
    throws is thrown; without constructor the result is the id when it is
    truthy and the URN otherwise. *)
Theorem deserializeProperty_reference_constructor
    (stack proj pkg mod_ typ name : string) (rest : list (string * Wire))
    (keepUnknowns : option bool) :
  singleColons stack = true -> singleColons proj = true -> singleColons name = true ->
  simpleName pkg = true -> simpleName mod_ = true -> simpleName typ = true ->
  let urn := urnOf stack proj pkg mod_ typ name in
  let type := (pkg ++ ":" ++ mod_ ++ ":" ++ typ)%string in
  deserializeProperty env (resourceReference urn rest) keepUnknowns
  = let* wanted := versionArgument (getW "packageVersion" rest) in
    if String.eqb pkg "pulumi" && String.eqb mod_ "providers"
    then let* p := getResourcePackage env typ wanted in
         constructedOr p (fun p => constructProvider p (Some name) type urn)
           (referenceFallback env urn rest keepUnknowns)
    else let* m := getResourceModule env pkg mod_ wanted in
         constructedOr m (fun m => construct m (Some name) type urn)
           (referenceFallback env urn rest keepUnknowns).
Proof.
  intros Hstack Hproj Hname Hpkg Hmod Htyp urn type.
  rewrite deserializeProperty_reference. unfold urn.
  rewrite constructReference_parts by done.
  destruct (versionArgument (getW "packageVersion" rest)) as [wanted| | |]; try done.
  simpl. destruct (String.eqb pkg "pulumi" && String.eqb mod_ "providers").
  - destruct (getResourcePackage env typ wanted) as [[p|]| | |]; try done.
    simpl. by destruct (constructProvider p _ _ _).
  - destruct (getResourceModule env pkg mod_ wanted) as [[m|]| | |]; try done.
    simpl. by destruct (construct m _ _ _).
Qed.

End References.

Lemma deserializeProperty_reference_constructor_witness :
  deserializeProperty (exampleEnv false)
    (resourceReference (urnOf "urn:pulumi:dev" "proj" "aws" "s3/bucket" "Bucket" "b")
       [("id", WStr "b-123")]) None
  = Ret (VStr "b-123").
Proof.
  rewrite (deserializeProperty_reference_constructor (exampleEnv false)
             "urn:pulumi:dev" "proj" "aws" "s3/bucket" "Bucket" "b"); reflexivity.
Defined.

Lemma registerResourceModule_found_witness :
  let module := _module "3.1.0" (fun _ _ => Ret 9%positive) in
  let env := withResourceModules (exampleEnv false)
               (<[moduleKey "kubernetes" "helm.sh/v3" := [module]]> ∅) in
  exists e,
    getResourceModule env "kubernetes" "helm.sh/v3" (module_version module) = Ret (Some e)
    /\ e ∈ default [] (getResourceModules env !! moduleKey "kubernetes" "helm.sh/v3")
    /\ checkVersion (entryVersion module) (entryVersion e) = true
    /\ ((∅ : gmap string (list ResourceModule)) !! moduleKey "kubernetes" "helm.sh/v3" = None
        -> e = module).
Proof.
  intros module env.
  apply (registerResourceModule_found env ∅ "kubernetes" "helm.sh/v3" module).
  - simpl. eexists. vm_compute. reflexivity.
  - intros e He. rewrite lookup_empty in He. by apply elem_of_nil in He.
  - reflexivity.
Defined.

(** X4. Loading [helm/v3/index.ts] into cleared registries registers a
    module for [kubernetes:helm.sh/v3].  A resource reference of that package
    and module, whose version is absent or compatible with the module's, is
    then deserialized by the module: type [Release] gives a new [Release]
    with the name and the URN of the reference, and any other type makes
    [deserializeProperty] raise "unknown resource type", without falling back
    to the id or the URN. *)
Theorem helm_module_constructs (env : Env) (getVersion : string)
    (newRelease : option string -> string -> Outcome Resource)
    (resourceModules : gmap string (list ResourceModule))
    (stack proj typ name : string) (rest : list (string * Wire))
    (keepUnknowns : option bool) (wanted : option string) (have : semver.SemVer) :
  singleColons stack = true -> singleColons proj = true -> singleColons name = true ->
  simpleName typ = true ->
  versionArgument (getW "packageVersion" rest) = Ret wanted ->
  wellFormedRequest wanted ->
  semver.parse getVersion = Some have ->
  checkVersion (requestedVersion wanted) (Some have) = true ->
  loadHelmModule getVersion newRelease (_resetResourceModules resourceModules)
  = Ret (getResourceModules env) ->
  let urn := urnOf stack proj "kubernetes" "helm.sh/v3" typ name in
  deserializeProperty env (resourceReference urn rest) keepUnknowns
  = if String.eqb typ "Release"
    then let* r := newRelease (Some name) urn in Ret (VResource r)
    else Throw (ExternalError ("unknown resource type kubernetes:helm.sh/v3:" ++ typ)).
Proof.
  intros Hstack Hproj Hname Htyp Hver Hreq Hhave Hcompat Hload urn.
  rewrite deserializeProperty_reference. unfold urn.
  rewrite constructReference_parts by done.
  rewrite Hver. cbn [bind String.eqb Ascii.eqb Bool.eqb andb].
  unfold getResourceModule. rewrite getRegistration_loop by done.
  unfold loadHelmModule, _resetResourceModules, registerResourceModule, register in Hload.
  rewrite lookup_empty in Hload. simpl in Hload. injection Hload as <-.
  rewrite lookup_insert_eq.
  cbn [default from_option Datatypes.id bestRegistration].
  change (version (_module getVersion newRelease)) with (Some getVersion).
  unfold parseVersion, semver.new. rewrite Hhave. cbn [bind].
  rewrite Hcompat. cbn [negb bool_decide orb].
  assert (bool_decide (is_Some (None : option ResourceModule)) = false) as ->.
  { apply bool_decide_eq_false. by intros [x Hx]. }
  cbn [negb orb bestRegistration bind construct _module].
  rewrite !append_cons, !append_nil_l. cbn [String.eqb Ascii.eqb Bool.eqb].
  destruct (String.eqb typ "Release"); [|done].
  by destruct (newRelease (Some name) _).
Qed.

Lemma helm_module_constructs_witness :
  let env := withResourceModules (exampleEnv false)
               (<[moduleKey "kubernetes" "helm.sh/v3" :=
                    [_module "3.1.0" (fun _ _ => Ret 9%positive)]]> ∅) in
  deserializeProperty env
    (resourceReference (urnOf "urn:pulumi:dev" "proj" "kubernetes" "helm.sh/v3" "Release" "r")
       [("packageVersion", WStr "3.0.0"); ("id", WStr "r-1")]) None
  = Ret (VResource 9%positive)
  /\ deserializeProperty env
       (resourceReference (urnOf "urn:pulumi:dev" "proj" "kubernetes" "helm.sh/v3" "Chart" "c")
          [("id", WStr "c-1")]) None
     = Throw (ExternalError "unknown resource type kubernetes:helm.sh/v3:Chart").
Proof.
  intros env. split.
  - rewrite (helm_module_constructs env "3.1.0" (fun _ _ => Ret 9%positive) ∅
               "urn:pulumi:dev" "proj" "Release" "r" _ None (Some "3.0.0")
               (semver.mkSemVer 3 1 0 [])); try reflexivity.
    simpl. intros _. eexists. vm_compute. reflexivity.
  - rewrite (helm_module_constructs env "3.1.0" (fun _ _ => Ret 9%positive) ∅
               "urn:pulumi:dev" "proj" "Chart" "c" _ None None
               (semver.mkSemVer 3 1 0 [])); reflexivity.
Defined.

(** X5. [moduleKey] keeps packages apart as long as package names have no
    colon: equal keys then come from equal packages and equal modules. *)
Theorem moduleKey_injective (pkg mod_ pkg' mod' : string) :
  lacks ":" pkg = true -> lacks ":" pkg' = true ->
  moduleKey pkg mod_ = moduleKey pkg' mod' -> pkg = pkg' /\ mod_ = mod'.
Proof.
  unfold moduleKey. revert pkg'.
  induction pkg as [|c pkg IH]; intros [|c' pkg'] Hp Hp' E.
  - change (String ":" mod_ = String ":" mod') in E. by injection E as ->.
  - change (String ":" mod_ = String c' (pkg' ++ ":" ++ mod')%string) in E.
    injection E as <- _. simpl in Hp'. done.
  - change (String c (pkg ++ ":" ++ mod_)%string = String ":" mod') in E.
    injection E as -> _. simpl in Hp. done.
  - change (String c (pkg ++ ":" ++ mod_)%string
            = String c' (pkg' ++ ":" ++ mod')%string) in E.
    injection E as -> E.
    simpl in Hp, Hp'. apply andb_prop in Hp as [_ Hp]. apply andb_prop in Hp' as [_ Hp'].
    destruct (IH pkg' Hp Hp' E) as [-> ->]. done.
Qed.

Lemma moduleKey_injective_witness :
  "kubernetes" = "kubernetes" /\ "helm.sh/v3" = "helm.sh/v3".
Proof.
  apply (moduleKey_injective "kubernetes" "helm.sh/v3" "kubernetes" "helm.sh/v3");
    reflexivity.
Defined.

(** With a colon in the package name, two packages can share a key. *)
Example moduleKey_collision : moduleKey "a:b" "c" = moduleKey "a" "b:c".
Proof. reflexivity. Qed.

(** ** What deserialization returns *)

(** A property that the cases of [deserializeProperty] establish holds of
    every value it returns. *)
Section DeserializeResults.
Context (env : Env) (keepUnknowns : option bool).
Context (Q : Value -> Prop) (R : Wire -> Prop).
Context (HR : forall w c, R w -> c ∈ children w -> R c).
Context (Hstr : forall s, R (WStr s) -> Q (deserializeString env s keepUnknowns)).
Context (Hnull : Q VNull) (Hbool : forall b, Q (VBool b)) (Hnum : forall n, Q (VNum n)).
Context (Hasset : forall kind w, Q (VAsset kind (ofWire w))).
Context (Harchive : forall kind w, Q (VArchive kind (ofWire w))).
Context (Hmembers : forall members,
           Forall (fun kv => Q (snd kv)) members -> Q (VArchive AssetArchive (VObj members))).
Context (Harr : forall elems, Forall Q elems -> Q (VArr elems)).
Context (Hobj : forall obj, Forall (fun kv => Q (snd kv)) obj -> Q (VObj obj)).
Context (Hunwrap : forall d, Q d -> Q (unwrapRpcSecret d)).
Context (Hsecret : forall x, Q x -> Q (secretEnvelope x)).
Context (Hresource : forall r, Q (VResource r)).
Context (Hurn : forall s, Q (VStr s)).
Context (Houtput : forall rs value isSecret,
           Q value ->
           Q (VOutput (Fulfilled rs) (Fulfilled value) (Fulfilled true)
                (Fulfilled (VBool isSecret)))).
Context (Hunknown : forall rs isSecret,
           Q (VOutput (Fulfilled rs) (Fulfilled VUndefined) (Fulfilled false)
                (Fulfilled (VBool isSecret)))).

Lemma arrayLoop_all (f : Wire -> Outcome Value) elems hadSecret acc r :
  Forall (fun e => forall d, f e = Ret d -> Q d) elems ->
  Forall Q acc ->
  arrayLoop f elems hadSecret acc = Ret r -> Forall Q (snd r).
Proof.
  revert hadSecret acc. induction elems as [|e elems IH]; intros hadSecret acc; simpl.
  - intros _ Hacc Hr. by simplify_eq.
  - intros Hall Hacc Hr. apply Forall_cons in Hall as [He Hall].
    apply bind_Ret in Hr as (d & Hd & Hr).
    apply (IH _ _ Hall) in Hr; [done|].
    apply Forall_app. split; [done|]. constructor; [|constructor]. by apply Hunwrap, He.
Qed.

Lemma objectLoop_all (f : Wire -> Outcome Value) props hadSecrets obj r :
  Forall (fun kv => forall d, f (snd kv) = Ret d -> Q d) props ->
  Forall (fun kv => Q (snd kv)) obj ->
  objectLoop f props hadSecrets obj = Ret r -> Forall (fun kv => Q (snd kv)) (snd r).
Proof.
  revert hadSecrets obj. induction props as [|[k w] props IH]; intros hadSecrets obj; simpl.
  - intros _ Hacc Hr. by simplify_eq.
  - intros Hall Hacc Hr. apply Forall_cons in Hall as [He Hall].
    apply bind_Ret in Hr as (d & Hd & Hr).
    apply (IH _ _ Hall) in Hr; [done|].
    apply (Forall_setProp Q); [|done]. by apply Hunwrap, He.
Qed.

Lemma assetsLoop_all (f : Wire -> Outcome Value) entries acc members :
  Forall (fun kv => forall d, f (snd kv) = Ret d -> Q d) entries ->
  Forall (fun kv => Q (snd kv)) acc ->
  assetsLoop f entries acc = Ret members -> Forall (fun kv => Q (snd kv)) members.
Proof.
  revert acc. induction entries as [|[k w] entries IH]; intros acc; simpl.
  - intros _ Hacc Hr. by simplify_eq.
  - intros Hall Hacc Hr. apply Forall_cons in Hall as [He Hall].
    apply bind_Ret in Hr as (a & Ha & Hr).
    destruct (negb (isAssetOrArchive a)); [done|].
    apply (IH _ Hall) in Hr; [done|].
    apply (Forall_setProp Q); [|done]. by apply He.
Qed.

Lemma assetsLoopArray_all (f : Wire -> Outcome Value) i entries acc members :
  Forall (fun e => forall d, f e = Ret d -> Q d) entries ->
  Forall (fun kv => Q (snd kv)) acc ->
  assetsLoopArray f i entries acc = Ret members -> Forall (fun kv => Q (snd kv)) members.
Proof.
  revert i acc. induction entries as [|w entries IH]; intros i acc; simpl.
  - intros _ Hacc Hr. by simplify_eq.
  - intros Hall Hacc Hr. apply Forall_cons in Hall as [He Hall].
    apply bind_Ret in Hr as (a & Ha & Hr).
    destruct (negb (isAssetOrArchive a)); [done|].
    apply (IH _ _ Hall) in Hr; [done|].
    apply (Forall_setProp Q); [|done]. by apply He.
Qed.

Lemma getW_child (k : string) (props : list (string * Wire)) :
  isUndefinedW (getW k props) = false -> getW k props ∈ children (WObj props).
Proof.
  intros Hd. simpl. apply list_elem_of_fmap.
  exists (k, getW k props). split; [done|].
  destruct (getW_in k props) as [E|Hin]; [by rewrite E in Hd | done].
Qed.

Lemma withProp_undefined (f : Wire -> Outcome Value) k absent props :
  isUndefinedW (getW k props) = true -> f WUndefined = absent ->
  withProp f k absent props = absent.
Proof.
  intros Hu Hf. induction props as [|[k' c] props IH]; simpl in *; [done|].
  destruct (String.eqb k k'); [by destruct c | by apply IH].
Qed.

Lemma truthyW_defined (w : Wire) : truthyW w = true -> isUndefinedW w = false.
Proof. by destruct w. Qed.

Lemma deserializeProperty_results_children (w : Wire) :
  (R w -> forall v, deserializeProperty env w keepUnknowns = Ret v -> Q v)
  /\ Forall (fun c => R c -> forall v, deserializeProperty env c keepUnknowns = Ret v -> Q v)
       (children w).
Proof.
  induction w as [| | | | |elems IH|props IH] using Wire_nested_ind;
    (split; [|try (by constructor)]).
  - done.
  - simpl. intros. by simplify_eq.
  - simpl. intros. by simplify_eq.
  - simpl. intros. by simplify_eq.
  - simpl. intros HRw v Hv. simplify_eq. by apply Hstr.
  - (* arrays *)
    intros HRw v Hv. simpl in Hv.
    apply bind_Ret in Hv as ([hadSecret out] & Hr & Hv).
    apply arrayLoop_all in Hr; [|clear Hr|constructor].
    + simpl in Hr, Hv. destruct hadSecret; simplify_eq; [apply Hsecret|]; by apply Harr.
    + apply Forall_forall. intros e He d Hd.
      rewrite Forall_forall in IH. destruct (IH e He) as [Hq _].
      apply Hq; [|done]. by apply (HR (WArr elems)).
  - simpl. eapply Forall_impl; [exact IH|]. by intros c [Hc _].
  - (* objects *)
    intros HRw v Hv.
    assert (forall k, isUndefinedW (getW k props) = false ->
              R (getW k props)
              /\ (forall v, deserializeProperty env (getW k props) keepUnknowns = Ret v -> Q v)
              /\ Forall (fun c => R c ->
                           forall v, deserializeProperty env c keepUnknowns = Ret v -> Q v)
                   (children (getW k props))) as Hget.
    { intros k Hd. pose proof (getW_child k props Hd) as Hin.
      assert (R (getW k props)) as HRc by by apply (HR (WObj props)).
      split; [done|].
      simpl in Hin. apply list_elem_of_fmap in Hin as ([k' c] & Hc & Hin). simpl in Hc.
      rewrite Forall_forall in IH. destruct (IH (k', c) Hin) as [Hq Hgrand].
      simpl in Hq, Hgrand. rewrite Hc in HRc |- *. split; [by apply Hq | done]. }
    cbn -[withProp getW constructReference] in Hv.
    destruct (truthyW (getW specialSigKey props)) eqn:Htsig.
    + destruct (getW specialSigKey props) as [| | | |s| |] eqn:Esig; try done.
      destruct (String.eqb s specialAssetSig) eqn:E1.
      { repeat match type of Hv with
               | (if truthyW (getW ?k props) then _ else _) = _ =>
                   destruct (truthyW (getW k props)); [simplify_eq; apply Hasset|]
               end. done. }
      destruct (String.eqb s specialArchiveSig) eqn:E2.
      { destruct (truthyW (getW "assets" props)) eqn:Hta.
        - rewrite (withProp_getW _ _ _ _ Hta) in Hv.
          apply bind_Ret in Hv as (members & Hm & Hv). simplify_eq.
          destruct (Hget _ (truthyW_defined _ Hta)) as (HRa & _ & Hgrand).
          apply Hmembers.
          destruct (getW "assets" props) as [| | | | |entries|entries] eqn:Ea;
            simpl in Hm; simplify_eq; try by constructor.
          + simpl in Hgrand. eapply assetsLoopArray_all; [| |exact Hm]; [|constructor].
            apply Forall_forall. intros e He d Hd.
            rewrite Forall_forall in Hgrand. apply (Hgrand e He); [|done].
            by apply (HR (WArr entries)).
          + simpl in Hgrand. eapply assetsLoop_all; [| |exact Hm]; [|constructor].
            apply Forall_forall. intros [k e] He d Hd. simpl in Hd |- *.
            assert (e ∈ map snd entries) as He'.
            { apply list_elem_of_fmap. by exists (k, e). }
            rewrite Forall_forall in Hgrand. apply (Hgrand e He'); [|done].
            by apply (HR (WObj entries)).
        - repeat match type of Hv with
               | (if truthyW (getW ?k props) then _ else _) = _ =>
                   destruct (truthyW (getW k props)); [simplify_eq; apply Harchive|]
               end. done. }
      destruct (String.eqb s specialSecretSig) eqn:E3.
      { apply bind_Ret in Hv as (value & Hval & Hv). simplify_eq. apply Hsecret.
        destruct (isUndefinedW (getW "value" props)) eqn:Hu.
        - by rewrite (withProp_undefined (fun v => deserializeProperty env v keepUnknowns)
                        "value" (Throw UnexpectedUndefined) props Hu eq_refl) in Hval.
        - rewrite (withProp_defined _ _ _ _ Hu) in Hval.
          destruct (Hget _ Hu) as (HRc & Hq & _). by apply Hq. }
      destruct (String.eqb s specialResourceSig) eqn:E4.
      { destruct (getW "urn" props) as [| | | |urn| |] eqn:Eurn; try done.
        apply bind_Ret in Hv as (constructed & Hc & Hv).
        destruct constructed as [resource|].
        - simplify_eq. apply constructReference_resource in Hc as [r ->]. apply Hresource.
        - destruct (truthyW (getW "id" props)) eqn:Htid; [|simplify_eq; apply Hurn].
          rewrite (withProp_getW _ _ _ _ Htid) in Hv.
          destruct (Hget _ (truthyW_defined _ Htid)) as (HRc & Hq & _).
          destruct (getW "id" props) as [| | | |[|c s']| |] eqn:Eid; try done;
            by apply Hq. }
      destruct (String.eqb s specialOutputValueSig) eqn:E5; [|done].
      apply bind_Ret in Hv as (value & Hval & Hv). simplify_eq.
      destruct (isUndefinedW (getW "value" props)) eqn:Hu; simpl in Hval |- *.
      * simplify_eq. apply Hunknown.
      * rewrite (withProp_defined _ _ _ _ Hu) in Hval.
        destruct (Hget _ Hu) as (HRc & Hq & _). apply Houtput. by apply Hq.
    + (* no signature *)
      apply bind_Ret in Hv as ([hadSecrets obj] & Hr & Hv).
      apply objectLoop_all in Hr; [|clear Hr|constructor].
      * simpl in Hr, Hv. destruct hadSecrets; simplify_eq; [apply Hsecret|]; by apply Hobj.
      * apply Forall_forall. intros [k e] He d Hd. simpl in Hd |- *.
        rewrite Forall_forall in IH. destruct (IH (k, e) He) as [Hq _].
        apply Hq; [|done]. apply (HR (WObj props)); [done|].
        simpl. apply list_elem_of_fmap. by exists (k, e).
  - simpl. apply Forall_forall. intros c Hc.
    apply list_elem_of_fmap in Hc as ([k e] & -> & Hin).
    rewrite Forall_forall in IH. by destruct (IH (k, e) Hin).
Qed.

Lemma deserializeProperty_results (w : Wire) (v : Value) :
  R w -> deserializeProperty env w keepUnknowns = Ret v -> Q v.
Proof. intros HRw. by apply deserializeProperty_results_children. Qed.

End DeserializeResults.

Lemma existsb_false_Forall {A} (p : A -> bool) (l : list A) :
  existsb p l = false <-> Forall (fun a => p a = false) l.
Proof.
  induction l as [|a l IH]; simpl.
  - split; [constructor | done].
  - rewrite orb_false_iff, Forall_cons, IH. done.
Qed.


Lemma getV_Forall (Q : Value -> Prop) (k : string) (props : list (string * Value)) :
  Q VUndefined -> Forall (fun kv => Q (snd kv)) props -> Q (getV k props).
Proof.
  intros Hu. induction 1 as [|[k' v] props Hv _ IH]; simpl; [done|].
  by destruct (String.eqb k k').
Qed.

Lemma hasUnknown_unwrapRpcSecret (d : Value) :
  hasUnknown d = false -> hasUnknown (unwrapRpcSecret d) = false.
Proof.
  unfold unwrapRpcSecret. destruct (negb _); [done|].
  destruct d; try done. simpl. intros Hd.
  apply (getV_Forall (fun v => hasUnknown v = false)); [done|].
  by apply existsb_false_Forall in Hd.
Qed.


Lemma hasUnknown_ofWire (w : Wire) : hasUnknown (ofWire w) = false.
Proof.
  induction w as [| | | | |elems IH|props IH] using Wire_nested_ind; simpl; try done.
  - apply existsb_false_Forall, Forall_fmap. done.
  - apply (existsb_false_Forall (fun kv => hasUnknown (snd kv))), Forall_fmap.
    eapply Forall_impl; [exact IH|]. done.
Qed.


Lemma containsUnknownValues_children (w c : Wire) :
  containsUnknownValues w = false -> c ∈ children w -> containsUnknownValues c = false.
Proof.
  destruct w as [| | | | |elems|props]; simpl; try (intros _ Hc; by apply elem_of_nil in Hc).
  - intros Hw Hc. apply existsb_false_Forall in Hw. rewrite Forall_forall in Hw. by apply Hw.
  - intros Hw Hc. apply (existsb_false_Forall (fun kv => containsUnknownValues (snd kv))) in Hw.
    apply list_elem_of_fmap in Hc as (kv & -> & Hin).
    rewrite Forall_forall in Hw. by apply Hw.
Qed.

Section Unknowns.
Context (env : Env) (keepUnknowns : option bool).

Lemma deserializeProperty_unknown_free (R : Wire -> Prop) (w : Wire) (v : Value) :
  (forall w c, R w -> c ∈ children w -> R c) ->
  (forall s, R (WStr s) -> hasUnknown (deserializeString env s keepUnknowns) = false) ->
  R w -> deserializeProperty env w keepUnknowns = Ret v -> hasUnknown v = false.
Proof.
  intros HR Hstr.
  apply (deserializeProperty_results env keepUnknowns (fun v => hasUnknown v = false) R);
    try done.
  - intros kind x. apply hasUnknown_ofWire.
  - intros kind x. apply hasUnknown_ofWire.
  - intros members Hm. simpl. by apply (existsb_false_Forall (fun kv => hasUnknown (snd kv))).
  - intros elems He. simpl. by apply existsb_false_Forall.
  - intros obj Ho. simpl. by apply (existsb_false_Forall (fun kv => hasUnknown (snd kv))).
  - apply hasUnknown_unwrapRpcSecret.
  - intros x Hx. simpl. by rewrite Hx.
Qed.

(** X6. Outside a preview and without [keepUnknowns], the value that
    [deserializeProperty] returns holds the unknown sentinel nowhere: the
    unknown marker becomes [undefined]. *)
Theorem deserializeProperty_no_unknown (w : Wire) (v : Value) :
  isDryRun env tt = false -> truthy_opt keepUnknowns = false ->
  deserializeProperty env w keepUnknowns = Ret v -> hasUnknown v = false.
Proof.
  intros Hdry Hkeep.
  apply (deserializeProperty_unknown_free (fun _ => True)); try done.
  intros s _. unfold deserializeString. rewrite Hdry, Hkeep.
  by destruct (String.eqb s unknownValue).
Qed.

(** X7. In every mode, the unknown sentinel occurs in the value that
    [deserializeProperty] returns only if [containsUnknownValues] holds of
    the wire value. *)
Theorem deserializeProperty_unknown_origin (w : Wire) (v : Value) :
  deserializeProperty env w keepUnknowns = Ret v -> hasUnknown v = true ->
  containsUnknownValues w = true.
Proof.
  intros Hv Hu. destruct (containsUnknownValues w) eqn:Hw; [done|].
  rewrite (deserializeProperty_unknown_free
             (fun w => containsUnknownValues w = false) w v) in Hu; try done.
  - apply containsUnknownValues_children.
  - intros s Hs. unfold deserializeString. simpl in Hs.
    by destruct (String.eqb s unknownValue).
Qed.


End Unknowns.

Lemma deserializeProperty_no_unknown_witness :
  hasUnknown (VArr [VUndefined; VStr "a"]) = false.
Proof.
  apply (deserializeProperty_no_unknown (exampleEnv false) None
           (WArr [WStr unknownValue; WStr "a"])); reflexivity.
Defined.

Lemma deserializeProperty_unknown_origin_witness :
  containsUnknownValues (WObj [("a", WArr [WStr unknownValue])]) = true.
Proof.
  apply (deserializeProperty_unknown_origin (exampleEnv true) None
           (WObj [("a", WArr [WStr unknownValue])]) (VObj [("a", VArr [VUnknown])]));
    reflexivity.
Defined.


(** ** Secrets in serialized properties *)

(** [isRpcSecretW] and [unwrapRpcSecretW] are [isRpcSecret] and
    [unwrapRpcSecret] on the wire values. *)
Lemma truthy_ofWire (w : Wire) : truthy (ofWire w) = truthyW w.
Proof. by destruct w. Qed.

Lemma isRpcSecret_ofWire (w : Wire) : isRpcSecret (ofWire w) = ofWire (isRpcSecretW w).
Proof.
  unfold isRpcSecret, isRpcSecretW. rewrite truthy_ofWire.
  destruct (truthyW w); [|done]. destruct w; try done. simpl.
  rewrite getV_ofWire. by destruct (getW specialSigKey props).
Qed.

Lemma unwrapRpcSecret_ofWire (w : Wire) :
  unwrapRpcSecret (ofWire w) = ofWire (unwrapRpcSecretW w).
Proof.
  unfold unwrapRpcSecret, unwrapRpcSecretW.
  rewrite isRpcSecret_ofWire, truthy_ofWire.
  destruct (negb _); [done|]. destruct w; try done. simpl. apply getV_ofWire.
Qed.

Lemma isRpcSecretW_hasSecretSig (props : list (string * Wire)) :
  truthyW (isRpcSecretW (WObj props)) = hasSecretSig props.
Proof.
  unfold isRpcSecretW, hasSecretSig. simpl. by destruct (getW specialSigKey props).
Qed.

Section UnwrapFacts.
Context (f : Wire -> Wire * bool).

Lemma unwrapElements_eq elems hadSecret result :
  unwrapElements f elems hadSecret result
  = (WArr (result ++ map (fun e => fst (f e)) elems),
     hadSecret || existsb (fun e => snd (f e)) elems).
Proof.
  revert hadSecret result. induction elems as [|e elems IH]; intros hadSecret result; simpl.
  - by rewrite app_nil_r, orb_false_r.
  - destruct (f e) as [unwrapped isSecret]. rewrite IH. simpl.
    by rewrite <- app_assoc, orb_assoc.
Qed.

Lemma unwrapEntries_snd props hadSecret result :
  snd (unwrapEntries f props hadSecret result)
  = hadSecret || existsb (fun kv => snd (f (snd kv))) props.
Proof.
  revert hadSecret result. induction props as [|[k e] props IH]; intros hadSecret result; simpl.
  - by rewrite orb_false_r.
  - destruct (f e) as [unwrapped isSecret]. rewrite IH. simpl. by rewrite orb_assoc.
Qed.

Lemma unwrapEntries_fst props hadSecret result :
  NoDup (map fst result ++ map fst props) ->
  fst (unwrapEntries f props hadSecret result)
  = WObj (result ++ map (fun kv => (fst kv, fst (f (snd kv)))) props).
Proof.
  revert hadSecret result.
  induction props as [|[k e] props IH]; intros hadSecret result Hnd; simpl.
  - by rewrite app_nil_r.
  - destruct (f e) as [unwrapped isSecret]. simpl.
    assert (k ∉ map fst result) as Hk.
    { apply NoDup_app in Hnd as (_ & Hdis & _). intros Hin. apply (Hdis k Hin). left. }
    rewrite (setProp_fresh k _ result Hk). rewrite IH.
    + by rewrite <- app_assoc.
    + rewrite map_app. simpl. by rewrite <- app_assoc.
Qed.

End UnwrapFacts.

Lemma unwrapSecretValues_hadSecret (w : Wire) :
  snd (unwrapSecretValues w) = negb (secretFreeW w).
Proof.
  induction w as [| | | | |elems IH|props IH] using Wire_nested_ind; try done.
  - simpl. rewrite unwrapElements_eq. simpl.
    induction IH as [|e elems He _ IH]; simpl; [done|].
    by rewrite He, IH, negb_andb.
  - change (unwrapSecretValues (WObj props))
      with (if truthyW (isRpcSecretW (WObj props))
            then (unwrapRpcSecretW (WObj props), true)
            else unwrapEntries unwrapSecretValues props false []).
    rewrite isRpcSecretW_hasSecretSig. simpl.
    destruct (hasSecretSig props); [done|].
    rewrite unwrapEntries_snd. simpl.
    induction IH as [|[k e] props He _ IH]; simpl in *; [done|].
    by rewrite He, IH, negb_andb.
Qed.

Lemma unwrapSecretValues_primitive (w : Wire) :
  isPrimitive w = true -> unwrapSecretValues w = (w, false).
Proof. by destruct w. Qed.

Lemma getW_map (g : Wire -> Wire) (k : string) (props : list (string * Wire)) :
  g WUndefined = WUndefined ->
  getW k (map (fun kv => (fst kv, g (snd kv))) props) = g (getW k props).
Proof.
  intros Hg. induction props as [|[k' e] props IH]; simpl; [done|].
  by destruct (String.eqb k k').
Qed.

(** X9. [unwrapSecretValues] reports a secret exactly when an object with
    the secret signature occurs in the value; it returns a value without
    secret unchanged; and what it returns is free of secret envelopes when
    no secret envelope of the value has a secret envelope in its payload. *)
Theorem unwrapSecretValues_unwraps (w : Wire) :
  snd (unwrapSecretValues w) = negb (secretFreeW w)
  /\ (wellFormedW w = true -> secretFreeW w = true -> unwrapSecretValues w = (w, false))
  /\ (properEnvelopesW w = true -> shallowSecretsW w = true ->
      secretFreeW (fst (unwrapSecretValues w)) = true).
Proof.
  split; [apply unwrapSecretValues_hadSecret|].
  induction w as [| | | | |elems IH|props IH] using Wire_nested_ind; try done.
  - (* arrays *)
    simpl. rewrite unwrapElements_eq. simpl. split.
    + intros Hwf Hsf. f_equal.
      * f_equal. induction IH as [|e elems [He _] _ IH]; simpl in *; [done|].
        apply andb_prop in Hwf as [? ?]. apply andb_prop in Hsf as [? ?].
        by rewrite He, IH.
      * induction IH as [|e elems [He _] _ IH]; simpl in *; [done|].
        apply andb_prop in Hwf as [? ?]. apply andb_prop in Hsf as [? ?].
        by rewrite He, IH.
    + intros Hp Hs.
      induction IH as [|e elems [_ He] _ IH]; simpl in *; [done|].
      apply andb_prop in Hp as [? ?]. apply andb_prop in Hs as [? ?].
      by rewrite He, IH.
  - (* objects *)
    change (unwrapSecretValues (WObj props))
      with (if truthyW (isRpcSecretW (WObj props))
            then (unwrapRpcSecretW (WObj props), true)
            else unwrapEntries unwrapSecretValues props false []).
    rewrite isRpcSecretW_hasSecretSig. split.
    + simpl. intros Hwf Hsf.
      apply andb_prop in Hwf as [Hnd Hwf]. apply bool_decide_eq_true in Hnd.
      apply andb_prop in Hsf as [Hsig Hsf]. apply negb_true_iff in Hsig. rewrite Hsig.
      apply injective_projections.
      * rewrite unwrapEntries_fst by done. simpl. f_equal.
        clear Hnd Hsig.
        induction IH as [|[k e] props [He _] _ IH]; simpl in *; [done|].
        apply andb_prop in Hwf as [? ?]. apply andb_prop in Hsf as [? ?].
        by rewrite He, IH.
      * rewrite unwrapEntries_snd. simpl.
        clear Hnd Hsig.
        induction IH as [|[k e] props [He _] _ IH]; simpl in *; [done|].
        apply andb_prop in Hwf as [? ?]. apply andb_prop in Hsf as [? ?].
        by rewrite He, IH.
    + intros Hp Hs. simpl in Hp, Hs.
      apply andb_prop in Hp as [Hp Hall]. apply andb_prop in Hp as [Hnd Hprim].
      apply bool_decide_eq_true in Hnd.
      destruct (hasSecretSig props) eqn:Hsig.
      { unfold unwrapRpcSecretW. rewrite isRpcSecretW_hasSecretSig, Hsig. done. }
      rewrite unwrapEntries_fst by done. simpl.
      apply andb_true_intro. split.
      * unfold hasSecretSig in *.
        rewrite (getW_map (fun e => fst (unwrapSecretValues e))) by done.
        rewrite (unwrapSecretValues_primitive _ Hprim). simpl. by rewrite Hsig.
      * clear Hnd Hprim Hsig.
        induction IH as [|[k e] props [_ He] _ IH]; simpl in *; [done|].
        apply andb_prop in Hall as [? ?]. apply andb_prop in Hs as [? ?].
        by rewrite He, IH.
Qed.

Lemma unwrapSecretValues_unwraps_witness :
  unwrapSecretValues (WArr [WStr "a"; WObj [("k", WNull)]])
  = (WArr [WStr "a"; WObj [("k", WNull)]], false)
  /\ secretFreeW
       (fst (unwrapSecretValues
               (WObj [("p", serializeSecretValue (WStr "s")); ("q", WNum 1)]))) = true.
Proof.
  split.
  - apply (unwrapSecretValues_unwraps (WArr [WStr "a"; WObj [("k", WNull)]]));
      vm_compute; reflexivity.
  - apply (unwrapSecretValues_unwraps
             (WObj [("p", serializeSecretValue (WStr "s")); ("q", WNum 1)]));
      vm_compute; reflexivity.
Defined.

(** ** More on property transfer *)

Section TransferMore.
Context (env : Env).

Lemma installed_lookup (ks : list string) (onto : gmap string TargetProperty) (k : string) :
  installed ks onto !! k
  = if bool_decide (k ∈ ks) then Some (Transferred pendingCell) else onto !! k.
Proof.
  unfold installed. revert onto. induction ks as [|k0 ks IH]; intros onto; cbn [fold_left].
  { case_bool_decide as Hin; [by apply elem_of_nil in Hin | done]. }
  rewrite IH. case_bool_decide as H1; case_bool_decide as H2; try done.
  - destruct H2. by right.
  - apply elem_of_cons in H2 as [->|Hin]; [by rewrite lookup_insert_eq | done].
  - rewrite lookup_insert_ne; [done|]. intros ->. destruct H2. left.
Qed.

Lemma installed_app (ks ks' : list string) (onto : gmap string TargetProperty) :
  installed (ks ++ ks') onto = installed ks' (installed ks onto).
Proof. unfold installed. by rewrite fold_left_app. Qed.

Lemma transferable_eqb (k : string) :
  (String.eqb k "id" || String.eqb k "urn") = negb (transferable k).
Proof. unfold transferable. by rewrite negb_involutive. Qed.

Lemma transferLoop_installs label props ks0 onto :
  NoDup (map fst props) ->
  (forall k, k ∈ ks0 -> is_Some (onto !! k)) ->
  (forall k, k ∈ map fst props -> transferable k = true -> onto !! k = None) ->
  transferLoop env label props (resolversOf env ks0) onto
  = (Ret (resolversOf env (ks0 ++ List.filter transferable (map fst props))),
     installed (List.filter transferable (map fst props)) onto).
Proof.
  revert ks0 onto. induction props as [|[k v] props IH]; intros ks0 onto Hnd Hown Hfree.
  { simpl. by rewrite app_nil_r. }
  simpl in Hnd |- *. apply NoDup_cons in Hnd as [Hk Hnd].
  rewrite transferable_eqb. destruct (transferable k) eqn:Ht; simpl.
  - assert (onto !! k = None) as Hnone by (apply Hfree; [left | done]).
    rewrite bool_decide_eq_false_2 by (rewrite Hnone; by intros [x Hx]).
    assert (k ∉ ks0) as Hfresh.
    { intros Hin. destruct (Hown k Hin) as [x Hx]. by rewrite Hnone in Hx. }
    assert (setProp k (resolverOf env k) (resolversOf env ks0) = resolversOf env (ks0 ++ [k]))
      as ->.
    { unfold resolversOf. rewrite map_app. simpl. apply setProp_fresh.
      by rewrite map_map, map_id. }
    rewrite IH; [by rewrite <- app_assoc|done| |].
    + intros k' Hin. apply elem_of_app in Hin as [Hin|Hin].
      * destruct (decide (k' = k)) as [->|Hne]; [by rewrite lookup_insert_eq|].
        rewrite lookup_insert_ne by done. by apply Hown.
      * apply list_elem_of_singleton in Hin as ->. by rewrite lookup_insert_eq.
    + intros k' Hin Ht'. rewrite lookup_insert_ne; [apply Hfree; [by right | done]|].
      by intros ->.
  - apply IH; [done | done|]. intros k' Hin. apply Hfree. by right.
Qed.

Lemma transferLoop_app label props props' resolvers onto :
  transferLoop env label (props ++ props') resolvers onto
  = match transferLoop env label props resolvers onto with
    | (Ret resolvers', onto') => transferLoop env label props' resolvers' onto'
    | other => other
    end.
Proof.
  revert resolvers onto. induction props as [|[k v] props IH]; intros resolvers onto; simpl.
  - done.
  - destruct (String.eqb k "id" || String.eqb k "urn"); [apply IH|].
    destruct (bool_decide (is_Some (onto !! k))); [done | apply IH].
Qed.

(** X10. On a target that owns none of the properties,
    [transferProperties] returns one resolver for each property other than
    [id] and [urn], in the order of the properties, and installs a pending
    output under each of these keys; every other property of the target is
    left as it is.  This holds for properties that are not named like a member
    of [Object.prototype] and whose values [safeToString] can label, on a
    target that has no own property [hasOwnProperty]: [resolvers[k] = ...] and
    [onto[k] = ...] add no property under [__proto__], an output installed
    under [hasOwnProperty] hides the method the next test calls, and
    [safeToString] raises a TypeError for a value without string
    conversion. *)
Theorem transferProperties_installs (onto : gmap string TargetProperty) (label : string)
    (props : list (string * Value)) :
  NoDup (map fst props) ->
  ordinaryKeys props = true ->
  labelled env props = true ->
  onto !! "hasOwnProperty" = None ->
  (forall k, k ∈ map fst props -> transferable k = true -> onto !! k = None) ->
  let ks := List.filter transferable (map fst props) in
  transferProperties env onto label props = (Ret (resolversOf env ks), installed ks onto)
  /\ (forall k, installed ks onto !! k
                = if bool_decide (k ∈ ks) then Some (Transferred pendingCell) else onto !! k).
Proof.
  intros Hnd _ _ _ Hfree ks. split; [|apply installed_lookup].
  unfold transferProperties.
  apply (transferLoop_installs label props [] onto); try done.
  intros k Hk. by apply elem_of_nil in Hk.
Qed.

(** X11. When the target already owns a property other than [id] and
    [urn], [transferProperties] raises at the first such property, and the
    outputs it installed for the properties before it stay on the target.
    The properties before it are not named like a member of
    [Object.prototype] and have values that [safeToString] can label, and the
    target has no own property [hasOwnProperty]; the test of the conflicting
    property comes before its label is built, so its value is free. *)
Theorem transferProperties_conflict (onto : gmap string TargetProperty) (label : string)
    (before after : list (string * Value)) (k : string) (v : Value) :
  NoDup (map fst before) ->
  ordinaryKeys before = true ->
  labelled env before = true ->
  onto !! "hasOwnProperty" = None ->
  (forall k', k' ∈ map fst before -> transferable k' = true -> onto !! k' = None) ->
  transferable k = true -> is_Some (onto !! k) ->
  transferProperties env onto label (before ++ (k, v) :: after)
  = (Throw (PropertyAlreadyInitialized k label),
     installed (List.filter transferable (map fst before)) onto).
Proof.
  intros Hnd _ _ _ Hfree Ht Hown. unfold transferProperties.
  rewrite transferLoop_app.
  change (transferLoop env label before [] onto)
    with (transferLoop env label before (resolversOf env []) onto).
  rewrite (transferLoop_installs label before [] onto); try done.
  - simpl. rewrite transferable_eqb, Ht. simpl.
    rewrite bool_decide_eq_true_2; [done|].
    rewrite installed_lookup. by destruct (bool_decide _).
  - intros k' Hk'. by apply elem_of_nil in Hk'.
Qed.

End TransferMore.

Lemma transferProperties_installs_witness :
  let props := [("id", VStr "i"); ("name", VStr "n"); ("size", VNull)] in
  transferProperties (exampleEnv false) ∅ "resource:r" props
  = (Ret (resolversOf (exampleEnv false) ["name"; "size"]), installed ["name"; "size"] ∅).
Proof.
  intros props.
  apply (transferProperties_installs (exampleEnv false) ∅ "resource:r" props).
  - apply (bool_decide_unpack _). by vm_compute.
  - reflexivity.
  - reflexivity.
  - apply lookup_empty.
  - intros k _ _. apply lookup_empty.
Defined.

Lemma transferProperties_conflict_witness :
  transferProperties (exampleEnv false) (<["size" := Initialized VNull]> ∅) "resource:r"
    ([("name", VStr "n")] ++ ("size", VNull) :: [("tags", VNull)])
  = (Throw (PropertyAlreadyInitialized "size" "resource:r"),
     installed ["name"] (<["size" := Initialized VNull]> ∅)).
Proof.
  apply (transferProperties_conflict (exampleEnv false)
           (<["size" := Initialized VNull]> ∅) "resource:r"
           [("name", VStr "n")] [("tags", VNull)] "size" VNull).
  - apply (bool_decide_unpack _). by vm_compute.
  - reflexivity.
  - reflexivity.
  - reflexivity.
  - intros k' Hk' _. simpl in Hk'. apply list_elem_of_singleton in Hk' as ->.
    reflexivity.
  - reflexivity.
  - by eexists.
Defined.

Section ResolveTransferred.
Context (env : Env).

Lemma hasOwnProperty_elem {A} (k : string) (props : list (string * A)) :
  hasOwnProperty k props = bool_decide (k ∈ map fst props).
Proof.
  unfold hasOwnProperty. induction props as [|[k' v] props IH]; cbn [existsb map fst].
  { case_bool_decide as Hin; [by apply elem_of_nil in Hin | done]. }
  rewrite IH. destruct (String.eqb_spec k k') as [->|Hne]; cbn [orb].
  - rewrite bool_decide_eq_true_2; [done | left].
  - case_bool_decide as H1; case_bool_decide as H2; try done.
    + destruct H2. by right.
    + apply elem_of_cons in H2 as [?|?]; done.
Qed.

Lemma getResolver_resolversOf (k : string) (ks : list string) :
  getResolver k (resolversOf env ks)
  = if bool_decide (k ∈ ks) then Some (resolverOf env k) else None.
Proof.
  induction ks as [|k' ks IH]; cbn [resolversOf map getResolver].
  { case_bool_decide as Hin; [by apply elem_of_nil in Hin | done]. }
  fold (resolversOf env ks). rewrite IH. destruct (String.eqb_spec k k') as [->|Hne].
  - rewrite bool_decide_eq_true_2; [done | left].
  - case_bool_decide as H1; case_bool_decide as H2; try done.
    + destruct H2. by right.
    + apply elem_of_cons in H2 as [?|?]; done.
Qed.

(** The resolvers that [transferProperties] returns are the closures of
    their keys, none of which is [id] or [urn], and the target holds a
    pending output under each of them. *)
Lemma transferLoop_shape label props ks0 onto resolvers onto' :
  transferLoop env label props (resolversOf env ks0) onto = (Ret resolvers, onto') ->
  (forall k, k ∈ ks0 ->
     transferable k = true /\ onto !! k = Some (Transferred pendingCell)) ->
  exists ks,
    resolvers = resolversOf env ks
    /\ (forall k, k ∈ ks ->
          transferable k = true /\ onto' !! k = Some (Transferred pendingCell)).
Proof.
  revert ks0 onto. induction props as [|[k v] props IH]; intros ks0 onto Heq Hks0; simpl in Heq.
  { simplify_eq. by exists ks0. }
  rewrite transferable_eqb in Heq. destruct (transferable k) eqn:Ht; simpl in Heq.
  - destruct (bool_decide (is_Some (onto !! k))) eqn:Hown; [done|].
    apply bool_decide_eq_false in Hown.
    assert (k ∉ ks0) as Hfresh.
    { intros Hin. destruct (Hks0 k Hin) as [_ Hk]. destruct Hown. by eexists. }
    assert (setProp k (resolverOf env k) (resolversOf env ks0) = resolversOf env (ks0 ++ [k]))
      as E.
    { unfold resolversOf. rewrite map_app. simpl. apply setProp_fresh.
      by rewrite map_map, map_id. }
    rewrite E in Heq. apply (IH _ _ Heq).
    intros k' Hin. apply elem_of_app in Hin as [Hin|Hin].
    + destruct (Hks0 k' Hin) as [Ht' Hk']. split; [done|].
      rewrite lookup_insert_ne; [done|]. by intros ->.
    + apply list_elem_of_singleton in Hin as ->. by rewrite lookup_insert_eq.
  - by apply (IH _ _ Heq).
Qed.

Lemma transferProperties_shape onto label props resolvers onto' :
  transferProperties env onto label props = (Ret resolvers, onto') ->
  exists ks,
    resolvers = resolversOf env ks
    /\ (forall k, k ∈ ks ->
          transferable k = true /\ onto' !! k = Some (Transferred pendingCell)).
Proof.
  intros Heq. apply (transferLoop_shape label props [] onto); [done|].
  intros k Hk. by apply elem_of_nil in Hk.
Qed.

Lemma hasOwnProperty_resolversOf (k : string) (ks : list string) :
  hasOwnProperty k (resolversOf env ks) = bool_decide (k ∈ ks).
Proof. rewrite hasOwnProperty_elem. unfold resolversOf. by rewrite map_map, map_id. Qed.

(** A target after its outputs under the keys [ks] were settled by [g]. *)
Lemma settled_lookup (g : string -> OutputCell -> OutputCell) (ks : list string)
    (st : gmap string TargetProperty) (k : string) :
  (forall c, g k (g k c) = g k c) ->
  fold_left (fun o k => alter (onCell (g k)) k o) ks st !! k
  = if bool_decide (k ∈ ks) then onCell (g k) <$> st !! k else st !! k.
Proof.
  intros Hidem. revert st. induction ks as [|k0 ks IH]; intros st; cbn [fold_left].
  { case_bool_decide as Hin; [by apply elem_of_nil in Hin | done]. }
  rewrite IH. destruct (decide (k = k0)) as [->|Hne].
  - rewrite lookup_alter_eq. rewrite (bool_decide_eq_true_2 (k0 ∈ k0 :: ks)) by left.
    case_bool_decide; [|done].
    destruct (st !! k0) as [[x|c]|]; simpl; try done. by rewrite Hidem.
  - rewrite lookup_alter_ne by done.
    case_bool_decide as H1; case_bool_decide as H2; try done.
    + destruct H2. by right.
    + apply elem_of_cons in H2 as [?|?]; done.
Qed.

Lemma settle_idem {A} (o p : PromiseState A) : settle o (settle o p) = settle o p.
Proof. by destruct p, o. Qed.


Lemma resolveAll_idem v isKnown isSecret deps c :
  resolveAll v isKnown isSecret deps (resolveAll v isKnown isSecret deps c)
  = resolveAll v isKnown isSecret deps c.
Proof. unfold resolveAll. simpl. by rewrite !settle_idem. Qed.


Lemma presentLoop_resolversOf (ks : list string) t name allProps entries deps
    (st : gmap string TargetProperty) :
  presentLoop (resolversOf env ks) t name allProps entries deps st
  = Ret (fold_left
           (fun o k =>
              alter (onCell (resolveAll (unwrapRpcSecret (getV k allProps)) true
                               (isRpcSecret (getV k allProps))
                               (default [] (getDeps k deps)))) k o)
           (List.filter (fun k => transferable k && bool_decide (k ∈ ks)) (map fst entries))
           st).
Proof.
  revert st. induction entries as [|[k v] entries IH]; intros st; simpl; [done|].
  rewrite transferable_eqb. destruct (transferable k); simpl; [|apply IH].
  rewrite getResolver_resolversOf. destruct (bool_decide (k ∈ ks)); simpl; apply IH.
Qed.

Lemma absentLoop_resolversOf (ks : list string) allProps keepUnknowns
    (st : gmap string TargetProperty) :
  absentLoop env (resolversOf env ks) allProps keepUnknowns st
  = Ret (fold_left
           (fun o k =>
              alter (onCell (resolveAll VUndefined
                               (negb (isDryRun env tt) && negb (truthy_opt keepUnknowns))
                               (VBool false) [])) k o)
           (List.filter (fun k => negb (hasOwnProperty k allProps)) ks) st).
Proof.
  revert st. induction ks as [|k ks IH]; intros st; simpl; [done|].
  destruct (negb (hasOwnProperty k allProps)); simpl; apply IH.
Qed.


(** X13. After [transferProperties], [resolveProperties] without error
    returns and leaves no promise of a transferred property pending: a
    property with a value in [allProps] is fulfilled with that value, unwrapped
    when it is a secret envelope, as known, with its dependencies; a property
    without value is fulfilled with [undefined], known exactly outside a
    preview without [keepUnknowns].  The properties transferred and the
    properties of [allProps] are not named like a member of
    [Object.prototype]: under such a name [resolvers[k]] and [deps[k]] find
    the inherited member where there is no own property, and
    [allProps.hasOwnProperty] is hidden by an own property of that name; no
    value of [allProps] is a promise, which the promise resolved with it
    would follow; the transfer is the one of a target without own property
    [hasOwnProperty] and of values that [safeToString] can label. *)
Theorem resolveProperties_resolves_transferred (onto onto' : gmap string TargetProperty)
    (label : string) (props : list (string * Value))
    (resolvers : list (string * Resolver (gmap string TargetProperty)))
    (t name : string) (allProps : list (string * Value))
    (deps : list (string * list Resource)) (keepUnknowns : option bool) :
  ordinaryKeys props = true ->
  labelled env props = true ->
  onto !! "hasOwnProperty" = None ->
  ordinaryKeys allProps = true ->
  promiseFree allProps = true ->
  transferProperties env onto label props = (Ret resolvers, onto') ->
  exists final,
    resolveProperties env resolvers t name allProps deps None keepUnknowns onto' = Ret final
    /\ forall k,
         final !! k
         = if hasOwnProperty k resolvers
           then Some (Transferred (resolvedCell env allProps deps keepUnknowns k))
           else onto' !! k.
Proof.
  intros _ _ _ _ _ Heq. destruct (transferProperties_shape _ _ _ _ _ Heq) as (ks & -> & Hks).
  unfold resolveProperties. rewrite presentLoop_resolversOf. cbn [bind].
  rewrite absentLoop_resolversOf. eexists. split; [done|].
  intros k. rewrite hasOwnProperty_resolversOf.
  rewrite (settled_lookup
             (fun _ => resolveAll VUndefined
                         (negb (isDryRun env tt) && negb (truthy_opt keepUnknowns))
                         (VBool false) []))
    by (intros c; apply resolveAll_idem).
  rewrite (settled_lookup
             (fun k => resolveAll (unwrapRpcSecret (getV k allProps)) true
                         (isRpcSecret (getV k allProps)) (default [] (getDeps k deps))))
    by (intros c; apply resolveAll_idem).
  unfold resolvedCell. rewrite hasOwnProperty_elem.
  destruct (decide (k ∈ ks)) as [Hin|Hnin].
  - destruct (Hks k Hin) as [Ht Hk]. rewrite Hk.
    rewrite (bool_decide_eq_true_2 (k ∈ ks)) by done.
    destruct (decide (k ∈ map fst allProps)) as [Hp|Hp].
    + rewrite (bool_decide_eq_true_2 (k ∈ map fst allProps)) by done.
      rewrite bool_decide_eq_false_2.
      2:{ intros Hf. apply list_elem_of_In, filter_In in Hf as [_ Hf].
          rewrite hasOwnProperty_elem, bool_decide_eq_true_2 in Hf; done. }
      rewrite bool_decide_eq_true_2; [done|].
      apply list_elem_of_In, filter_In. split; [by apply list_elem_of_In|].
      rewrite Ht. simpl. by apply bool_decide_eq_true_2.
    + rewrite (bool_decide_eq_false_2 (k ∈ map fst allProps)) by done.
      rewrite bool_decide_eq_true_2.
      2:{ apply list_elem_of_In, filter_In. split; [by apply list_elem_of_In|].
          rewrite hasOwnProperty_elem, bool_decide_eq_false_2; done. }
      rewrite bool_decide_eq_false_2; [done|].
      intros Hf. apply list_elem_of_In, filter_In in Hf as [Hf _].
      by apply list_elem_of_In in Hf.
  - rewrite (bool_decide_eq_false_2 (k ∈ ks)) by done.
    rewrite !bool_decide_eq_false_2; [done| |].
    + intros Hf. apply list_elem_of_In, filter_In in Hf as [_ Hf].
      apply andb_prop in Hf as [_ Hf]. by apply bool_decide_eq_true in Hf.
    + intros Hf. apply list_elem_of_In, filter_In in Hf as [Hf _].
      by apply list_elem_of_In in Hf.
Qed.

End ResolveTransferred.


Lemma resolveProperties_resolves_transferred_witness :
  exists final,
    resolveProperties (exampleEnv false) (resolversOf (exampleEnv false) ["name"; "size"])
      "t" "n" [("name", secretEnvelope (VStr "s"))] [] None None
      (installed ["name"; "size"] ∅)
    = Ret final
    /\ forall k,
         final !! k
         = if hasOwnProperty k (resolversOf (exampleEnv false) ["name"; "size"])
           then Some (Transferred
                        (resolvedCell (exampleEnv false) [("name", secretEnvelope (VStr "s"))]
                           [] None k))
           else installed ["name"; "size"] ∅ !! k.
Proof.
  apply (resolveProperties_resolves_transferred (exampleEnv false) ∅
           (installed ["name"; "size"] ∅) "resource:r" [("name", VNull); ("size", VNull)]).
  - reflexivity.
  - reflexivity.
  - apply lookup_empty.
  - reflexivity.
  - reflexivity.
  - reflexivity.
Defined.

Section ResolveCalls.
Context (env : Env).

Lemma getResolver_recorders (k : string) (keys : list string) :
  getResolver k (recorders keys) = if bool_decide (k ∈ keys) then Some (recorder k) else None.
Proof.
  induction keys as [|k' keys IH]; cbn [recorders map getResolver].
  { case_bool_decide as Hin; [by apply elem_of_nil in Hin | done]. }
  fold (recorders keys). rewrite IH. destruct (String.eqb_spec k k') as [->|Hne].
  - rewrite bool_decide_eq_true_2; [done | left].
  - case_bool_decide as H1; case_bool_decide as H2; try done.
    + destruct H2. by right.
    + apply elem_of_cons in H2 as [?|?]; done.
Qed.

Lemma presentLoop_calls (keys : list string) t name allProps entries deps log :
  presentLoop (recorders keys) t name allProps entries deps log
  = Ret (log ++ map (presentCall allProps deps)
                  (List.filter (fun k => transferable k && bool_decide (k ∈ keys))
                     (map fst entries))).
Proof.
  revert log. induction entries as [|[k v] entries IH]; intros log; simpl.
  { by rewrite app_nil_r. }
  rewrite transferable_eqb. destruct (transferable k); simpl; [|apply IH].
  rewrite getResolver_recorders. destruct (bool_decide (k ∈ keys)); simpl; [|apply IH].
  unfold recorder. rewrite IH. by rewrite <- app_assoc.
Qed.

Lemma rejectLoop_calls (keys : list string) (err : Error) log :
  rejectLoop (recorders keys) err log = Ret (log ++ map (errorCall err) keys).
Proof.
  revert log. induction keys as [|k keys IH]; intros log; simpl.
  { by rewrite app_nil_r. }
  unfold recorder. simpl. rewrite IH. by rewrite <- app_assoc.
Qed.

(** X14. The calls that [resolveProperties] makes, seen by resolvers that
    only record.  Without error: first, in the order of [allProps], one call
    for every property of [allProps] other than [id] and [urn] that has a
    resolver, with the value unwrapped when it is a secret envelope, as known,
    with the secret flag of the value and the dependencies of the property;
    then the calls for the resolvers without value in [allProps]; properties
    without resolver are ignored.  With an error: one call
    [(undefined, true, false, [], err)] for every resolver, and [allProps] is
    not looked at.  The properties of [allProps] are not named like a member
    of [Object.prototype]: under such a name [resolvers[k]] and [deps[k]] find
    the inherited member where there is no own property, and an own property
    [hasOwnProperty] hides the method that the last loop calls. *)
Theorem resolveProperties_calls (keys : list string) (t name : string)
    (allProps : list (string * Value)) (deps : list (string * list Resource))
    (keepUnknowns : option bool) (log : list Call) :
  ordinaryKeys allProps = true ->
  resolveProperties env (recorders keys) t name allProps deps None keepUnknowns log
  = Ret (log
         ++ map (presentCall allProps deps)
              (List.filter (fun k => transferable k && bool_decide (k ∈ keys))
                 (map fst allProps))
         ++ map (absentCall env keepUnknowns)
              (List.filter (fun k => negb (hasOwnProperty k allProps)) keys))
  /\ forall err,
       resolveProperties env (recorders keys) t name allProps deps (Some err) keepUnknowns log
       = Ret (log ++ map (errorCall err) keys).
Proof.
  intros _. split.
  - unfold resolveProperties. rewrite presentLoop_calls. cbn [bind].
    rewrite absentLoop_recorders. by rewrite <- app_assoc.
  - intros err. apply rejectLoop_calls.
Qed.

Lemma count_calls (mk : string -> Call) (l : list string) (k : string) :
  (forall x, call_key (mk x) = x) -> NoDup l ->
  length (List.filter (fun c => String.eqb (call_key c) k) (map mk l))
  = if bool_decide (k ∈ l) then 1 else 0.
Proof.
  intros Hmk. induction 1 as [|x l Hx Hnd IH]; cbn [map List.filter].
  { case_bool_decide as Hin; [by apply elem_of_nil in Hin | done]. }
  rewrite Hmk. destruct (String.eqb_spec x k) as [->|Hne]; cbn [length].
  - rewrite IH. rewrite (bool_decide_eq_false_2 (k ∈ l)) by done.
    rewrite bool_decide_eq_true_2; [done | left].
  - rewrite IH. case_bool_decide as H1; case_bool_decide as H2; try done.
    + destruct H2. by right.
    + apply elem_of_cons in H2 as [?|?]; done.
Qed.

Lemma bool_decide_filter (p : string -> bool) (l : list string) (k : string) :
  bool_decide (k ∈ List.filter p l) = p k && bool_decide (k ∈ l).
Proof.
  destruct (p k) eqn:Hp; simpl.
  - apply bool_decide_ext. rewrite !list_elem_of_In, filter_In. tauto.
  - apply bool_decide_eq_false_2. rewrite list_elem_of_In, filter_In.
    intros [_ Hp']. by rewrite Hp in Hp'.
Qed.

Lemma filter_length_app {A} (p : A -> bool) (l l' : list A) :
  length (List.filter p (l ++ l')) = length (List.filter p l) + length (List.filter p l').
Proof. by rewrite List.filter_app, length_app. Qed.

(** X15. When the operation succeeded, every resolver is called exactly
    once, except a resolver named [id] or [urn] whose property has a value in
    [allProps], which is not called at all.  The properties of [allProps] are
    not named like a member of [Object.prototype], under which [resolvers[k]]
    finds the inherited member where there is no resolver. *)
Theorem resolveProperties_calls_once (keys : list string) (t name : string)
    (allProps : list (string * Value)) (deps : list (string * list Resource))
    (keepUnknowns : option bool) (k : string) :
  NoDup keys -> NoDup (map fst allProps) -> ordinaryKeys allProps = true -> k ∈ keys ->
  exists calls,
    resolveProperties env (recorders keys) t name allProps deps None keepUnknowns [] = Ret calls
    /\ length (List.filter (fun c => String.eqb (call_key c) k) calls)
       = if transferable k || negb (hasOwnProperty k allProps) then 1 else 0.
Proof.
  intros Hkeys Hprops _ Hk. unfold resolveProperties.
  rewrite presentLoop_calls. cbn [bind]. rewrite absentLoop_recorders.
  eexists. split; [done|]. cbn [app]. rewrite filter_length_app.
  rewrite (count_calls (presentCall allProps deps)), (count_calls (absentCall env keepUnknowns));
    try done.
  - rewrite !bool_decide_filter, hasOwnProperty_elem.
    rewrite (bool_decide_eq_true_2 (k ∈ keys)) by done.
    destruct (transferable k), (bool_decide (k ∈ map fst allProps)); done.
  - by apply NoDup_ListNoDup, List.NoDup_filter, NoDup_ListNoDup.
  - by apply NoDup_ListNoDup, List.NoDup_filter, NoDup_ListNoDup.
Qed.

End ResolveCalls.

Lemma resolveProperties_calls_once_witness :
  exists calls,
    resolveProperties (exampleEnv false) (recorders ["id"; "name"; "size"]) "t" "n"
      [("id", VStr "i"); ("name", VStr "n")] [] None None [] = Ret calls
    /\ length (List.filter (fun c => String.eqb (call_key c) "id") calls) = 0.
Proof.
  apply (resolveProperties_calls_once (exampleEnv false) ["id"; "name"; "size"] "t" "n"
           [("id", VStr "i"); ("name", VStr "n")] [] None "id").
  - apply (bool_decide_unpack _). by vm_compute.
  - apply (bool_decide_unpack _). by vm_compute.
  - reflexivity.
  - left.
Defined.

Lemma resolveProperties_calls_witness :
  resolveProperties (exampleEnv false) (recorders ["name"; "size"]) "t" "n"
    [("id", VStr "i"); ("name", secretEnvelope (VStr "s")); ("extra", VNull)]
    [("name", [3%positive])] None None []
  = Ret [ {| call_key := "name"; call_value := VStr "s"; call_isKnown := true;
             call_isSecret := VBool true; call_deps := Some [3%positive];
             call_err := None |};
          {| call_key := "size"; call_value := VUndefined; call_isKnown := true;
             call_isSecret := VBool false; call_deps := None; call_err := None |} ].
Proof.
  apply (resolveProperties_calls (exampleEnv false) ["name"; "size"] "t" "n"
           [("id", VStr "i"); ("name", secretEnvelope (VStr "s")); ("extra", VNull)]
           [("name", [3%positive])] None []).
  reflexivity.
Defined.

(** ** More on the forward marshaler *)

Lemma extendsDeps_refl (d : option (list Resource)) : extendsDeps d d.
Proof. destruct d as [d|]; simpl; [|done]. exists []. by rewrite app_nil_r. Qed.

Lemma extendsDeps_trans (a b c : option (list Resource)) :
  extendsDeps a b -> extendsDeps b c -> extendsDeps a c.
Proof.
  destruct a as [a|], b as [b|], c as [c|]; simpl; try done.
  intros [x ->] [y ->]. exists (x ++ y). by rewrite app_assoc.
Qed.

Lemma setAddAll_extends (rs s : list Resource) : exists added, setAddAll rs s = s ++ added.
Proof.
  unfold setAddAll. revert s. induction rs as [|r rs IH]; intros s; simpl.
  { exists []. by rewrite app_nil_r. }
  destruct (IH (setAdd r s)) as [added ->]. unfold setAdd.
  case_bool_decide; [by exists added|]. exists ([r] ++ added). by rewrite app_assoc.
Qed.

Lemma trackAll_extends (rs : list Resource) (d : option (list Resource)) :
  extendsDeps d (trackAll rs d).
Proof. destruct d as [d|]; simpl; [apply setAddAll_extends | done]. Qed.

Lemma andThen_extends {A B} (d0 : option (list Resource)) (o : Outcome A)
    (d : option (list Resource)) (k : A -> Serialized B) :
  extendsDeps d0 d -> (forall a, extendsDeps d0 (snd (k a))) ->
  extendsDeps d0 (snd (andThen o d k)).
Proof. intros Hd Hk. destruct o; simpl; done. Qed.

Lemma fst_andThen {A B} (o : Outcome A) (d : option (list Resource))
    (k : A -> Serialized B) :
  fst (andThen o d k) = let* a := o in fst (k a).
Proof. by destruct o. Qed.

Section Extends.
Context (env : Env).

Section Body.
Context (rec : Value -> option (list Resource) -> option SerializationOptions
               -> Serialized Wire).
Context (Hrec : forall p d o, extendsDeps d (snd (rec p d o))).

Lemma serializeAllKeys_extends props obj d opts :
  extendsDeps d (snd (serializeAllKeys rec props obj d opts)).
Proof.
  revert obj d. induction props as [|[k p] props IH]; intros obj d; simpl.
  { apply extendsDeps_refl. }
  pose proof (Hrec p d opts) as Hd. destruct (rec p d opts) as [o d']. simpl in Hd.
  apply andThen_extends; [done|]. intros v.
  eapply extendsDeps_trans; [exact Hd | apply IH].
Qed.

Lemma serializeElements_extends elems result d opts :
  extendsDeps d (snd (serializeElements rec elems result d opts)).
Proof.
  revert result d. induction elems as [|p elems IH]; intros result d; simpl.
  { apply extendsDeps_refl. }
  pose proof (Hrec p d opts) as Hd. destruct (rec p d opts) as [o d']. simpl in Hd.
  apply andThen_extends; [done|]. intros v.
  eapply extendsDeps_trans; [exact Hd | apply IH].
Qed.

Lemma serializeOutput_extends resources promise isKnown isSecret d opts :
  extendsDeps d (snd (serializeOutput env rec resources promise isKnown isSecret d opts)).
Proof.
  unfold serializeOutput.
  apply andThen_extends; [apply extendsDeps_refl|]. intros propResources.
  pose proof (trackAll_extends propResources d) as H1.
  apply andThen_extends; [done|]. intros known.
  apply andThen_extends; [done|]. intros secret.
  destruct (rec (VPromise promise) (Some []) dontKeepOutputValues) as [o promiseDeps].
  apply andThen_extends; [done|]. intros value.
  pose proof (extendsDeps_trans _ _ _ H1
                (trackAll_extends (default [] promiseDeps) (trackAll propResources d))) as H2.
  destruct (optKeepOutputValues opts && supportsOutputValues (getStore env tt)).
  - destruct (serializeUrns env rec _ (Some [])) as [o' urnDeps].
    apply andThen_extends; [done|]. intros _.
    pose proof (extendsDeps_trans _ _ _ H2
                  (trackAll_extends (default [] urnDeps)
                     (trackAll (default [] promiseDeps) (trackAll propResources d)))) as H3.
    apply andThen_extends; [done|]. intros dependencies. done.
  - destruct (negb known); [done|]. by destruct (_ && _).
Qed.

Lemma serializeCustomResource_extends r d opts :
  extendsDeps d (snd (serializeCustomResource env rec r d opts)).
Proof.
  unfold serializeCustomResource.
  destruct (optExcludeResourceReferences opts && supportsResourceReferences (getStore env tt)).
  - destruct (rec (id (resourceObject env r)) None dontKeepOutputValues) as [o l1].
    apply andThen_extends; [apply extendsDeps_refl|]. intros i.
    destruct (supportsResourceReferences (getStore env tt)); [|apply extendsDeps_refl].
    destruct (rec (urn (resourceObject env r)) l1 dontKeepOutputValues) as [o2 l2].
    apply andThen_extends; [apply extendsDeps_refl|]. intros u. apply extendsDeps_refl.
  - pose proof (trackAll_extends [r] d) as H0.
    pose proof (Hrec (id (resourceObject env r)) (trackAll [r] d) dontKeepOutputValues) as H1.
    destruct (rec (id (resourceObject env r)) (trackAll [r] d) dontKeepOutputValues)
      as [o l1].
    simpl in H1. pose proof (extendsDeps_trans _ _ _ H0 H1) as H01.
    apply andThen_extends; [done|]. intros i.
    destruct (supportsResourceReferences (getStore env tt)); [|done].
    pose proof (Hrec (urn (resourceObject env r)) l1 dontKeepOutputValues) as H2.
    destruct (rec (urn (resourceObject env r)) l1 dontKeepOutputValues) as [o2 l2].
    simpl in H2. pose proof (extendsDeps_trans _ _ _ H01 H2) as H012.
    apply andThen_extends; [done|]. intros u. done.
Qed.

Lemma serializeComponentResource_extends r d opts :
  extendsDeps d (snd (serializeComponentResource env rec r d opts)).
Proof.
  unfold serializeComponentResource.
  destruct (supportsResourceReferences (getStore env tt)); [|apply Hrec].
  destruct (optExcludeResourceReferences opts).
  - destruct (rec (urn (resourceObject env r)) None dontKeepOutputValues) as [o l1].
    apply andThen_extends; [apply extendsDeps_refl|]. intros u. apply extendsDeps_refl.
  - pose proof (Hrec (urn (resourceObject env r)) d dontKeepOutputValues) as H1.
    destruct (rec (urn (resourceObject env r)) d dontKeepOutputValues) as [o l1].
    simpl in H1. apply andThen_extends; [done|]. intros u. done.
Qed.

Lemma serializeBody_extends prop d opts :
  extendsDeps d (snd (serializeBody env rec prop d opts)).
Proof.
  destruct prop; simpl; try apply extendsDeps_refl.
  - apply serializeElements_extends.
  - apply serializeAllKeys_extends.
  - apply serializeAllKeys_extends.
  - apply serializeAllKeys_extends.
  - apply andThen_extends; [apply extendsDeps_refl|]. intros v. apply Hrec.
  - apply serializeOutput_extends.
  - destruct (kind (resourceObject env r)).
    + apply serializeCustomResource_extends.
    + apply serializeComponentResource_extends.
Qed.

End Body.

Lemma serializeProperty_grows (fuel : nat) (prop : Value)
    (d : option (list Resource)) (opts : option SerializationOptions) :
  extendsDeps d (snd (serializeProperty env fuel prop d opts)).
Proof.
  revert prop d opts. induction fuel as [|fuel IH]; intros prop d opts; simpl.
  - apply extendsDeps_refl.
  - by apply serializeBody_extends.
Qed.

(** X16. Whatever the value, [serializeProperty] only adds to the caller's
    [dependentResources]: a call without set ends without set, and the
    resources that were in the set stay in it, in their order; also when the
    call throws or waits for ever. *)
Theorem serializeProperty_extends (fuel : nat) (prop : Value)
    (dependentResources : option (list Resource)) (opts : option SerializationOptions) :
  extendsDeps dependentResources
    (snd (serializeProperty env fuel prop dependentResources opts))
  /\ (is_Some (snd (serializeProperty env fuel prop dependentResources opts))
      <-> is_Some dependentResources)
  /\ forall r, r ∈ default [] dependentResources ->
       r ∈ default [] (snd (serializeProperty env fuel prop dependentResources opts)).
Proof.
  pose proof (serializeProperty_grows fuel prop dependentResources opts) as H.
  split; [done|].
  destruct dependentResources as [d|],
    (snd (serializeProperty env fuel prop _ opts)) as [d'|]; simpl in H; try done.
  destruct H as [added ->]. split; [done|]. intros r Hr. simpl.
  apply elem_of_app. by left.
Qed.

End Extends.

(** The serialized value does not depend on the set the dependencies are
    collected in. *)
Section Independence.
Context (env : Env).

Section Body.
Context (rec : Value -> option (list Resource) -> option SerializationOptions
               -> Serialized Wire).
Context (Hrec : forall p d d' o, fst (rec p d o) = fst (rec p d' o)).

Lemma serializeAllKeys_independent props obj d d' opts :
  fst (serializeAllKeys rec props obj d opts) = fst (serializeAllKeys rec props obj d' opts).
Proof.
  revert obj d d'. induction props as [|[k p] props IH]; intros obj d d'; simpl; [done|].
  pose proof (Hrec p d d' opts) as Hp.
  destruct (rec p d opts) as [o d1], (rec p d' opts) as [o' d1']. simpl in Hp. subst o'.
  rewrite !fst_andThen. destruct o; simpl; first [done | apply IH].
Qed.

Lemma serializeElements_independent elems result d d' opts :
  fst (serializeElements rec elems result d opts)
  = fst (serializeElements rec elems result d' opts).
Proof.
  revert result d d'. induction elems as [|p elems IH]; intros result d d'; simpl; [done|].
  pose proof (Hrec p d d' opts) as Hp.
  destruct (rec p d opts) as [o d1], (rec p d' opts) as [o' d1']. simpl in Hp. subst o'.
  rewrite !fst_andThen. destruct o; simpl; first [done | apply IH].
Qed.

Lemma serializeOutput_independent resources promise isKnown isSecret d d' opts :
  fst (serializeOutput env rec resources promise isKnown isSecret d opts)
  = fst (serializeOutput env rec resources promise isKnown isSecret d' opts).
Proof.
  unfold serializeOutput. rewrite !fst_andThen.
  destruct (await resources) as [propResources| | |]; try done. cbn [bind].
  rewrite !fst_andThen. destruct (await isKnown) as [known| | |]; try done. cbn [bind].
  rewrite !fst_andThen. destruct (await isSecret) as [secret| | |]; try done. cbn [bind].
  destruct (rec (VPromise promise) (Some []) dontKeepOutputValues) as [o promiseDeps].
  rewrite !fst_andThen. destruct o as [value| | |]; try done. cbn [bind].
  destruct (optKeepOutputValues opts && supportsOutputValues (getStore env tt)).
  - destruct (serializeUrns env rec _ (Some [])) as [o' urnDeps].
    rewrite !fst_andThen. destruct o' as [u| | |]; try done;
      cbn [bind]; rewrite !fst_andThen; by destruct (await _).
  - destruct (negb known); [done|]. by destruct (_ && _).
Qed.

Lemma serializeCustomResource_independent r d d' opts :
  fst (serializeCustomResource env rec r d opts)
  = fst (serializeCustomResource env rec r d' opts).
Proof.
  unfold serializeCustomResource.
  set (l0 := if optExcludeResourceReferences opts && _ then None else trackAll [r] d).
  set (l0' := if optExcludeResourceReferences opts && _ then None else trackAll [r] d').
  pose proof (Hrec (id (resourceObject env r)) l0 l0' dontKeepOutputValues) as H1.
  destruct (rec (id (resourceObject env r)) l0 dontKeepOutputValues) as [o l1],
    (rec (id (resourceObject env r)) l0' dontKeepOutputValues) as [o' l1'].
  simpl in H1. subst o'. rewrite !fst_andThen. destruct o as [i| | |]; try done. cbn [bind].
  destruct (supportsResourceReferences (getStore env tt)); [|done].
  pose proof (Hrec (urn (resourceObject env r)) l1 l1' dontKeepOutputValues) as H2.
  destruct (rec (urn (resourceObject env r)) l1 dontKeepOutputValues) as [o2 l2],
    (rec (urn (resourceObject env r)) l1' dontKeepOutputValues) as [o2' l2'].
  simpl in H2. subst o2'. rewrite !fst_andThen. by destruct o2.
Qed.

Lemma serializeComponentResource_independent r d d' opts :
  fst (serializeComponentResource env rec r d opts)
  = fst (serializeComponentResource env rec r d' opts).
Proof.
  unfold serializeComponentResource.
  destruct (supportsResourceReferences (getStore env tt)); [|apply Hrec].
  set (l0 := if optExcludeResourceReferences opts then None else d).
  set (l0' := if optExcludeResourceReferences opts then None else d').
  pose proof (Hrec (urn (resourceObject env r)) l0 l0' dontKeepOutputValues) as H1.
  destruct (rec (urn (resourceObject env r)) l0 dontKeepOutputValues) as [o l1],
    (rec (urn (resourceObject env r)) l0' dontKeepOutputValues) as [o' l1'].
  simpl in H1. subst o'. rewrite !fst_andThen. by destruct o.
Qed.

Lemma serializeBody_independent prop d d' opts :
  fst (serializeBody env rec prop d opts) = fst (serializeBody env rec prop d' opts).
Proof.
  destruct prop; simpl; try done.
  - apply serializeElements_independent.
  - apply serializeAllKeys_independent.
  - apply serializeAllKeys_independent.
  - apply serializeAllKeys_independent.
  - rewrite !fst_andThen. destruct (await p); simpl; first [done | apply Hrec].
  - apply serializeOutput_independent.
  - destruct (kind (resourceObject env r)).
    + apply serializeCustomResource_independent.
    + apply serializeComponentResource_independent.
Qed.

End Body.

Lemma serializeProperty_same_value (fuel : nat) (prop : Value)
    (d d' : option (list Resource)) (opts : option SerializationOptions) :
  fst (serializeProperty env fuel prop d opts) = fst (serializeProperty env fuel prop d' opts).
Proof.
  revert prop d d' opts. induction fuel as [|fuel IH]; intros prop d d' opts; simpl; [done|].
  by apply serializeBody_independent.
Qed.

(** The loop of [serializeFilteredProperties] that accepts every key builds
    the object that [serializeProperty] builds for a plain object. *)
Lemma serializeAllKeys_filtered (fuel : nat) props obj d opts depsMap :
  fst (serializeAllKeys (serializeProperty env fuel) props obj d opts)
  = let* r := serializeFilteredLoop env fuel props (fun _ => true) opts obj depsMap in
    Ret (WObj (fst r)).
Proof.
  revert obj d depsMap. induction props as [|[k p] props IH]; intros obj d depsMap; simpl.
  { done. }
  pose proof (serializeProperty_same_value fuel p d (Some []) opts) as Hp.
  destruct (serializeProperty env fuel p d opts) as [o d1],
    (serializeProperty env fuel p (Some []) opts) as [o' d1'].
  simpl in Hp. subst o'. rewrite fst_andThen. destruct o as [v| | |]; simpl; try done;
    destruct (isUndefinedW v); simpl; apply IH.
Qed.

(** X17. The value that [serializeProperty] returns does not depend on the
    set in which the dependencies are collected, nor on whether there is one;
    and for a plain object it is the object that [serializeProperties] and
    [serializePropertiesReturnDeps] return for its properties. *)
Theorem serializeProperties_agrees (fuel : nat) (label : string)
    (props : list (string * Value)) (opts : option SerializationOptions)
    (prop : Value) (d d' : option (list Resource)) :
  fst (serializeProperty env fuel prop d opts) = fst (serializeProperty env fuel prop d' opts)
  /\ fst (serializeProperty env (S fuel) (VObj props) d opts)
     = (let* result := serializeProperties env fuel label props opts in Ret (WObj result))
  /\ fst (serializeProperty env (S fuel) (VObj props) d opts)
     = (let* r := serializePropertiesReturnDeps env fuel label props opts in
        Ret (WObj (fst r))).
Proof.
  split; [apply serializeProperty_same_value|].
  simpl. unfold serializeProperties, serializePropertiesReturnDeps,
    serializeFilteredProperties.
  rewrite (serializeAllKeys_filtered fuel props [] d opts []).
  by destruct (serializeFilteredLoop env fuel props _ opts [] []).
Qed.

End Independence.

Lemma serializeProperty_extends_witness :
  1%positive ∈ default [] (snd (serializeProperty (exampleEnv false) 5
                                  (VArr [VResource 3%positive; VPromise Pending])
                                  (Some [1%positive]) None)).
Proof.
  apply (serializeProperty_extends (exampleEnv false) 5
           (VArr [VResource 3%positive; VPromise Pending]) (Some [1%positive]) None).
  left.
Defined.

(** ** Serializing the properties of an object *)

Lemma getW_setProp (k k' : string) (v : Wire) props :
  getW k (setProp k' v props) = if String.eqb k k' then v else getW k props.
Proof.
  induction props as [|[k0 v0] props IH]; simpl.
  - done.
  - destruct (String.eqb k' k0) eqn:E0; simpl.
    + apply String.eqb_eq in E0. subst k0. by destruct (String.eqb k k').
    + destruct (String.eqb k k0) eqn:E1.
      * apply String.eqb_eq in E1. subst k0.
        rewrite String.eqb_sym in E0. by rewrite E0.
      * apply IH.
Qed.

Lemma getDeps_setProp (k k' : string) (d : list Resource) deps :
  getDeps k (setProp k' d deps) = if String.eqb k k' then Some d else getDeps k deps.
Proof.
  induction deps as [|[k0 v0] deps IH]; simpl.
  - done.
  - destruct (String.eqb k' k0) eqn:E0; simpl.
    + apply String.eqb_eq in E0. subst k0. by destruct (String.eqb k k').
    + destruct (String.eqb k k0) eqn:E1.
      * apply String.eqb_eq in E1. subst k0.
        rewrite String.eqb_sym in E0. by rewrite E0.
      * apply IH.
Qed.

Lemma setProp_keys {A B} (k : string) (a : A) (b : B) (l : list (string * A))
    (l' : list (string * B)) :
  map fst l = map fst l' -> map fst (setProp k a l) = map fst (setProp k b l').
Proof.
  revert l'. induction l as [|[k0 a0] l IH]; intros [|[k1 b1] l'] Heq; simpl in *; try done.
  injection Heq as -> Heq. destruct (String.eqb k k1); simpl; [by rewrite Heq|].
  by rewrite (IH l').
Qed.

Lemma Forall_setProp_key {A} (P : string -> A -> Prop) (k : string) (v : A) props :
  P k v -> Forall (fun kv => P (fst kv) (snd kv)) props ->
  Forall (fun kv => P (fst kv) (snd kv)) (setProp k v props).
Proof.
  intros Hv. induction 1 as [|[k0 v0] props H0 Hall IH]; simpl.
  - by constructor.
  - destruct (String.eqb_spec k k0) as [->|Hne]; constructor; done.
Qed.

Section FilteredProperties.
Context (env : Env) (fuel : nat) (acceptKey : string -> bool)
  (opts : option SerializationOptions).

Lemma serializeFilteredLoop_keys props result0 deps0 result depsMap :
  serializeFilteredLoop env fuel props acceptKey opts result0 deps0 = Ret (result, depsMap) ->
  map fst deps0 = map fst result0 ->
  Forall (fun kv => acceptKey (fst kv) = true /\ isUndefinedW (snd kv) = false) result0 ->
  map fst depsMap = map fst result
  /\ Forall (fun kv => acceptKey (fst kv) = true /\ isUndefinedW (snd kv) = false) result.
Proof.
  revert result0 deps0. induction props as [|[k p] props IH]; intros result0 deps0; simpl.
  { intros Heq Hkeys Hall. by simplify_eq. }
  destruct (acceptKey k) eqn:Hk; [|apply IH].
  destruct (serializeProperty env fuel p (Some []) opts) as [o d].
  destruct o as [v| | |]; simpl; try done.
  destruct (isUndefinedW v) eqn:Hv; simpl; [apply IH|].
  intros Heq Hkeys Hall. apply (IH _ _ Heq).
  - by apply setProp_keys.
  - by apply (Forall_setProp_key
                (fun k v => acceptKey k = true /\ isUndefinedW v = false)).
Qed.

(** The entry of the result and of the dependency map under a key. *)
Lemma serializeFilteredLoop_entries props result0 deps0 result depsMap :
  NoDup (map fst props) ->
  serializeFilteredLoop env fuel props acceptKey opts result0 deps0 = Ret (result, depsMap) ->
  (forall k, k ∉ map fst props ->
     getW k result = getW k result0
     /\ hasOwnProperty k result = hasOwnProperty k result0
     /\ getDeps k depsMap = getDeps k deps0)
  /\ (forall k p, (k, p) ∈ props -> acceptKey k = true ->
        exists w d,
          serializeProperty env fuel p (Some []) opts = (Ret w, Some d)
          /\ if isUndefinedW w
             then hasOwnProperty k result = hasOwnProperty k result0
                  /\ getDeps k depsMap = getDeps k deps0
             else getW k result = w /\ getDeps k depsMap = Some d).
Proof.
  revert result0 deps0.
  induction props as [|[k0 p0] props IH]; intros result0 deps0 Hnd Heq; simpl in *.
  { simplify_eq. split; [done|]. intros k p Hin. by apply elem_of_nil in Hin. }
  apply NoDup_cons in Hnd as [Hk0 Hnd].
  assert (forall r1 d1,
            serializeFilteredLoop env fuel props acceptKey opts r1 d1 = Ret (result, depsMap) ->
            getW k0 result = getW k0 r1
            /\ hasOwnProperty k0 result = hasOwnProperty k0 r1
            /\ getDeps k0 depsMap = getDeps k0 d1) as Hframe.
  { intros r1 d1 Hr. destruct (IH r1 d1 Hnd Hr) as [Hf _]. by apply Hf. }
  destruct (acceptKey k0) eqn:Hacc.
  - pose proof (serializeProperty_grows env fuel p0 (Some []) opts) as Hgrow.
    destruct (serializeProperty env fuel p0 (Some []) opts) as [o d] eqn:Hp0.
    destruct d as [d|]; [|done]. clear Hgrow.
    destruct o as [v| | |]; simpl in Heq; try done.
    destruct (isUndefinedW v) eqn:Hv; simpl in Heq.
    + destruct (IH _ _ Hnd Heq) as [Hout Hin]. split.
      * intros k Hk. apply not_elem_of_cons in Hk as [_ Hk]. by apply Hout.
      * intros k p Hkp Hk. apply elem_of_cons in Hkp as [Hkp|Hkp]; [|by apply Hin].
        simplify_eq. exists v, d. split; [done|]. rewrite Hv.
        destruct (Hframe _ _ Heq) as (_ & ? & ?). done.
    + destruct (IH _ _ Hnd Heq) as [Hout Hin]. split.
      * intros k Hk. apply not_elem_of_cons in Hk as [Hne Hk].
        destruct (Hout k Hk) as (-> & -> & ->).
        rewrite getW_setProp, hasOwnProperty_setProp, getDeps_setProp.
        destruct (String.eqb_spec k k0); done.
      * intros k p Hkp Hk. apply elem_of_cons in Hkp as [Hkp|Hkp].
        -- simplify_eq. exists v, d. split; [done|]. rewrite Hv.
           destruct (Hframe _ _ Heq) as (-> & _ & ->).
           by rewrite getW_setProp, getDeps_setProp, String.eqb_refl.
        -- destruct (Hin k p Hkp Hk) as (w & d' & Hw & Hres). exists w, d'. split; [done|].
           assert (k <> k0) as Hne.
           { intros ->. apply Hk0. apply list_elem_of_fmap. by exists (k0, p). }
           destruct (isUndefinedW w); [|done].
           rewrite hasOwnProperty_setProp, getDeps_setProp in Hres.
           destruct (String.eqb_spec k k0); done.
  - destruct (IH _ _ Hnd Heq) as [Hout Hin]. split.
    + intros k Hk. apply not_elem_of_cons in Hk as [_ Hk]. by apply Hout.
    + intros k p Hkp Hk. apply elem_of_cons in Hkp as [Hkp|Hkp]; [|by apply Hin].
      injection Hkp as -> _. congruence.
Qed.

End FilteredProperties.

Section SerializeProperties.
Context (env : Env) (fuel : nat) (opts : option SerializationOptions).

(** X18. The object that [serializeResourceProperties] returns has no
    property [id] or [urn] and no property whose value is [undefined], and its
    dependency map has the same keys in the same order.  The properties have
    no own property [__proto__]: [result[k] = v] adds no property under that
    name, while the map gets the key. *)
Theorem serializeResourceProperties_keys (label : string) (props : list (string * Value))
    (result : list (string * Wire)) (depsMap : list (string * list Resource)) :
  hasOwnProperty "__proto__" props = false ->
  serializeResourceProperties env fuel label props opts = Ret (result, depsMap) ->
  hasOwnProperty "id" result = false /\ hasOwnProperty "urn" result = false
  /\ Forall (fun kv => isUndefinedW (snd kv) = false) result
  /\ map fst depsMap = map fst result.
Proof.
  unfold serializeResourceProperties, serializeFilteredProperties. intros _ Heq.
  apply serializeFilteredLoop_keys in Heq as [Hkeys Hall]; [|done|constructor].
  assert (forall k, transferable k = false -> hasOwnProperty k result = false) as Hno.
  { intros k Hk. rewrite hasOwnProperty_elem. apply bool_decide_eq_false_2.
    intros Hin. apply list_elem_of_fmap in Hin as ([k' v] & -> & Hin).
    rewrite Forall_forall in Hall. destruct (Hall _ Hin) as [Hacc _]. simpl in *.
    unfold transferable in Hk. rewrite negb_orb in Hk. by rewrite Hk in Hacc. }
  repeat split; [by apply Hno | by apply Hno | | done].
  eapply Forall_impl; [exact Hall|]. by intros kv [_ ?].
Qed.

(** X19. Every accepted property is serialized on its own, into a set of
    its own: its entry in the result is the value that [serializeProperty]
    returns for it, its entry in the dependency map is the set that this call
    fills from empty, and a property whose value serializes to [undefined] has
    neither.  The properties have no own property [__proto__], under which
    [result[k] = v] adds no entry. *)
Theorem serializeFilteredProperties_entries (label : string)
    (props : list (string * Value)) (acceptKey : string -> bool)
    (result : list (string * Wire)) (depsMap : list (string * list Resource))
    (k : string) (p : Value) :
  NoDup (map fst props) ->
  hasOwnProperty "__proto__" props = false ->
  serializeFilteredProperties env fuel label props acceptKey opts = Ret (result, depsMap) ->
  (k, p) ∈ props -> acceptKey k = true ->
  exists w d,
    serializeProperty env fuel p (Some []) opts = (Ret w, Some d)
    /\ if isUndefinedW w
       then hasOwnProperty k result = false /\ getDeps k depsMap = None
       else getW k result = w /\ getDeps k depsMap = Some d.
Proof.
  unfold serializeFilteredProperties. intros Hnd _ Heq Hin Hk.
  destruct (serializeFilteredLoop_entries env fuel acceptKey opts _ _ _ _ _ Hnd Heq)
    as [_ Hentries].
  destruct (Hentries k p Hin Hk) as (w & d & Hw & Hres). exists w, d. split; [done|].
  by destruct (isUndefinedW w).
Qed.

End SerializeProperties.

Lemma serializeResourceProperties_keys_witness :
  exists result depsMap,
    serializeResourceProperties (exampleEnv false) 5 "r"
      [("id", VStr "i"); ("a", VUndefined); ("b", VResource 1%positive)] None
    = Ret (result, depsMap)
    /\ hasOwnProperty "id" result = false /\ hasOwnProperty "urn" result = false
    /\ Forall (fun kv => isUndefinedW (snd kv) = false) result
    /\ map fst depsMap = map fst result.
Proof.
  eexists _, _. split; [reflexivity|].
  apply (serializeResourceProperties_keys (exampleEnv false) 5 None "r"
           [("id", VStr "i"); ("a", VUndefined); ("b", VResource 1%positive)]).
  - reflexivity.
  - reflexivity.
Defined.

Lemma serializeFilteredProperties_entries_witness :
  exists w d,
    serializeProperty (exampleEnv false) 5 (VResource 3%positive) (Some []) None
    = (Ret w, Some d)
    /\ if isUndefinedW w
       then hasOwnProperty "b"
              [("a", resourceReference "urn:R" [("id", WStr "id")]);
               ("b", resourceReference "urn:R" [("id", WStr "id")])] = false
            /\ getDeps "b" [("a", [1%positive]); ("b", [3%positive])] = None
       else getW "b" [("a", resourceReference "urn:R" [("id", WStr "id")]);
                      ("b", resourceReference "urn:R" [("id", WStr "id")])] = w
            /\ getDeps "b" [("a", [1%positive]); ("b", [3%positive])] = Some d.
Proof.
  apply (serializeFilteredProperties_entries (exampleEnv false) 5 None "r"
           [("a", VResource 1%positive); ("b", VResource 3%positive)] (fun _ => true)
           _ _ "b" (VResource 3%positive)).
  - apply (bool_decide_unpack _). by vm_compute.
  - reflexivity.
  - reflexivity.
  - right. left.
  - reflexivity.
Defined.

(** ** Serializing data, and back *)

Section Data.
Context (env : Env).

Section Loops.
Context (rec : Value -> option (list Resource) -> option SerializationOptions
               -> Serialized Wire).

Lemma serializeElements_data elems result d opts :
  Forall (fun p => forall d, rec p d opts = (Ret (toWire p), d)) elems ->
  serializeElements rec elems result d opts
  = (Ret (WArr (result ++ map (fun e => orNull (toWire e)) elems)), d).
Proof.
  intros Hall. revert result.
  induction Hall as [|p elems Hp _ IH]; intros result; simpl.
  - by rewrite app_nil_r.
  - rewrite Hp. simpl. rewrite IH. by rewrite <- app_assoc.
Qed.

Lemma serializeAllKeys_data props obj d opts :
  Forall (fun kv => forall d, rec (snd kv) d opts = (Ret (toWire (snd kv)), d)) props ->
  NoDup (map fst obj ++ map fst props) ->
  serializeAllKeys rec props obj d opts
  = (Ret (WObj (obj ++ List.filter (fun kw => negb (isUndefinedW (snd kw)))
                         (map (fun kv => (fst kv, toWire (snd kv))) props))), d).
Proof.
  intros Hall. revert obj.
  induction Hall as [|[k p] props Hp _ IH]; intros obj Hnd; simpl.
  - by rewrite app_nil_r.
  - simpl in Hp. rewrite Hp. simpl.
    assert (k ∉ map fst obj) as Hk.
    { apply NoDup_app in Hnd as (_ & Hdis & _). intros Hin. apply (Hdis k Hin). left. }
    destruct (isUndefinedW (toWire p)); simpl.
    + apply IH. apply NoDup_app in Hnd as (H1 & H2 & H3). simpl in H3.
      apply NoDup_cons in H3 as [_ H3]. apply NoDup_app. repeat split; try done.
      intros x Hx Hx'. apply (H2 x Hx). by right.
    + rewrite (setProp_fresh k _ obj Hk). rewrite IH.
      * by rewrite <- app_assoc.
      * rewrite map_app. simpl. by rewrite <- app_assoc.
Qed.

End Loops.

Lemma serializeProperty_toWire (v : Value) :
  dataTree v = true ->
  forall fuel d opts, callDepth v <= fuel ->
    serializeProperty env fuel v d opts = (Ret (toWire v), d).
Proof.
  revert v.
  apply (Value_nested_ind (fun v =>
    dataTree v = true ->
    forall fuel d opts, callDepth v <= fuel ->
      serializeProperty env fuel v d opts = (Ret (toWire v), d)));
    [intros v | intros elems IH | intros props IH].
  - destruct v; try done; intros _ fuel d opts Hfuel; simpl in Hfuel;
      (destruct fuel as [|fuel]; [lia | done]).
  - intros Htree fuel d opts Hfuel. simpl in Htree, Hfuel.
    destruct fuel as [|fuel]; [lia|]. simpl.
    rewrite (serializeElements_data _ elems [] d opts); [done|].
    apply le_S_n in Hfuel. apply max_le_all in Hfuel.
    clear d. induction IH as [|p elems Hp _ IHl]; [constructor|].
    simpl in Htree. apply andb_prop in Htree as [Hp1 Htree].
    apply Forall_cons in Hfuel as [Hf1 Hfuel].
    constructor; [|by apply IHl]. intros d. by apply Hp.
  - intros Htree fuel d opts Hfuel. simpl in Htree, Hfuel.
    apply andb_prop in Htree as [Hnd Htree]. apply andb_prop in Hnd as [Hnd _].
    apply bool_decide_eq_true in Hnd.
    destruct fuel as [|fuel]; [lia|]. simpl.
    rewrite (serializeAllKeys_data _ props [] d opts); [done| |done].
    apply le_S_n in Hfuel. apply (max_le_all _ (fun kv => callDepth (snd kv))) in Hfuel.
    clear d Hnd. induction IH as [|[k p] props Hp _ IHl]; [constructor|].
    simpl in Htree. apply andb_prop in Htree as [Hp1 Htree].
    apply Forall_cons in Hfuel as [Hf1 Hfuel].
    constructor; [|by apply IHl]. intros d. by apply Hp.
Qed.

Lemma toWire_undefined (v : Value) :
  dataTree v = true -> isUndefinedW (toWire v) = true -> v = VUndefined.
Proof. by destruct v. Qed.

Lemma toWire_unknown (v : Value) :
  dataTree v = true -> hasUnknown v = true -> containsUnknownValues (toWire v) = true.
Proof.
  revert v.
  apply (Value_nested_ind (fun v =>
    dataTree v = true -> hasUnknown v = true -> containsUnknownValues (toWire v) = true));
    [intros v | intros elems IH | intros props IH].
  - by destruct v.
  - intros Htree Hu. simpl in *.
    induction IH as [|p elems Hp _ IHl]; simpl in *; [done|].
    apply andb_prop in Htree as [Hp1 Htree]. apply orb_true_iff in Hu as [Hu|Hu].
    + pose proof (Hp Hp1 Hu) as Hc.
      assert (orNull (toWire p) = toWire p) as -> by by destruct (toWire p).
      by rewrite Hc.
    + rewrite (IHl Htree Hu). apply orb_true_r.
  - intros Htree Hu. simpl in *. apply andb_prop in Htree as [_ Htree].
    induction IH as [|[k p] props Hp _ IHl]; simpl in *; [done|].
    apply andb_prop in Htree as [Hp1 Htree]. apply orb_true_iff in Hu as [Hu|Hu].
    + pose proof (Hp Hp1 Hu) as Hc.
      assert (isUndefinedW (toWire p) = false) as -> by by destruct (toWire p).
      simpl. by rewrite Hc.
    + destruct (negb (isUndefinedW (toWire p))); simpl; [|by apply IHl].
      rewrite (IHl Htree Hu). apply orb_true_r.
Qed.

(** X20. Data is serialized like JSON, whatever the options and the
    feature flags: the call returns the wire form of the data, in which the
    unknown sentinel is the unknown marker, [undefined] is [null] in an array
    and left out of an object; it leaves the dependency set alone; and
    [containsUnknownValues] holds of the result when the data holds the
    unknown sentinel.  No object of the data has an own property [__proto__],
    which [obj[k] = v] would not copy. *)
Theorem serializeProperty_data (v : Value) (fuel : nat) (d : option (list Resource))
    (opts : option SerializationOptions) :
  dataTree v = true -> callDepth v <= fuel ->
  serializeProperty env fuel v d opts = (Ret (toWire v), d)
  /\ (hasUnknown v = true -> containsUnknownValues (toWire v) = true).
Proof.
  intros Htree Hfuel. split; [by apply serializeProperty_toWire | by apply toWire_unknown].
Qed.

Lemma plainData_dataTree (v : Value) : plainData v = true -> dataTree v = true.
Proof.
  revert v.
  apply (Value_nested_ind (fun v => plainData v = true -> dataTree v = true));
    [intros v | intros elems IH | intros props IH].
  - by destruct v.
  - simpl. intros Hp. induction IH as [|p elems Hp' _ IHl]; simpl in *; [done|].
    apply andb_prop in Hp as [H1 H2]. by rewrite Hp', IHl.
  - simpl. intros Hp. apply andb_prop in Hp as [Hp Hall].
    apply andb_prop in Hp as [Hp ->]. apply andb_prop in Hp as [-> _].
    simpl. induction IH as [|[k p] props Hp' _ IHl]; simpl in *; [done|].
    apply andb_prop in Hall as [H1 H2]. by rewrite Hp', IHl.
Qed.

Lemma plainData_defined (v : Value) : plainData v = true -> isUndefinedW (toWire v) = false.
Proof. by destruct v. Qed.

Lemma getV_absent (k : string) (props : list (string * Value)) :
  hasOwnProperty k props = false -> getV k props = VUndefined.
Proof.
  unfold hasOwnProperty. induction props as [|[k' v] props IH]; simpl; [done|].
  destruct (String.eqb k k'); [done | apply IH].
Qed.

Lemma plainData_hasSecret (v : Value) : plainData v = true -> hasSecret v = false.
Proof.
  revert v.
  apply (Value_nested_ind (fun v => plainData v = true -> hasSecret v = false));
    [intros v | intros elems IH | intros props IH].
  - by destruct v.
  - simpl. intros Hp. induction IH as [|p elems Hp' _ IHl]; simpl in *; [done|].
    apply andb_prop in Hp as [H1 H2]. by rewrite Hp', IHl.
  - simpl. intros Hp. apply andb_prop in Hp as [Hp Hall]. apply andb_prop in Hp as [Hp _].
    apply andb_prop in Hp as [_ Hsig].
    apply negb_true_iff in Hsig. apply orb_false_intro.
    + unfold isSecretEnvelope, isRpcSecret. simpl. by rewrite (getV_absent _ _ Hsig).
    + induction IH as [|[k p] props Hp' _ IHl]; simpl in *; [done|].
      apply andb_prop in Hall as [H1 H2]. apply orb_false_elim in Hsig as [_ Hsig].
      by rewrite Hp', IHl.
Qed.

Lemma toWire_plain_elements (elems : list Value) :
  forallb plainData elems = true ->
  map (fun e => orNull (toWire e)) elems = map toWire elems.
Proof.
  induction elems as [|p elems IH]; simpl; [done|].
  intros Hp. apply andb_prop in Hp as [H1 H2]. rewrite IH by done.
  unfold orNull. by rewrite (plainData_defined p H1).
Qed.

Lemma toWire_plain_entries (props : list (string * Value)) :
  forallb (fun kv => plainData (snd kv)) props = true ->
  List.filter (fun kw => negb (isUndefinedW (snd kw)))
    (map (fun kv => (fst kv, toWire (snd kv))) props)
  = map (fun kv => (fst kv, toWire (snd kv))) props.
Proof.
  induction props as [|[k p] props IH]; simpl; [done|].
  intros Hp. apply andb_prop in Hp as [H1 H2]. rewrite (plainData_defined p H1). simpl.
  by rewrite IH.
Qed.

Lemma getW_toWire_absent (k : string) (props : list (string * Value)) :
  hasOwnProperty k props = false ->
  getW k (map (fun kv => (fst kv, toWire (snd kv))) props) = WUndefined.
Proof.
  unfold hasOwnProperty. induction props as [|[k' v] props IH]; simpl; [done|].
  destruct (String.eqb k k'); [done | apply IH].
Qed.

Lemma deserializeProperty_toWire (keepUnknowns : option bool) (v : Value) :
  plainData v = true -> deserializeProperty env (toWire v) keepUnknowns = Ret v.
Proof.
  revert v.
  apply (Value_nested_ind (fun v =>
    plainData v = true -> deserializeProperty env (toWire v) keepUnknowns = Ret v));
    [intros v | intros elems IH | intros props IH].
  - destruct v; try done. simpl. intros Hs. apply negb_true_iff in Hs.
    unfold deserializeString. by rewrite Hs.
  - intros Hp. simpl in Hp. cbn [toWire]. rewrite toWire_plain_elements by done.
    cbn [deserializeProperty].
    assert (Forall2 (fun e d => deserializeProperty env e keepUnknowns = Ret d)
              (map toWire elems) elems) as Hds.
    { clear -IH Hp. induction IH as [|p elems Hp' _ IHl]; simpl in *; [constructor|].
      apply andb_prop in Hp as [H1 H2]. constructor; [by apply Hp' | by apply IHl]. }
    rewrite (arrayLoop_Forall2 _ _ _ _ _ Hds).
    assert (Forall (fun d => hasSecret d = false) elems) as Hplain.
    { apply Forall_forall. intros e He. apply plainData_hasSecret.
      rewrite forallb_forall in Hp. by apply Hp, list_elem_of_In. }
    destruct (plain_elements elems Hplain) as [-> ->]. done.
  - intros Hp. simpl in Hp. apply andb_prop in Hp as [Hp Hall].
    apply andb_prop in Hp as [Hp _].
    apply andb_prop in Hp as [Hnd Hsig]. apply bool_decide_eq_true in Hnd.
    apply negb_true_iff in Hsig.
    cbn [toWire]. rewrite toWire_plain_entries by done.
    cbn -[objectLoop getW].
    rewrite (getW_toWire_absent _ _ Hsig). cbn -[objectLoop getW].
    assert (Forall2 (fun kv d => deserializeProperty env (snd kv) keepUnknowns = Ret d)
              (map (fun kv => (fst kv, toWire (snd kv))) props) (map snd props)) as Hds.
    { clear -IH Hall. induction IH as [|[k p] props Hp' _ IHl]; simpl in *; [constructor|].
      apply andb_prop in Hall as [H1 H2]. constructor; [by apply Hp' | by apply IHl]. }
    rewrite (objectLoop_Forall2 _ _ _ _ _ Hds).
    2:{ simpl. by rewrite map_map. }
    assert (Forall (fun d => hasSecret d = false) (map snd props)) as Hplain.
    { apply Forall_forall. intros e He. apply plainData_hasSecret.
      apply list_elem_of_fmap in He as ([k p] & -> & Hin).
      rewrite forallb_forall in Hall. apply (Hall (k, p)). by apply list_elem_of_In. }
    destruct (plain_elements _ Hplain) as [-> ->]. simpl.
    unfold withKeys. rewrite map_map. simpl.
    f_equal. f_equal. clear. induction props as [|[k p] props IH]; simpl; [done|].
    by rewrite IH.
Qed.

(** X21. Round trip: plain data (primitives other than [undefined] and the
    unknown marker, arrays, and objects with distinct keys and without the
    signature key and the key [__proto__], which [obj[k] = v] does not copy)
    is serialized without touching the dependency set, and deserializing the
    result gives the data back, in every mode. *)
Theorem serialize_deserialize_data (v : Value) (fuel : nat) (d : option (list Resource))
    (opts : option SerializationOptions) (keepUnknowns : option bool) :
  plainData v = true -> callDepth v <= fuel ->
  exists w,
    serializeProperty env fuel v d opts = (Ret w, d)
    /\ deserializeProperty env w keepUnknowns = Ret v.
Proof.
  intros Hp Hfuel. exists (toWire v). split.
  - apply serializeProperty_toWire; [by apply plainData_dataTree | done].
  - by apply deserializeProperty_toWire.
Qed.

End Data.

Lemma serializeProperty_data_witness :
  let v := VObj [("a", VArr [VUndefined; VUnknown]); ("b", VUndefined)] in
  serializeProperty (exampleEnv false) 3 v (Some []) None
  = (Ret (WObj [("a", WArr [WNull; WStr unknownValue])]), Some [])
  /\ (hasUnknown v = true -> containsUnknownValues (toWire v) = true).
Proof.
  intros v. apply (serializeProperty_data (exampleEnv false) v 3 (Some []) None).
  - reflexivity.
  - simpl. lia.
Defined.

Lemma serialize_deserialize_data_witness :
  let v := VObj [("a", VArr [VNull; VStr "s"]); ("b", VBool true)] in
  exists w,
    serializeProperty (exampleEnv false) 3 v (Some []) None = (Ret w, Some [])
    /\ deserializeProperty (exampleEnv false) w (Some true) = Ret v.
Proof.
  intros v. apply (serialize_deserialize_data (exampleEnv false) v 3 (Some []) None).
  - reflexivity.
  - simpl. lia.
Defined.

Section OutputRoundTrip.
Context (env : Env).

Lemma serializeProperty_promise_data (v : Value) (fuel : nat)
    (d : option (list Resource)) (opts : option SerializationOptions) :
  dataTree v = true -> callDepth v <= fuel ->
  serializeProperty env (S fuel) (VPromise (Fulfilled v)) d opts = (Ret (toWire v), d).
Proof. intros Htree Hfuel. simpl. by apply serializeProperty_toWire. Qed.



(** X23. Round trip of an output with output values on the wire: the
    output-value envelope of an output of plain data is deserialized to an
    output with the same known flag and the same secret flag, with the data
    as its value when it is known and [undefined] when it is not, and with one
    dependency resource for each transitive URN.  Plain data has no object
    with an own property [__proto__]. *)
Theorem serialize_deserialize_output_value (v : Value) (rs : list Resource)
    (known secret : bool) (fuel : nat) (d urnDeps : option (list Resource))
    (opts : option SerializationOptions) (keepUnknowns : option bool)
    (urns : list string) :
  plainData v = true -> callDepth v <= fuel ->
  optKeepOutputValues opts = true -> supportsOutputValues (getStore env tt) = true ->
  serializeUrns env (serializeProperty env (S fuel)) rs (Some []) = (Ret tt, urnDeps) ->
  getAllTransitivelyReferencedResourceURNs env (setAddAll (default [] urnDeps) rs)
  = Fulfilled urns ->
  exists w,
    fst (serializeProperty env (S (S fuel))
           (VOutput (Fulfilled rs) (Fulfilled v) (Fulfilled known) (Fulfilled (VBool secret)))
           d opts) = Ret w
    /\ deserializeProperty env w keepUnknowns
       = Ret (VOutput (Fulfilled (map (newDependencyResource env) (map WStr urns)))
                (Fulfilled (if known then v else VUndefined))
                (Fulfilled known) (Fulfilled (VBool secret))).
Proof.
  intros Hp Hfuel Hkeep Hsupp Hurns Htrans.
  change (serializeProperty env (S (S fuel)) ?o d opts)
    with (serializeBody env (serializeProperty env (S fuel)) o d opts).
  cbn [serializeBody]. unfold serializeOutput. cbn [await andThen].
  rewrite serializeProperty_promise_data by (by try apply plainData_dataTree).
  cbn [andThen default from_option Datatypes.id]. rewrite Hkeep, Hsupp. cbn [andb].
  change (setAddAll [] rs) with rs.
  rewrite Hurns. cbn [andThen]. rewrite Htrans. cbn [await andThen].
  rewrite (plainData_defined v Hp).
  eexists. split; [done|].
  pose proof (deserializeProperty_toWire env keepUnknowns v Hp) as Hv.
  pose proof (plainData_defined v Hp) as Hdef.
  destruct known, secret, urns as [|u urns];
    cbn -[deserializeProperty toWire]; cbn [deserializeProperty];
    cbn -[deserializeProperty toWire]; rewrite ?Hdef; cbn -[deserializeProperty toWire];
    rewrite ?Hv; done.
Qed.

End OutputRoundTrip.


Lemma serialize_deserialize_output_value_witness :
  let opts := Some {| keepOutputValues := Some true;
                      excludeResourceReferencesFromDependencies := None |} in
  exists w,
    fst (serializeProperty (exampleEnv false) 4
           (VOutput (Fulfilled [1%positive]) (Fulfilled (VStr "s")) (Fulfilled false)
              (Fulfilled (VBool true)))
           (Some []) opts) = Ret w
    /\ deserializeProperty (exampleEnv false) w None
       = Ret (VOutput (Fulfilled [1%positive]) (Fulfilled VUndefined) (Fulfilled false)
                (Fulfilled (VBool true))).
Proof.
  intros opts.
  apply (serialize_deserialize_output_value (exampleEnv false) (VStr "s") [1%positive]
           false true 2 (Some []) (Some [1%positive]) opts None ["urn:R"]);
    try reflexivity.
  simpl. lia.
Defined.

(** ** Cleared registries, and resolving what was deserialized *)

(** X24. After the packages are cleared, a lookup finds nothing; after one
    package is registered, a lookup of its name finds the package exactly when
    the requested version is absent, empty or compatible with the package's,
    and a lookup of another name finds nothing. *)
Theorem registerResourcePackage_after_reset (env : Env)
    (resourcePackages : gmap string (list ResourcePackage)) (pkg : string)
    (resourcePackage : ResourcePackage) (wanted : option string) :
  wellFormedVersion (package_version resourcePackage) -> wellFormedRequest wanted ->
  registerResourcePackage (_resetResourcePackages resourcePackages) pkg resourcePackage
  = Ret (getResourcePackages env) ->
  getRegistration (_resetResourcePackages resourcePackages) pkg wanted = Ret None
  /\ getResourcePackage env pkg wanted
     = Ret (if checkVersion (requestedVersion wanted) (entryVersion resourcePackage)
            then Some resourcePackage else None)
  /\ forall pkg', pkg' <> pkg -> getResourcePackage env pkg' wanted = Ret None.
Proof.
  intros Hp Hreq Hreg.
  unfold registerResourcePackage, _resetResourcePackages, register in Hreg.
  rewrite lookup_empty in Hreg. simpl in Hreg. injection Hreg as Hreg.
  unfold getResourcePackage, _resetResourcePackages. rewrite <- Hreg.
  rewrite !getRegistration_loop by done. split; [by rewrite lookup_empty|]. split.
  - rewrite lookup_insert_eq. cbn [default from_option Datatypes.id bestRegistration].
    pose proof (parseVersion_entryVersion resourcePackage Hp) as Hpv.
    change (parseVersion (version resourcePackage) = Ret (entryVersion resourcePackage))
      in Hpv.
    rewrite Hpv. cbn [bind].
    destruct (checkVersion _ _); cbn [negb]; [|done].
    rewrite bool_decide_eq_false_2 by (by intros [x Hx]). done.
  - intros pkg' Hne. rewrite getRegistration_loop by done.
    by rewrite lookup_insert_ne, lookup_empty.
Qed.

Lemma registerResourcePackage_after_reset_witness :
  let aws := {| package_version := Some "6.1.0";
                constructProvider := fun name type urn => Ret 7%positive |} in
  let env := withResourcePackages (exampleEnv false) (<["aws" := [aws]]> ∅) in
  getRegistration (_resetResourcePackages (getResourcePackages env)) "aws" (Some "6.0.0")
  = Ret None
  /\ getResourcePackage env "aws" (Some "6.0.0")
     = Ret (if checkVersion (requestedVersion (Some "6.0.0")) (entryVersion aws)
            then Some aws else None)
  /\ forall pkg', pkg' <> "aws" -> getResourcePackage env pkg' (Some "6.0.0") = Ret None.
Proof.
  intros aws env.
  apply (registerResourcePackage_after_reset env (getResourcePackages env) "aws" aws
           (Some "6.0.0")).
  - simpl. eexists. vm_compute. reflexivity.
  - simpl. intros _. eexists. vm_compute. reflexivity.
  - reflexivity.
Defined.

Section ResolveDeserialized.
Context (env : Env) (keepUnknowns : option bool).

Lemma deserializePropertiesLoop_values (Q : Value -> Prop) outputs props result :
  deserializePropertiesLoop env outputs keepUnknowns props = Ret result ->
  (forall k w v, (k, w) ∈ outputs ->
     deserializeProperty env w keepUnknowns = Ret v -> Q v) ->
  Forall (fun kv => Q (snd kv)) props ->
  Forall (fun kv => Q (snd kv)) result.
Proof.
  revert props. induction outputs as [|[k w] outputs IH]; intros props; simpl.
  { intros. by simplify_eq. }
  intros Hr Hall Hprops.
  assert (forall k' w' v, (k', w') ∈ outputs ->
            deserializeProperty env w' keepUnknowns = Ret v -> Q v) as Hall'.
  { intros k' w' v Hin. apply (Hall k'). by right. }
  destruct (negb (isUndefinedW w)); [|by apply (IH props)].
  apply bind_Ret in Hr as (d & Hd & Hr). apply (IH _ Hr Hall').
  apply (Forall_setProp Q); [|done]. apply (Hall k w); [left | done].
Qed.

(** X25. What [deserializeProperties] returns can be handed to
    [resolveProperties]: when the secret envelopes of the outputs occur only
    as elements of arrays and of objects without signature, no resolver
    receives a value that holds a secret envelope; the envelope at the top
    of a property is unwrapped and reported by the secret flag.  The outputs
    have no property named like a member of [Object.prototype], under which
    [resolvers[k]] finds the inherited member, and no object in them has an
    own property [__proto__], which [obj[k] = ...] would not copy. *)
Theorem resolveProperties_deserialized (outputs : list (string * Wire))
    (allProps : list (string * Value)) (keys : list string) (t name : string)
    (deps : list (string * list Resource)) (keepUnknowns' : option bool) :
  ordinaryKeys outputs = true ->
  (forall k w, (k, w) ∈ outputs ->
     lacksProtoW w = true /\ wellFormedW w = true /\ flatSecretsW w = true) ->
  deserializeProperties env outputs keepUnknowns = Ret allProps ->
  exists calls,
    resolveProperties env (recorders keys) t name allProps deps None keepUnknowns' []
    = Ret calls
    /\ Forall (fun c => hasSecret (call_value c) = false
                        /\ (hasOwnProperty (call_key c) allProps = true ->
                            call_value c = unwrapRpcSecret (getV (call_key c) allProps)
                            /\ call_isSecret c = isRpcSecret (getV (call_key c) allProps)))
         calls.
Proof.
  intros _ Hflat Hd. unfold resolveProperties.
  rewrite presentLoop_calls. cbn [bind]. rewrite absentLoop_recorders.
  eexists. split; [done|]. cbn [app].
  assert (Forall (fun kv => hasSecret (unwrapRpcSecret (snd kv)) = false) allProps) as Hall.
  { apply (deserializePropertiesLoop_values
             (fun v => hasSecret (unwrapRpcSecret v) = false) outputs [] allProps Hd);
      [|constructor].
    intros k w v Hin Hv. destruct (Hflat k w Hin) as (_ & Hwf & Hfl).
    by apply (flatSecrets_top env keepUnknowns w v). }
  apply Forall_app. split.
  - apply Forall_fmap, Forall_forall. intros k _. simpl. split; [|done].
    by apply (getV_Forall (fun v => hasSecret (unwrapRpcSecret v) = false)).
  - apply Forall_fmap, Forall_forall. intros k Hk. simpl. split; [done|].
    apply list_elem_of_In, filter_In in Hk as [_ Hk]. intros Hown. by rewrite Hown in Hk.
Qed.

End ResolveDeserialized.

Lemma resolveProperties_deserialized_witness :
  exists calls,
    resolveProperties (exampleEnv false) (recorders ["password"; "name"]) "t" "n"
      [("password", secretEnvelope (VStr "s"))] [] None None []
    = Ret calls
    /\ Forall (fun c => hasSecret (call_value c) = false
                        /\ (hasOwnProperty (call_key c)
                              [("password", secretEnvelope (VStr "s"))] = true ->
                            call_value c
                            = unwrapRpcSecret
                                (getV (call_key c) [("password", secretEnvelope (VStr "s"))])
                            /\ call_isSecret c
                               = isRpcSecret
                                   (getV (call_key c)
                                      [("password", secretEnvelope (VStr "s"))])))
         calls.
Proof.
  apply (resolveProperties_deserialized (exampleEnv false) None
           [("password", serializeSecretValue (WStr "s")); ("gone", WUndefined)]).
  - reflexivity.
  - intros k w Hin.
    apply elem_of_cons in Hin as [Hin|Hin]; [by simplify_eq|].
    apply list_elem_of_singleton in Hin. by simplify_eq.
  - reflexivity.
Defined.

Section PropertiesRoundTrip.
Context (env : Env).

Lemma serializeFilteredLoop_data (fuel : nat) (opts : option SerializationOptions)
    props result depsMap :
  Forall (fun kv => plainData (snd kv) = true /\ callDepth (snd kv) <= fuel) props ->
  NoDup (map fst result ++ map fst props) ->
  map fst depsMap = map fst result ->
  serializeFilteredLoop env fuel props (fun _ => true) opts result depsMap
  = Ret (result ++ map (fun kv => (fst kv, toWire (snd kv))) props,
         depsMap ++ map (fun kv => (fst kv, [])) props).
Proof.
  intros Hall. revert result depsMap.
  induction Hall as [|[k p] props [Hp Hfuel] _ IH]; intros result depsMap Hnd Hkeys; simpl.
  { by rewrite !app_nil_r. }
  simpl in Hp, Hfuel.
  rewrite (serializeProperty_toWire env p (plainData_dataTree p Hp) fuel (Some []) opts Hfuel).
  simpl. rewrite (plainData_defined p Hp). simpl.
  assert (k ∉ map fst result) as Hk.
  { apply NoDup_app in Hnd as (_ & Hdis & _). intros Hin. apply (Hdis k Hin). left. }
  rewrite (setProp_fresh k _ result Hk).
  rewrite (setProp_fresh k _ depsMap) by by rewrite Hkeys.
  rewrite IH.
  - by rewrite <- !app_assoc.
  - rewrite map_app. simpl. by rewrite <- app_assoc.
  - rewrite !map_app. simpl. by rewrite Hkeys.
Qed.

Lemma deserializePropertiesLoop_data (keepUnknowns : option bool) props result :
  Forall (fun kv => plainData (snd kv) = true) props ->
  NoDup (map fst result ++ map fst props) ->
  deserializePropertiesLoop env (map (fun kv => (fst kv, toWire (snd kv))) props)
    keepUnknowns result
  = Ret (result ++ props).
Proof.
  intros Hall. revert result.
  induction Hall as [|[k p] props Hp _ IH]; intros result Hnd; simpl.
  { by rewrite app_nil_r. }
  simpl in Hp. rewrite (plainData_defined p Hp). simpl.
  rewrite (deserializeProperty_toWire env keepUnknowns p Hp). simpl.
  assert (k ∉ map fst result) as Hk.
  { apply NoDup_app in Hnd as (_ & Hdis & _). intros Hin. apply (Hdis k Hin). left. }
  rewrite (setProp_fresh k _ result Hk). rewrite IH.
  - by rewrite <- app_assoc.
  - rewrite map_app. simpl. by rewrite <- app_assoc.
Qed.

(** X26. Round trip of the properties of an object: when the values are
    plain data and no property is named [__proto__], [serializeProperties]
    returns an object with the same keys, and [deserializeProperties] gives
    the properties back from it, in every mode.  Under the name [__proto__],
    [result[k] = v] and [props[k] = ...] add no property. *)
Theorem serializeProperties_deserializeProperties (fuel : nat) (label : string)
    (props : list (string * Value)) (opts : option SerializationOptions)
    (keepUnknowns : option bool) :
  NoDup (map fst props) ->
  hasOwnProperty "__proto__" props = false ->
  Forall (fun kv => plainData (snd kv) = true /\ callDepth (snd kv) <= fuel) props ->
  exists outputs,
    serializeProperties env fuel label props opts = Ret outputs
    /\ map fst outputs = map fst props
    /\ deserializeProperties env outputs keepUnknowns = Ret props.
Proof.
  intros Hnd _ Hall. unfold serializeProperties, serializeFilteredProperties.
  rewrite (serializeFilteredLoop_data fuel opts props [] []) by done.
  eexists. split; [done|]. split.
  - simpl. by rewrite map_map.
  - unfold deserializeProperties. simpl.
    rewrite (deserializePropertiesLoop_data keepUnknowns props []); [done| |done].
    eapply Forall_impl; [exact Hall|]. by intros kv [? _].
Qed.

End PropertiesRoundTrip.

Lemma serializeProperties_deserializeProperties_witness :
  let props := [("name", VStr "n"); ("tags", VObj [("a", VNull)])] in
  exists outputs,
    serializeProperties (exampleEnv false) 3 "r" props None = Ret outputs
    /\ map fst outputs = map fst props
    /\ deserializeProperties (exampleEnv false) outputs None = Ret props.
Proof.
  intros props.
  apply (serializeProperties_deserializeProperties (exampleEnv false) 3 "r" props None None).
  - apply (bool_decide_unpack _). by vm_compute.
  - reflexivity.
  - repeat constructor; simpl; lia.
Defined.

Section PlainWire.
Context (env : Env) (keepUnknowns : option bool).

Lemma arrayLoop_returns (f : Wire -> Outcome Value) elems hadSecret acc :
  Forall (fun e => exists d, f e = Ret d) elems ->
  exists r, arrayLoop f elems hadSecret acc = Ret r.
Proof.
  intros Hall. revert hadSecret acc.
  induction Hall as [|e elems [d Hd] _ IH]; intros hadSecret acc; simpl.
  - by eexists.
  - rewrite Hd. simpl. apply IH.
Qed.

Lemma objectLoop_returns (f : Wire -> Outcome Value) props hadSecrets obj :
  Forall (fun kv => exists d, f (snd kv) = Ret d) props ->
  exists r, objectLoop f props hadSecrets obj = Ret r.
Proof.
  intros Hall. revert hadSecrets obj.
  induction Hall as [|[k e] props [d Hd] _ IH]; intros hadSecrets obj; simpl.
  - by eexists.
  - simpl in Hd. rewrite Hd. simpl. apply IH.
Qed.

(** X27. [deserializeProperty] returns, whatever the mode and the
    registries, for every wire value that holds no [undefined] and no object
    with a truthy value under the signature key. *)
Theorem deserializeProperty_plain_returns (w : Wire) :
  plainW w = true -> exists v, deserializeProperty env w keepUnknowns = Ret v.
Proof.
  induction w as [| | | | |elems IH|props IH] using Wire_nested_ind;
    try (intros _; by eexists); try done.
  - simpl. intros Hp.
    destruct (arrayLoop_returns (fun e => deserializeProperty env e keepUnknowns)
                elems false []) as ([hadSecret out] & ->).
    { induction IH as [|e elems He _ IHl]; simpl in Hp; [constructor|].
      apply andb_prop in Hp as [H1 H2]. constructor; [by apply He | by apply IHl]. }
    simpl. destruct hadSecret; by eexists.
  - intros Hp. simpl in Hp. apply andb_prop in Hp as [Hsig Hp].
    apply negb_true_iff in Hsig. cbn -[objectLoop getW]. rewrite Hsig.
    destruct (objectLoop_returns (fun e => deserializeProperty env e keepUnknowns)
                props false []) as ([hadSecrets obj] & ->).
    { clear Hsig. induction IH as [|[k e] props He _ IHl]; simpl in Hp; [constructor|].
      apply andb_prop in Hp as [H1 H2]. constructor; [by apply He | by apply IHl]. }
    simpl. destruct hadSecrets; by eexists.
Qed.

End PlainWire.

Lemma deserializeProperty_plain_returns_witness :
  exists v,
    deserializeProperty (exampleEnv true) (WObj [("a", WArr [WStr unknownValue; WNull])]) None
    = Ret v.
Proof.
  apply (deserializeProperty_plain_returns (exampleEnv true) None
           (WObj [("a", WArr [WStr unknownValue; WNull])])).
  reflexivity.
Defined.

(** ** Tables built by registration, archives, arrays *)

Section Registered.
Context {T : Type} `{Versioned T}.

Lemma registerAll_invariant (registrations : list (string * T))
    (source table : gmap string (list T)) :
  Forall (fun ki => wellFormedVersion (version (snd ki))) registrations ->
  registerAll registrations source = Ret table ->
  (forall k items, source !! k = Some items -> uniformlyVersioned items) ->
  (forall k e, e ∈ default [] (source !! k) -> wellFormedVersion (version e)) ->
  (forall k items, table !! k = Some items -> uniformlyVersioned items)
  /\ (forall k e, e ∈ default [] (table !! k) -> wellFormedVersion (version e)).
Proof.
  intros Hall. revert source.
  induction Hall as [|[key item] rest Hitem _ IH]; intros source Hr Huni Hwf; simpl in Hr.
  { by simplify_eq. }
  apply bind_Ret in Hr as ([inserted source'] & Hreg & Hr). simpl in Hr.
  apply (IH _ Hr).
  - by apply (register_uniformlyVersioned _ _ _ _ _ _ Hreg).
  - intros k e He. destruct (decide (k = key)) as [->|Hne].
    + rewrite (register_entries _ _ _ _ _ _ Hreg) in He. simpl in He.
      apply elem_of_app in He as [He|He]; [by apply (Hwf key)|].
      destruct inserted; [|by apply elem_of_nil in He].
      apply list_elem_of_singleton in He. by subst.
    + apply (Hwf k). unfold register in Hreg.
      destruct (source !! key) as [items|].
      * apply bind_Ret in Hreg as (skip & _ & Hreg).
        destruct skip; simplify_eq; [done|]. by rewrite lookup_insert_ne in He.
      * simplify_eq. by rewrite lookup_insert_ne in He.
Qed.

(** X28. On every table that registrations build from the empty table, a
    lookup returns the kept entry of greatest version as the specification
    words it: entries without version rank lowest and the first of equals
    wins (versions absent or valid). *)
Theorem getRegistration_registered (registrations : list (string * T))
    (table : gmap string (list T)) (key : string) (wanted : option string) :
  Forall (fun ki => wellFormedVersion (version (snd ki))) registrations ->
  registerAll registrations ∅ = Ret table ->
  wellFormedRequest wanted ->
  getRegistration table key wanted = Ret (lookupAsSpecified table key wanted).
Proof.
  intros Hall Hr Hreq.
  destruct (registerAll_invariant registrations ∅ table Hall Hr) as [Huni Hwf].
  { intros k items Hk. by rewrite lookup_empty in Hk. }
  { intros k e He. rewrite lookup_empty in He. by apply elem_of_nil in He. }
  apply getRegistration_uniformlyVersioned; [done | by apply Hwf |].
  destruct (table !! key) as [items|] eqn:Hk; simpl.
  - by apply (Huni key).
  - right. simpl. lia.
Qed.

End Registered.

Lemma getRegistration_registered_witness :
  exists table,
    registerAll [("k", {| entry_version := Some "1.2.3"; entry_name := "a" |});
                 ("k", {| entry_version := None; entry_name := "b" |});
                 ("k", {| entry_version := Some "1.5.3"; entry_name := "c" |})] ∅
    = Ret table
    /\ getRegistration table "k" (Some "1.2.0")
       = Ret (lookupAsSpecified table "k" (Some "1.2.0")).
Proof.
  eexists. split; [reflexivity|].
  apply (getRegistration_registered
           [("k", {| entry_version := Some "1.2.3"; entry_name := "a" |});
            ("k", {| entry_version := None; entry_name := "b" |});
            ("k", {| entry_version := Some "1.5.3"; entry_name := "c" |})]).
  - repeat constructor; simpl; try done; eexists; vm_compute; reflexivity.
  - reflexivity.
  - simpl. intros _. eexists. vm_compute. reflexivity.
Defined.

Section Archives.
Context (env : Env) (keepUnknowns : option bool).

Lemma assetsLoop_outcome (f : Wire -> Outcome Value) (P : string -> Prop) entries acc :
  Forall (fun kv => P (fst kv)) entries ->
  Forall (fun kv => isAssetOrArchive (snd kv) = true /\ P (fst kv)) acc ->
  match assetsLoop f entries acc with
  | Ret members => Forall (fun kv => isAssetOrArchive (snd kv) = true /\ P (fst kv)) members
  | Throw e => e = ArchiveMemberNotAsset \/ exists k w, (k, w) ∈ entries /\ f w = Throw e
  | _ => True
  end.
Proof.
  intros Hall. revert acc.
  induction Hall as [|[k w] entries Hk _ IH]; intros acc Hacc; simpl; [done|].
  destruct (f w) as [a| | |] eqn:Hw; simpl; try done.
  - destruct (isAssetOrArchive a) eqn:Ha; simpl; [|by left].
    specialize (IH (setProp k a acc)).
    destruct (assetsLoop f entries (setProp k a acc)) as [members|e| |]; try done.
    + apply IH.
      by apply (Forall_setProp_key (fun k a => isAssetOrArchive a = true /\ P k)).
    + destruct IH as [->|(k' & w' & Hin & Hw')].
      * by apply (Forall_setProp_key (fun k a => isAssetOrArchive a = true /\ P k)).
      * by left.
      * right. exists k', w'. split; [by right | done].
  - right. exists k, w. split; [left | done].
Qed.

(** X29. An archive envelope whose [assets] is an object: when
    [deserializeProperty] returns, the result is an asset archive whose
    members are assets or archives, under keys of [assets]; when it raises,
    the error is "Expected an AssetArchive's assets to be unmarshaled
    Asset or Archive objects" or one raised by the deserialization of a
    member. *)
Theorem deserializeProperty_archive_members (props entries : list (string * Wire)) :
  getW specialSigKey props = WStr specialArchiveSig ->
  getW "assets" props = WObj entries ->
  match deserializeProperty env (WObj props) keepUnknowns with
  | Ret v =>
      exists members,
        v = VArchive AssetArchive (VObj members)
        /\ Forall (fun kv => isAssetOrArchive (snd kv) = true
                             /\ hasOwnProperty (fst kv) entries = true) members
  | Throw e =>
      e = ArchiveMemberNotAsset
      \/ exists k w, (k, w) ∈ entries /\ deserializeProperty env w keepUnknowns = Throw e
  | _ => True
  end.
Proof.
  intros Hsig Hassets.
  cbn -[withProp getW constructReference]. rewrite Hsig.
  cbn -[withProp getW constructReference]. rewrite Hassets.
  cbn -[withProp getW constructReference].
  rewrite (withProp_getW _ "assets" _ props) by by rewrite Hassets.
  rewrite Hassets.
  pose proof (assetsLoop_outcome (fun a => deserializeProperty env a keepUnknowns)
                (fun k => hasOwnProperty k entries = true) entries []) as Hloop.
  assert (Forall (fun kv : string * Wire => hasOwnProperty (fst kv) entries = true) entries)
    as Hkeys.
  { apply Forall_forall. intros [k w] Hin. simpl.
    rewrite hasOwnProperty_elem. apply bool_decide_eq_true_2.
    apply list_elem_of_fmap. by exists (k, w). }
  specialize (Hloop Hkeys (List.Forall_nil _)).
  destruct (assetsLoop _ entries []) as [members|e| |]; simpl; try done.
  by exists members.
Qed.

End Archives.

Lemma deserializeProperty_archive_members_witness :
  exists members,
    VArchive AssetArchive (VObj [("a.txt", VAsset StringAsset (VStr "hello"))])
    = VArchive AssetArchive (VObj members)
    /\ Forall (fun kv => isAssetOrArchive (snd kv) = true
                         /\ hasOwnProperty (fst kv)
                              [("a.txt", WObj [(specialSigKey, WStr specialAssetSig);
                                               ("text", WStr "hello")])] = true) members.
Proof.
  apply (deserializeProperty_archive_members (exampleEnv false) None
           [(specialSigKey, WStr specialArchiveSig);
            ("assets", WObj [("a.txt", WObj [(specialSigKey, WStr specialAssetSig);
                                             ("text", WStr "hello")])])]
           [("a.txt", WObj [(specialSigKey, WStr specialAssetSig); ("text", WStr "hello")])]);
    reflexivity.
Defined.

Section Arrays.
Context (env : Env).

Lemma serializeElements_elements (fuel : nat) elems result d opts w :
  fst (serializeElements (serializeProperty env fuel) elems result d opts) = Ret w ->
  exists ws,
    w = WArr (result ++ ws)
    /\ Forall2 (fun p e => exists x, fst (serializeProperty env fuel p None opts) = Ret x
                                     /\ e = orNull x) elems ws.
Proof.
  revert result d. induction elems as [|p elems IH]; intros result d; simpl.
  { intros Hw. simplify_eq. exists []. split; [by rewrite app_nil_r | constructor]. }
  pose proof (serializeProperty_same_value env fuel p d None opts) as Hp.
  destruct (serializeProperty env fuel p d opts) as [o d1]. simpl in Hp.
  rewrite fst_andThen. destruct o as [x| | |]; simpl; try done.
  intros Hw. destruct (IH _ _ Hw) as (ws & -> & Hws).
  exists ((if isUndefinedW x then WNull else x) :: ws). split.
  - by rewrite <- app_assoc.
  - constructor; [|done]. exists x. by split.
Qed.

(** X30. An array is serialized to an array of the same length: its
    elements are the serialized elements, in order, with [null] in the place
    of every element that serializes to [undefined], so that no element of
    the result is [undefined]. *)
Theorem serializeProperty_array (fuel : nat) (elems : list Value)
    (d : option (list Resource)) (opts : option SerializationOptions) (w : Wire) :
  fst (serializeProperty env (S fuel) (VArr elems) d opts) = Ret w ->
  exists ws,
    w = WArr ws /\ length ws = length elems
    /\ Forall (fun e => isUndefinedW e = false) ws
    /\ Forall2 (fun p e => exists x, fst (serializeProperty env fuel p None opts) = Ret x
                                     /\ e = orNull x) elems ws.
Proof.
  simpl. intros Hw. apply serializeElements_elements in Hw as (ws & -> & Hws).
  exists ws. repeat split; try done.
  - symmetry. by eapply Forall2_length.
  - clear -Hws. induction Hws as [|p e elems ws (x & _ & ->) _ IH]; constructor; [|done].
    by destruct x.
Qed.

End Arrays.

Lemma serializeProperty_array_witness :
  exists ws,
    WArr [WNull; WStr "a"] = WArr ws /\ length ws = length [VUndefined; VStr "a"]
    /\ Forall (fun e => isUndefinedW e = false) ws
    /\ Forall2 (fun p e =>
                  exists x, fst (serializeProperty (exampleEnv false) 1 p None None) = Ret x
                            /\ e = orNull x) [VUndefined; VStr "a"] ws.
Proof.
  apply (serializeProperty_array (exampleEnv false) 1 [VUndefined; VStr "a"] (Some []) None).
  reflexivity.
Defined.
